(** * Excel reconciliation tool: a shallow embedding of the reconciliation
    engine and of the result exporter, with the properties of its
    specification.

    Sources embedded here:
    - [src/lib/reconciliation.ts]: processFiles, validateColumnMappings,
      findDuplicatesInFile, createCompositeKeyFromAllColumns,
      compareFilesWithMappings, createCompositeKey, processArrayInChunks;
    - the duplicate finder with options (findDuplicates);
    - the streaming orchestrator (processFiles over header lists,
      validateColumnMappingsAgainstHeaders, compareUniqueItemStreams);
    - the exporter (processSheetData, processMatchedItem, exportToExcel,
      exportCategoryToExcel, splitLargeExport);
    - the file service (getSheetColumns, getSheetColumnsWithWorker) and the
      worker's answer to a request for columns;
    - the column mapper and the search of the results view.

    Conventions.  A JavaScript string is a [string] of 8-bit code units.  A
    JavaScript number is an integer [Z] (spreadsheet rows read with
    [raw: false] carry formatted strings; fractional numbers are not
    represented).  An object is the list of its own enumerable properties in
    insertion order; property lookup is own-property lookup, and the operator
    [in] also finds the names inherited from [Object.prototype].  [await] and the
    timer yields between chunks are sequencing only and leave no trace in the
    model. *)

From Stdlib Require Import Ascii String.
From stdpp Require Import gmap strings list fin_maps pretty sorting.

Open Scope string_scope.
Open Scope list_scope.

(** ** JavaScript strings *)

Module JsString.

Definition code (c : ascii) : N := N_of_ascii c.

(** [String.prototype.toLowerCase] on one code unit: A-Z, and the Latin-1
    capitals U+00C0..U+00DE without the multiplication sign U+00D7. *)
Definition lowerChar (c : ascii) : ascii :=
  let n := code c in
  if ((65 <=? n) && (n <=? 90))%N then ascii_of_N (n + 32)
  else if ((192 <=? n) && (n <=? 222) && negb (n =? 215))%N then ascii_of_N (n + 32)
  else c.

(** The inverse direction, for the same two ranges. *)
Definition upperChar (c : ascii) : ascii :=
  let n := code c in
  if ((97 <=? n) && (n <=? 122))%N then ascii_of_N (n - 32)
  else if ((224 <=? n) && (n <=? 254) && negb (n =? 247))%N then ascii_of_N (n - 32)
  else c.

Fixpoint toLowerCase (s : string) : string :=
  match s with
  | EmptyString => EmptyString
  | String c r => String (lowerChar c) (toLowerCase r)
  end.

(** White space as [trim] sees it, among 8-bit code units: TAB, LF, VT, FF,
    CR, SPACE and NBSP. *)
Definition isSpace (c : ascii) : bool :=
  let n := code c in
  (((9 <=? n) && (n <=? 13)) || (n =? 32) || (n =? 160))%N.

Fixpoint trimStart (s : string) : string :=
  match s with
  | EmptyString => EmptyString
  | String c r => if isSpace c then trimStart r else s
  end.

(** [trimEnd] keeps a character when it is not a space or when something
    that is kept follows it. *)
Fixpoint trimEnd (s : string) : string :=
  match s with
  | EmptyString => EmptyString
  | String c r =>
      match trimEnd r with
      | EmptyString => if isSpace c then EmptyString else String c EmptyString
      | r' => String c r'
      end
  end.

Definition trim (s : string) : string := trimEnd (trimStart s).

(** [Array.prototype.join]. *)
Definition join (sep : string) (parts : list string) : string :=
  String.concat sep parts.

Definition startsWith (p s : string) : bool := String.prefix p s.

(** A string used as a condition: only the empty string is falsy. *)
Definition truthy (s : string) : bool :=
  match s with EmptyString => false | _ => true end.

(** The default comparison of [Array.prototype.sort]: code units, left to
    right. *)
Definition le (a b : string) : Prop := String.leb a b = true.

#[export] Instance le_dec : RelDecision le.
Proof. intros a b. unfold le. apply _. Defined.

Definition sort (l : list string) : list string := merge_sort le l.

(** The double quote, for messages that quote a column name. *)
Definition dquote : string := String "034"%char EmptyString.

End JsString.

(** ** JavaScript values *)

#[warnings="-register-all"] Inductive value : Type :=
| VUndefined
| VNull
| VNum (z : Z)
| VStr (s : string)
| VObj (props : list (string * value)).

(** TypeScript's [interface Transaction { [key: string]: any }]: the own
    properties of a row object. *)
Abbreviation Transaction := (list (string * value)).

Module Js.

(** [v === null || v === undefined] *)
Definition nullish (v : value) : bool :=
  match v with VUndefined | VNull => true | _ => false end.

(** [Boolean(v)] *)
Definition truthy (v : value) : bool :=
  match v with
  | VUndefined | VNull => false
  | VNum z => negb (z =? 0)%Z
  | VStr s => JsString.truthy s
  | VObj _ => true
  end.

Definition isString (v : value) : bool :=
  match v with VStr _ => true | _ => false end.

Definition isObject (v : value) : bool :=
  match v with VObj _ => true | _ => false end.

(** [String(v)], which for the values that reach it here is also
    [v.toString()]. *)
Definition toString (v : value) : string :=
  match v with
  | VUndefined => "undefined"
  | VNull => "null"
  | VNum z => pretty z
  | VStr s => s
  | VObj _ => "[object Object]"
  end.

(** [o[k]] on an object: [undefined] when [k] is not a property. *)
Fixpoint get (o : Transaction) (k : string) : value :=
  match o with
  | [] => VUndefined
  | (k', v) :: r => if String.eqb k' k then v else get r k
  end.

(** Whether [k] is an own property of [o]. *)
Definition has (o : Transaction) (k : string) : bool :=
  existsb (fun kv => String.eqb (fst kv) k) o.

(** The names that every object inherits from [Object.prototype]. *)
Definition objectPrototypeNames : list string :=
  [ "constructor"; "__defineGetter__"; "__defineSetter__"; "hasOwnProperty";
    "__lookupGetter__"; "__lookupSetter__"; "isPrototypeOf"; "propertyIsEnumerable";
    "toString"; "valueOf"; "__proto__"; "toLocaleString" ].

(** [k in o] on a row object: an own property or an inherited one. *)
Definition in_ (o : Transaction) (k : string) : bool :=
  has o k || bool_decide (k ∈ objectPrototypeNames).

(** [o[k] = v]: an existing property keeps its place, a new one goes
    last. *)
Fixpoint set (o : Transaction) (k : string) (v : value) : Transaction :=
  match o with
  | [] => [(k, v)]
  | (k', v') :: r =>
      if String.eqb k' k then (k', v) :: r else (k', v') :: set r k v
  end.

(** [delete o[k]] *)
Definition remove (o : Transaction) (k : string) : Transaction :=
  List.filter (fun kv => negb (String.eqb (fst kv) k)) o.

(** [Object.keys(o)] *)
Definition keys (o : Transaction) : list string := fst <$> o.

(** [a[i]] on an array: [undefined] out of range. *)
Definition at_ (a : list value) (i : nat) : value := nth i a VUndefined.

(** [a[i] = v] on an array: out of range the array grows, the gap reading
    [undefined]. *)
Definition setAt (a : list value) (i : nat) (v : value) : list value :=
  if decide (i < length a) then <[i := v]> a
  else a ++ replicate (i - length a) VUndefined ++ [v].

End Js.

(** ** Column mappings ([src/components/column-mapper.tsx]) *)

Record ColumnMapping : Type := {
  file1Column : string;
  file2Column : string;
  isExactMatch : bool
}.

(** ** Key derivation ([src/lib/reconciliation.ts]) *)

(** [createCompositeKeyFromAllColumns]: the sorted non-internal columns of the
    row, each as [column:value] with the value trimmed, joined by a bar. *)
Definition createCompositeKeyFromAllColumns (item : value) : string :=
  match item with
  | VObj props =>
      let keys := JsString.sort (Js.keys props) in
      let keyParts :=
        foldl (fun (keyParts : list string) (key : string) =>
                 if JsString.startsWith "_" key then keyParts
                 else
                   let val := Js.get props key in
                   let val := if Js.nullish val then VStr "" else val in
                   let val := JsString.trim (Js.toString val) in
                   keyParts ++ [key +:+ ":" +:+ val])
              [] keys in
      JsString.join "|" keyParts
  | _ => ""
  end.

(** [createCompositeKey]: one part per mapping, in mapping order; a part is
    normalised (lower case, trimmed) only when the mapping is not exact and
    the value is a string. *)
Definition createCompositeKey (item : Transaction) (mappings : list ColumnMapping)
    (isFile1 : bool) : string :=
  let keyParts :=
    foldl (fun (keyParts : list string) (mapping : ColumnMapping) =>
             let columnName :=
               if isFile1 then file1Column mapping else file2Column mapping in
             let val := Js.get item columnName in
             let val := if Js.nullish val then VStr "" else val in
             let val :=
               if negb (isExactMatch mapping) && Js.isString val
               then JsString.trim (JsString.toLowerCase (Js.toString val))
               else Js.toString val in
             keyParts ++ [val])
          [] mappings in
  JsString.join "|" keyParts.

(** ** Chunked loops

    Both scans of [src/lib/reconciliation.ts] have the shape
<<
    for (let i = 0; i < data.length; i += chunkSize) {
      const end = Math.min(i + chunkSize, data.length)
      const chunk = data.slice(i, end)
      for (let j = 0; j < chunk.length; j++) { body(chunk[j], i + j) }
    }
>>
    The outer loop runs on fuel; [forEachChunk] supplies [length data], which
    is enough whenever the chunk size is positive ([forChunks_flat]). *)

(** [a.slice(i, e)] for [i <= e]. *)
Definition slice {A : Type} (a : list A) (i e : nat) : list A :=
  take (e - i) (drop i a).

Section ChunkLoop.
Context {St A : Type}.
Variable body : St -> nat -> A -> St.

Fixpoint forChunk (chunk : list A) (i j : nat) (st : St) : St :=
  match chunk with
  | [] => st
  | item :: rest => forChunk rest i (S j) (body st (i + j) item)
  end.

Fixpoint forChunks (fuel : nat) (data : list A) (chunkSize i : nat) (st : St) : St :=
  match fuel with
  | O => st
  | S fuel' =>
      if decide (i < length data) then
        let e := Nat.min (i + chunkSize) (length data) in
        let chunk := slice data i e in
        forChunks fuel' data chunkSize (i + chunkSize) (forChunk chunk i 0 st)
      else st
  end.

Definition forEachChunk (data : list A) (chunkSize : nat) (st : St) : St :=
  forChunks (length data) data chunkSize 0 st.

(** The same items visited one by one, each with its position. *)
Fixpoint forEachFrom (l : list A) (idx : nat) (st : St) : St :=
  match l with
  | [] => st
  | item :: rest => forEachFrom rest (S idx) (body st idx item)
  end.

End ChunkLoop.

(** ** JavaScript [Map] with string keys

    Entries are kept in insertion order, which is the order
    [Array.from(m.values())] reads them in. *)

Module JsMap.
Section Ops.
Context {V : Type}.

Fixpoint get (m : list (string * V)) (k : string) : option V :=
  match m with
  | [] => None
  | (k', v) :: r => if String.eqb k' k then Some v else get r k
  end.

Definition has (m : list (string * V)) (k : string) : bool :=
  match get m k with Some _ => true | None => false end.

Fixpoint set (m : list (string * V)) (k : string) (v : V) : list (string * V) :=
  match m with
  | [] => [(k, v)]
  | (k', v') :: r =>
      if String.eqb k' k then (k', v) :: r else (k', v') :: set r k v
  end.

Definition values (m : list (string * V)) : list V := snd <$> m.

End Ops.
End JsMap.

(** ** Duplicate detection ([findDuplicatesInFile]) *)

Record DuplicateScan : Type := {
  seen : gmap string nat;
  duplicates : list Transaction;
  duplicateGroups : list (string * list value);
  uniqueItems : list Transaction
}.

Definition emptyScan : DuplicateScan :=
  {| seen := ∅; duplicates := []; duplicateGroups := []; uniqueItems := [] |}.

Section DuplicateScan.
(** The key of a row; [findDuplicatesInFile] instantiates it with
    [createCompositeKeyFromAllColumns]. *)
Variable keyOf : Transaction -> string.
Variable data : list Transaction.

(** The body of the inner loop, for the item at position [idx] of [data]. *)
Definition scanItem (st : DuplicateScan) (idx : nat) (item : Transaction)
  : DuplicateScan :=
  let key := keyOf item in
  if JsString.truthy key then
    match seen st !! key with
    | Some originalIndex =>
        {| seen := seen st;
           duplicates := duplicates st ++ [item];
           duplicateGroups :=
             match JsMap.get (duplicateGroups st) key with
             | None =>
                 JsMap.set (duplicateGroups st) key
                   [Js.at_ (VObj <$> data) originalIndex; VObj item]
             | Some group =>
                 JsMap.set (duplicateGroups st) key (group ++ [VObj item])
             end;
           uniqueItems := uniqueItems st |}
    | None =>
        {| seen := <[key := idx]> (seen st);
           duplicates := duplicates st;
           duplicateGroups := duplicateGroups st;
           uniqueItems := uniqueItems st ++ [item] |}
    end
  else st.

Definition scanChunked (chunkSize : nat) : DuplicateScan :=
  forEachChunk scanItem data chunkSize emptyScan.

End DuplicateScan.

Definition findDuplicatesInFile (data : list Transaction) : DuplicateScan :=
  let chunkSize := 1000 in
  scanChunked (fun item => createCompositeKeyFromAllColumns (VObj item)) data chunkSize.


(** ** Cross-dataset matching ([compareFilesWithMappings]) *)

Record CompareState : Type := {
  matched : list Transaction;
  inFile1Only : list Transaction;
  (** the working copy [[...data2]], whose matched entries become [null] *)
  inFile2Only : list value;
  file2Map : gmap string (list nat)
}.

Record CompareResult : Type := {
  resMatched : list Transaction;
  resInFile1Only : list Transaction;
  resInFile2Only : list value
}.

Section Compare.
Variable mappings : list ColumnMapping.

(** The body of the first loop: the position of a row of file 2 goes to the
    end of the list of its key; a row with an empty key is not indexed. *)
Definition indexItem2 (m : gmap string (list nat)) (idx : nat) (item : Transaction)
  : gmap string (list nat) :=
  let key := createCompositeKey item mappings false in
  if JsString.truthy key then
    let m1 := match m !! key with Some _ => m | None => <[key := []]> m end in
    match m1 !! key with
    | Some indices => <[key := indices ++ [idx]]> m1
    | None => m1
    end
  else m.

(** The body of the second loop.  [indices.shift()] takes the first pending
    position of the key; the matched entry is a new object, the spread of
    [item1] with [_matchedWith] set. *)
Definition matchItem1 (st : CompareState) (idx : nat) (item1 : Transaction)
  : CompareState :=
  let key := createCompositeKey item1 mappings true in
  match (if JsString.truthy key then file2Map st !! key else None) with
  | Some (matchIndex :: indices) =>
      let item2 := Js.at_ (inFile2Only st) matchIndex in
      {| matched := matched st ++ [Js.set item1 "_matchedWith" item2];
         inFile1Only := inFile1Only st;
         inFile2Only := Js.setAt (inFile2Only st) matchIndex VNull;
         file2Map := <[key := indices]> (file2Map st) |}
  | _ =>
      {| matched := matched st;
         inFile1Only := inFile1Only st ++ [item1];
         inFile2Only := inFile2Only st;
         file2Map := file2Map st |}
  end.

Definition compareFilesWithMappings (data1 data2 : list Transaction) : CompareResult :=
  let chunkSize := 1000 in
  let file2Map := forEachChunk indexItem2 data2 chunkSize ∅ in
  let st :=
    forEachChunk matchItem1 data1 chunkSize
      {| matched := []; inFile1Only := [];
         inFile2Only := VObj <$> data2; file2Map := file2Map |} in
  let filteredFile2Only := List.filter Js.truthy (inFile2Only st) in
  {| resMatched := matched st;
     resInFile1Only := inFile1Only st;
     resInFile2Only := filteredFile2Only |}.

End Compare.

(** ** Duplicate detection with options ([findDuplicates]) *)

(** The [options] argument; a field left out is [None]. *)
Record DuplicateOptions : Type := {
  caseSensitive : option bool;
  trimWhitespace : option bool;
  ignoreEmptyValues : option bool
}.

(** [options = {}] *)
Definition noOptions : DuplicateOptions :=
  {| caseSensitive := None; trimWhitespace := None; ignoreEmptyValues := None |}.

Record DuplicateGroup : Type := {
  groupKey : string;
  groupItems : list value
}.

Record FindDuplicatesResult : Type := {
  fdDuplicates : list Transaction;
  fdDuplicateGroups : list DuplicateGroup;
  fdUniqueItems : list Transaction
}.

Definition noDuplicatesResult : FindDuplicatesResult :=
  {| fdDuplicates := []; fdDuplicateGroups := []; fdUniqueItems := [] |}.

(** The composite key of one row, as the processor of [findDuplicates]
    builds it from [keysToCheck] and the three flags. *)
Definition compositeKey (keysToCheck : list string)
    (caseSensitive trimWhitespace ignoreEmptyValues : bool) (item : Transaction)
  : string :=
  let keyParts :=
    foldl (fun (keyParts : list string) (key : string) =>
             let val := Js.get item key in
             if Js.nullish val && ignoreEmptyValues then keyParts
             else
               let val :=
                 if negb (Js.nullish val) then
                   let s := Js.toString val in
                   let s := if negb caseSensitive then JsString.toLowerCase s else s in
                   if trimWhitespace then JsString.trim s else s
                 else "" in
               keyParts ++ [key +:+ ":" +:+ val])
          [] keysToCheck in
  JsString.join "|" keyParts.

(** [Math.ceil(totalItems / chunkSize)] for a positive chunk size. *)
Definition ceilDiv (n d : nat) : nat := (n + d - 1) / d.

(** [processArrayInChunks]: the processor is called on each slice with the
    slice's number; what it returns is spread into one result array.  The
    processor's captured variables are the state [St]. *)
Definition processArrayInChunks {T R St : Type} (array : list T) (chunkSize : nat)
    (processor : St -> list T -> nat -> list R * St) (st : St) : list R * St :=
  let totalItems := length array in
  let totalChunks := ceilDiv totalItems chunkSize in
  foldl (fun (acc : list R * St) (i : nat) =>
           let start := i * chunkSize in
           let e := Nat.min (start + chunkSize) totalItems in
           let chunk := slice array start e in
           let processed := processor acc.2 chunk i in
           (acc.1 ++ processed.1, processed.2))
        ([], st) (seq 0 totalChunks).

Inductive FindDuplicatesError : Type :=
| SpreadOfNonIterable.

(** [findDuplicates].  The processor keeps [seen], the group map and
    [uniqueItems] in a [DuplicateScan] whose [duplicates] field plays the
    chunk-local [chunkDuplicates].  After the scan the code iterates over the
    flat array that [processArrayInChunks] returned and spreads each of its
    elements into [duplicates.push]; an element is a row object, which is not
    iterable, so a non-empty array of found duplicates ends in a
    [TypeError]. *)
Definition findDuplicates (data : list Transaction) (columns : list string)
    (options : DuplicateOptions) : FindDuplicatesError + FindDuplicatesResult :=
  match data with
  | [] => inr noDuplicatesResult
  | first :: _ =>
      let caseSensitive := default false (caseSensitive options) in
      let trimWhitespace := default true (trimWhitespace options) in
      let ignoreEmptyValues := default true (ignoreEmptyValues options) in
      let keysToCheck :=
        if decide (0 < length columns) then columns else Js.keys first in
      if decide (length keysToCheck = 0) then inr noDuplicatesResult
      else
        let chunkSize := 1000 in
        let keyOf := compositeKey keysToCheck caseSensitive trimWhitespace ignoreEmptyValues in
        let processor (st : DuplicateScan) (chunk : list Transaction) (chunkIndex : nat) :=
          let st0 := {| seen := seen st; duplicates := [];
                        duplicateGroups := duplicateGroups st;
                        uniqueItems := uniqueItems st |} in
          let st1 := forChunk (scanItem keyOf data) chunk (chunkIndex * chunkSize) 0 st0 in
          (duplicates st1, st1) in
        let run := processArrayInChunks data chunkSize processor emptyScan in
        match run.1 with
        | [] =>
            inr {| fdDuplicates := [];
                   fdDuplicateGroups :=
                     (fun kv => {| groupKey := kv.1; groupItems := kv.2 |})
                       <$> duplicateGroups run.2;
                   fdUniqueItems := uniqueItems run.2 |}
        | _ :: _ => inl SpreadOfNonIterable
        end
  end.

(** ** The spreadsheet library, as the exporter uses it

    A worksheet is the list of its rows, a row the list of its cells; a
    workbook is the list of its named sheets in the order of [SheetNames].
    Only what [processSheetData] relies on is modelled: array-of-arrays
    sheets, JSON rows under a header row, writing rows at a row origin, and
    [book_append_sheet], which refuses a sheet name that is malformed or
    already in the book. *)

Module XLSX.

Abbreviation Row := (list value).
Abbreviation WorkSheet := (list (list value)).
Abbreviation WorkBook := (list (string * list (list value))).

Inductive Error : Type :=
| BadSheetName (name : string)
| SheetNameExists (name : string).

Definition book_new : WorkBook := [].

Definition aoa_to_sheet (aoa : list Row) : WorkSheet := aoa.

(** The own enumerable properties of a row value: those of an object, the
    indexed characters of a string, none for the rest. *)
Definition ownProps (v : value) : Transaction :=
  match v with
  | VObj props => props
  | VStr s => imap (fun i c => (pretty i, VStr (String c EmptyString)))
                (list_ascii_of_string s)
  | _ => []
  end.

(** The header of a JSON sheet: the keys of the rows, each at its first
    occurrence. *)
Definition headerOf (js : list value) : list string :=
  foldl (fun hdr v =>
           foldl (fun hdr k => if bool_decide (k ∈ hdr) then hdr else hdr ++ [k])
                 hdr (Js.keys (ownProps v)))
        [] js.

Definition rowUnder (hdr : list string) (v : value) : Row :=
  (fun k => Js.get (ownProps v) k) <$> hdr.

(** The rows that [js] becomes: the header row unless [skipHeader], and one
    row per element.  Without a header row a row holds the values of the
    element in the order of its own keys. *)
Definition jsonRows (js : list value) (skipHeader : bool) : list Row :=
  if skipHeader then (fun v => (ownProps v).*2) <$> js
  else let hdr := headerOf js in (VStr <$> hdr) :: (rowUnder hdr <$> js).

(** Rows written from row [origin] on replace what was there; rows before a
    far origin are empty. *)
Definition writeRowsAt (ws : WorkSheet) (origin : nat) (rows : list Row) : WorkSheet :=
  take origin (ws ++ replicate (origin - length ws) []) ++ rows
  ++ drop (origin + length rows) ws.

Definition json_to_sheet (js : list value) : WorkSheet := jsonRows js false.

(** [json_to_sheet([{}], { header })]: the header row and one empty row. *)
Definition header_sheet (hdr : list string) : WorkSheet := [VStr <$> hdr; []].

Definition sheet_add_json (ws : WorkSheet) (js : list value) (skipHeader : bool)
    (origin : nat) : WorkSheet :=
  writeRowsAt ws origin (jsonRows js skipHeader).

(** A sheet name has 1 to 31 characters, none of them among [\ / ? * [ ] :]. *)
Definition validSheetName (name : string) : bool :=
  bool_decide (1 <= String.length name <= 31)
  && forallb (fun c => negb (existsb (Ascii.eqb c) (list_ascii_of_string "\/?*[]:")))
       (list_ascii_of_string name).

Definition book_append_sheet (wb : WorkBook) (ws : WorkSheet) (name : string)
  : Error + WorkBook :=
  if negb (validSheetName name) then inl (BadSheetName name)
  else if bool_decide (name ∈ wb.*1) then inl (SheetNameExists name)
  else inr (wb ++ [(name, ws)]).

End XLSX.

(** ** The exporter ([processMatchedItem], [processSheetData]) *)

(** [processMatchedItem]: the row without [_matchedWith], to which the
    entries of the back-reference are added under [File2_] names.  The test
    that guards an entry looks for the entry's own key in the row. *)
Definition processMatchedItem (item : value) : value :=
  if negb (Js.truthy item) then VNull
  else
    match item with
    | VObj props =>
        let matchedWith := Js.get props "_matchedWith" in
        if negb (Js.truthy matchedWith) then item
        else
          let mainItem := Js.remove props "_matchedWith" in
          match matchedWith with
          | VObj entries =>
              VObj (foldl (fun (mainItem : Transaction) (kv : string * value) =>
                             if negb (Js.has mainItem kv.1)
                             then Js.set mainItem ("File2_" +:+ kv.1) kv.2
                             else mainItem)
                          mainItem entries)
          | _ => VObj mainItem
          end
    | _ => item
    end.

Inductive ExportError : Type :=
| InOperatorOnPrimitive
| TruncatedSheetError (cause : XLSX.Error)
| SheetCreateError (cause : XLSX.Error)
| HeaderSheetError (cause : XLSX.Error)
| LibraryError (cause : XLSX.Error).

Definition MAX_CHUNK_SIZE : N := 2000.
Definition MAX_SAFE_ROWS : N := 50000.

Section ProcessSheetData.
(** The length of [JSON.stringify(v)], and [n.toLocaleString()], which
    depends on the locale of the host. *)
Variable jsonLength : value -> N.
Variable toLocaleString : N -> string.

Definition truncationNote (total : N) : string :=
  "Note: This sheet has been limited to " +:+ toLocaleString MAX_SAFE_ROWS
  +:+ " rows out of " +:+ toLocaleString total
  +:+ " total rows to prevent browser crashes.".

Definition truncationAdvice : string :=
  "To export the full dataset, try exporting specific categories separately or use a desktop application.".

(** One row of the chunked branch: the processed item is written at
    [rowIndex], which then advances; a falsy processed item is skipped. *)
Definition writeItem (hasMatchedWith : bool) (st : list (list value) * nat)
    (idx : nat) (item : value) : list (list value) * nat :=
  if Js.nullish item then st
  else
    let processedItem := if hasMatchedWith then processMatchedItem item else item in
    if negb (Js.truthy processedItem) then st
    else (XLSX.sheet_add_json st.1 [processedItem] true st.2, S st.2).

Definition processSheetData (workbook : XLSX.WorkBook) (sheetName : string)
    (data : list value) : ExportError + XLSX.WorkBook :=
  let append ws wrap :=
    match XLSX.book_append_sheet workbook ws sheetName with
    | inl e => inl (wrap e)
    | inr wb => inr wb
    end in
  if decide (length data = 0) then
    append (XLSX.aoa_to_sheet [[VStr "No data available"]]) LibraryError
  else
    let validData := List.filter (fun item => negb (Js.nullish item)) data in
    match validData with
    | [] => append (XLSX.aoa_to_sheet [[VStr "No valid data available"]]) LibraryError
    | first :: _ =>
        match first with
        | VObj firstProps =>
            let hasMatchedWith := Js.has firstProps "_matchedWith" in
            let estimatedRowSize := jsonLength first in
            let chunkSize :=
              if (estimatedRowSize =? 0)%N then MAX_CHUNK_SIZE
              else N.max 1 (N.min MAX_CHUNK_SIZE (5000000 / estimatedRowSize)) in
            let total := N.of_nat (length validData) in
            let totalChunks := ((total + chunkSize - 1) / chunkSize)%N in
            if (MAX_SAFE_ROWS <? total)%N then
              let truncatedData := slice validData 0 (N.to_nat MAX_SAFE_ROWS) in
              let ws := XLSX.aoa_to_sheet
                          [ [VStr (truncationNote total)];
                            [VStr truncationAdvice];
                            [VStr ""] ] in
              let processedData :=
                if hasMatchedWith
                then List.filter Js.truthy (processMatchedItem <$> truncatedData)
                else truncatedData in
              append (XLSX.sheet_add_json ws processedData false 3) TruncatedSheetError
            else if ((totalChunks <=? 1) && (total <=? MAX_CHUNK_SIZE))%N then
              let processedData :=
                if hasMatchedWith
                then List.filter Js.truthy (processMatchedItem <$> validData)
                else validData in
              match processedData with
              | [] => append (XLSX.aoa_to_sheet
                                [[VStr "No valid data available after processing"]])
                             SheetCreateError
              | _ => append (XLSX.json_to_sheet processedData) SheetCreateError
              end
            else
              let sampleItem := if hasMatchedWith then processMatchedItem first else first in
              let headers := Js.keys (XLSX.ownProps sampleItem) in
              let ws0 :=
                match headers with
                | [] => XLSX.aoa_to_sheet [[VStr "No valid headers found"]]
                | _ => XLSX.header_sheet headers
                end in
              match XLSX.book_append_sheet workbook ws0 sheetName with
              | inl e => inl (HeaderSheetError e)
              | inr _ =>
                  (* the rows are then written into the sheet that is already
                     in the book *)
                  let filled :=
                    forEachChunk (writeItem hasMatchedWith) validData
                      (N.to_nat chunkSize) (ws0, 1) in
                  inr (workbook ++ [(sheetName, filled.1)])
              end
        | _ => inl InOperatorOnPrimitive
        end
    end.

End ProcessSheetData.

(** ** The orchestrator ([processFiles])

    A run is a log of what the orchestrator did, in order, and then either
    the message of the [Error] it threw or its result.  The log holds the
    progress reports [processFiles] makes itself and its calls to the
    file-service collaborators; the reports that a collaborator or a
    sub-stage makes through the callback handed to it are left out. *)

Inductive Event : Type :=
| Progress (stage : string) (percent : Z)
| ReadSheetData (fileNo : nat) (sheet : string)
| ReadSheetColumns (fileNo : nat) (sheet : string).

Definition Run (A : Type) : Type := list Event * (string + A).

Definition ret {A : Type} (a : A) : Run A := ([], inr a).

Definition throw {A : Type} (message : string) : Run A := ([], inl message).

Definition emit (e : Event) : Run unit := ([e], inr tt).

Definition bind {A B : Type} (m : Run A) (f : A -> Run B) : Run B :=
  match m with
  | (log, inl message) => (log, inl message)
  | (log, inr a) => let r := f a in (log ++ r.1, r.2)
  end.

(** [x ← m; k] and [m;; k] are stdpp's notations for [bind]. *)
#[export] Instance run_ret : MRet Run := @ret.
#[export] Instance run_bind : MBind Run := fun A B f m => bind m f.

(** What a collaborator call returns: logged, then the rejection or the
    value. *)
Definition call {A : Type} (e : Event) (outcome : string + A) : Run A :=
  emit e;; ([], outcome).

Record Summary : Type := {
  totalInFile1 : nat;
  totalInFile2 : nat;
  sumMatched : nat;
  sumInFile1Only : nat;
  sumInFile2Only : nat;
  sumDuplicatesInFile1 : nat;
  sumDuplicatesInFile2 : nat
}.

Record ReconciliationResults : Type := {
  rrMatched : list Transaction;
  rrInFile1Only : list Transaction;
  rrInFile2Only : list value;
  rrDuplicatesInFile1 : list Transaction;
  rrDuplicatesInFile2 : list Transaction;
  rrDuplicateGroupsInFile1 : list (list value);
  rrDuplicateGroupsInFile2 : list (list value);
  rrColumnMappings : list ColumnMapping;
  rrFile1SheetName : string;
  rrFile2SheetName : string;
  rrSummary : Summary
}.

Definition quoted (s : string) : string :=
  JsString.dquote +:+ s +:+ JsString.dquote.

(** [validateColumnMappings]: each mapping in turn, file 1 before file 2,
    with the test [column in sample] on the first row of each dataset. *)
Fixpoint validateColumnMappings (file1Sample file2Sample : Transaction)
    (mappings : list ColumnMapping) : Run unit :=
  match mappings with
  | [] => ret tt
  | mapping :: rest =>
      if negb (Js.in_ file1Sample (file1Column mapping)) then
        throw ("Column " +:+ quoted (file1Column mapping) +:+ " not found in File 1 data")
      else if negb (Js.in_ file2Sample (file2Column mapping)) then
        throw ("Column " +:+ quoted (file2Column mapping) +:+ " not found in File 2 data")
      else validateColumnMappings file1Sample file2Sample rest
  end.

Section ProcessFiles.
(** The file-service collaborator: the rows of a sheet, or the message of
    its rejection. *)
Variable File : Type.
Variable getSheetData : File -> string -> string + list Transaction.

(** [processFiles] of [src/lib/reconciliation.ts].  The [catch] of its [try]
    logs to the console and rethrows, so an error passes through as it
    is. *)
Definition processFiles (file1 file2 : File) (sheet1 sheet2 : string)
    (columnMappings : list ColumnMapping) : Run ReconciliationResults :=
  if decide (length columnMappings = 0) then throw "No column mappings provided"
  else
    emit (Progress "Reading file 1 data..." 5);;
    workbook1Data ← call (ReadSheetData 1 sheet1) (getSheetData file1 sheet1);
    emit (Progress "Reading file 2 data..." 30);;
    workbook2Data ← call (ReadSheetData 2 sheet2) (getSheetData file2 sheet2);
    match workbook1Data, workbook2Data with
    | [], _ => throw ("No data found in sheet " +:+ quoted sheet1 +:+ " of File 1")
    | _ :: _, [] => throw ("No data found in sheet " +:+ quoted sheet2 +:+ " of File 2")
    | file1Sample :: _, file2Sample :: _ =>
        emit (Progress "Validating column mappings..." 55);;
        validateColumnMappings file1Sample file2Sample columnMappings;;
        emit (Progress "Finding duplicates in File 1..." 60);;
        let dup1 := findDuplicatesInFile workbook1Data in
        emit (Progress "Finding duplicates in File 2..." 70);;
        let dup2 := findDuplicatesInFile workbook2Data in
        emit (Progress "Comparing files..." 80);;
        let cmp := compareFilesWithMappings columnMappings
                     (uniqueItems dup1) (uniqueItems dup2) in
        emit (Progress "Creating summary..." 98);;
        let summary :=
          {| totalInFile1 := length workbook1Data;
             totalInFile2 := length workbook2Data;
             sumMatched := length (resMatched cmp);
             sumInFile1Only := length (resInFile1Only cmp);
             sumInFile2Only := length (resInFile2Only cmp);
             sumDuplicatesInFile1 := length (duplicates dup1);
             sumDuplicatesInFile2 := length (duplicates dup2) |} in
        emit (Progress "Reconciliation complete" 100);;
        ret {| rrMatched := resMatched cmp;
               rrInFile1Only := resInFile1Only cmp;
               rrInFile2Only := resInFile2Only cmp;
               rrDuplicatesInFile1 := duplicates dup1;
               rrDuplicatesInFile2 := duplicates dup2;
               rrDuplicateGroupsInFile1 := JsMap.values (duplicateGroups dup1);
               rrDuplicateGroupsInFile2 := JsMap.values (duplicateGroups dup2);
               rrColumnMappings := columnMappings;
               rrFile1SheetName := sheet1;
               rrFile2SheetName := sheet2;
               rrSummary := summary |}
    end.

End ProcessFiles.

(** ** The streaming orchestrator

    A stream is the finite sequence of the chunks it yields; a stream that
    fails part-way is not modelled.  The generators are lazy and shared: the
    duplicate scan of a file runs while the matcher drains that file's stream
    of unique rows, file 2 first, and all of it is done when the summary is
    read.  The values below are those at that point. *)

Module Streaming.

Record StreamScan : Type := {
  seenRows : gmap string Transaction;
  streamDuplicates : list Transaction;
  streamDuplicateGroups : list (string * list value);
  uniqueChunks : list (list Transaction);
  processedCount : nat
}.

(** One item of a chunk, with the unique rows of the chunk so far. *)
Definition scanStreamItem (acc : StreamScan * list Transaction) (item : Transaction)
  : StreamScan * list Transaction :=
  let st := acc.1 in
  let key := createCompositeKeyFromAllColumns (VObj item) in
  if JsString.truthy key then
    match seenRows st !! key with
    | Some original =>
        ({| seenRows := seenRows st;
            streamDuplicates := streamDuplicates st ++ [item];
            streamDuplicateGroups :=
              match JsMap.get (streamDuplicateGroups st) key with
              | None => JsMap.set (streamDuplicateGroups st) key [VObj original; VObj item]
              | Some group => JsMap.set (streamDuplicateGroups st) key (group ++ [VObj item])
              end;
            uniqueChunks := uniqueChunks st;
            processedCount := processedCount st |}, acc.2)
    | None =>
        ({| seenRows := <[key := item]> (seenRows st);
            streamDuplicates := streamDuplicates st;
            streamDuplicateGroups := streamDuplicateGroups st;
            uniqueChunks := uniqueChunks st;
            processedCount := processedCount st |}, acc.2 ++ [item])
    end
  else acc.

Definition scanStreamChunk (st : StreamScan) (chunk : list Transaction) : StreamScan :=
  match chunk with
  | [] => st
  | _ =>
      let st0 := {| seenRows := seenRows st;
                    streamDuplicates := streamDuplicates st;
                    streamDuplicateGroups := streamDuplicateGroups st;
                    uniqueChunks := uniqueChunks st;
                    processedCount := processedCount st + length chunk |} in
      let r := foldl scanStreamItem (st0, []) chunk in
      match r.2 with
      | [] => r.1
      | uniqueItemsInChunk =>
          {| seenRows := seenRows r.1;
             streamDuplicates := streamDuplicates r.1;
             streamDuplicateGroups := streamDuplicateGroups r.1;
             uniqueChunks := uniqueChunks r.1 ++ [uniqueItemsInChunk];
             processedCount := processedCount r.1 |}
      end
  end.

Definition findDuplicatesInFileStream (dataStream : list (list Transaction)) : StreamScan :=
  foldl scanStreamChunk
    {| seenRows := ∅; streamDuplicates := []; streamDuplicateGroups := [];
       uniqueChunks := []; processedCount := 0 |}
    dataStream.

Record StreamCompare : Type := {
  sMatched : list Transaction;
  sInFile1Only : list Transaction;
  sFile2Map : gmap string (list Transaction);
  allFile2UniqueItems : list value;
  file2CurrentIndex : nat
}.

Definition indexKey : string := "_originalIndexInAllFile2".

(** A row of file 2 is kept in [allFile2UniqueItems]; its copy with the
    position goes to the list of its key. *)
Definition indexStreamItem (mappings : list ColumnMapping) (st : StreamCompare)
    (item : Transaction) : StreamCompare :=
  let key := createCompositeKey item mappings false in
  let file2Map :=
    if JsString.truthy key then
      let m1 := match sFile2Map st !! key with
                | Some _ => sFile2Map st
                | None => <[key := []]> (sFile2Map st)
                end in
      match m1 !! key with
      | Some wrappers =>
          <[key := wrappers ++
                     [Js.set item indexKey (VNum (Z.of_nat (file2CurrentIndex st)))]]> m1
      | None => m1
      end
    else sFile2Map st in
  {| sMatched := sMatched st;
     sInFile1Only := sInFile1Only st;
     sFile2Map := file2Map;
     allFile2UniqueItems := allFile2UniqueItems st ++ [VObj item];
     file2CurrentIndex := S (file2CurrentIndex st) |}.

(** The position a wrapper carries, as an array index. *)
Definition originalIndex (wrapper : Transaction) : option nat :=
  match Js.get wrapper indexKey with
  | VNum z => if (0 <=? z)%Z then Some (Z.to_nat z) else None
  | _ => None
  end.

Definition matchStreamItem (mappings : list ColumnMapping) (st : StreamCompare)
    (item1 : Transaction) : StreamCompare :=
  let key := createCompositeKey item1 mappings true in
  match (if JsString.truthy key then sFile2Map st !! key else None) with
  | Some (matchedFile2ItemWrapper :: potentialMatchesFile2) =>
      let file2ActualItem := Js.remove matchedFile2ItemWrapper indexKey in
      {| sMatched := sMatched st ++ [Js.set item1 "_matchedWith" (VObj file2ActualItem)];
         sInFile1Only := sInFile1Only st;
         sFile2Map := <[key := potentialMatchesFile2]> (sFile2Map st);
         allFile2UniqueItems :=
           match originalIndex matchedFile2ItemWrapper with
           | Some i => Js.setAt (allFile2UniqueItems st) i VNull
           | None => allFile2UniqueItems st
           end;
         file2CurrentIndex := file2CurrentIndex st |}
  | _ =>
      {| sMatched := sMatched st;
         sInFile1Only := sInFile1Only st ++ [item1];
         sFile2Map := sFile2Map st;
         allFile2UniqueItems := allFile2UniqueItems st;
         file2CurrentIndex := file2CurrentIndex st |}
  end.

(** [for await (const chunk of stream) { if (!chunk || chunk.length === 0)
    continue; for (const item of chunk) ... }] *)
Definition forEachStreamed {St : Type} (body : St -> Transaction -> St)
    (stream : list (list Transaction)) (st : St) : St :=
  foldl (fun st chunk => match chunk with [] => st | _ => foldl body st chunk end)
        st stream.

Definition compareUniqueItemStreams (mappings : list ColumnMapping)
    (uniqueFile1ItemsStream uniqueFile2ItemsStream : list (list Transaction))
  : CompareResult :=
  let st2 :=
    forEachStreamed (indexStreamItem mappings) uniqueFile2ItemsStream
      {| sMatched := []; sInFile1Only := []; sFile2Map := ∅;
         allFile2UniqueItems := []; file2CurrentIndex := 0 |} in
  let st := forEachStreamed (matchStreamItem mappings) uniqueFile1ItemsStream st2 in
  {| resMatched := sMatched st;
     resInFile1Only := sInFile1Only st;
     resInFile2Only :=
       List.filter (fun item => negb (match item with VNull => true | _ => false end))
         (allFile2UniqueItems st) |}.

(** [validateColumnMappingsAgainstHeaders] *)
Fixpoint validateColumnMappingsAgainstHeaders (file1Headers file2Headers : list string)
    (mappings : list ColumnMapping) : Run unit :=
  match mappings with
  | [] => ret tt
  | mapping :: rest =>
      if negb (bool_decide (file1Column mapping ∈ file1Headers)) then
        throw ("Column " +:+ quoted (file1Column mapping)
               +:+ " not found in File 1 headers. Available: "
               +:+ JsString.join ", " file1Headers)
      else if negb (bool_decide (file2Column mapping ∈ file2Headers)) then
        throw ("Column " +:+ quoted (file2Column mapping)
               +:+ " not found in File 2 headers. Available: "
               +:+ JsString.join ", " file2Headers)
      else validateColumnMappingsAgainstHeaders file1Headers file2Headers rest
  end.

Section ProcessFiles.
Variable File : Type.
(** The headers of a sheet, or the message of the rejection. *)
Variable getSheetColumnsWithWorker : File -> string -> string + list string.
(** The chunks the data stream of a sheet yields. *)
Variable getSheetDataStreamed : File -> string -> list (list Transaction).

Definition processFiles (file1 file2 : File) (sheet1 sheet2 : string)
    (columnMappings : list ColumnMapping) : Run ReconciliationResults :=
  if decide (length columnMappings = 0) then throw "No column mappings provided"
  else
    emit (Progress "Initializing..." 0);;
    emit (Progress "Fetching headers for File 1..." 1);;
    file1Headers ← call (ReadSheetColumns 1 sheet1) (getSheetColumnsWithWorker file1 sheet1);
    emit (Progress "Fetching headers for File 2..." 3);;
    file2Headers ← call (ReadSheetColumns 2 sheet2) (getSheetColumnsWithWorker file2 sheet2);
    validateColumnMappingsAgainstHeaders file1Headers file2Headers columnMappings;;
    emit (Progress "Column mappings validated." 5);;
    emit (Progress "Finding duplicates in File 1..." 45);;
    emit (Progress "Finding duplicates in File 2..." 60);;
    emit (Progress "Comparing unique items from files..." 75);;
    (* the matcher drains the unique rows of file 2, then those of file 1 *)
    emit (ReadSheetData 2 sheet2);;
    let dup2 := findDuplicatesInFileStream (getSheetDataStreamed file2 sheet2) in
    emit (ReadSheetData 1 sheet1);;
    let dup1 := findDuplicatesInFileStream (getSheetDataStreamed file1 sheet1) in
    let cmp := compareUniqueItemStreams columnMappings
                 (uniqueChunks dup1) (uniqueChunks dup2) in
    emit (Progress "Finalizing results..." 98);;
    let summary :=
      {| totalInFile1 := processedCount dup1;
         totalInFile2 := processedCount dup2;
         sumMatched := length (resMatched cmp);
         sumInFile1Only := length (resInFile1Only cmp);
         sumInFile2Only := length (resInFile2Only cmp);
         sumDuplicatesInFile1 := length (streamDuplicates dup1);
         sumDuplicatesInFile2 := length (streamDuplicates dup2) |} in
    emit (Progress "Reconciliation complete" 100);;
    ret {| rrMatched := resMatched cmp;
           rrInFile1Only := resInFile1Only cmp;
           rrInFile2Only := resInFile2Only cmp;
           rrDuplicatesInFile1 := streamDuplicates dup1;
           rrDuplicatesInFile2 := streamDuplicates dup2;
           rrDuplicateGroupsInFile1 := JsMap.values (streamDuplicateGroups dup1);
           rrDuplicateGroupsInFile2 := JsMap.values (streamDuplicateGroups dup2);
           rrColumnMappings := columnMappings;
           rrFile1SheetName := sheet1;
           rrFile2SheetName := sheet2;
           rrSummary := summary |}.

End ProcessFiles.

End Streaming.

(** ** [compareFilesWithMappings] over a store

    To speak of mutation the rows and arrays must be shared objects.  Here a
    store maps locations to objects and arrays whose fields hold primitives
    or references, and [compareFilesWithMappings] is a program on the store
    that takes the locations of [data1] and [data2].  The map [file2Map] and
    its arrays of positions are created by the call and hold numbers only;
    they stay local values. *)

Module Heap.

Abbreviation loc := nat.

Inductive hvalue : Type :=
| HUndefined
| HNull
| HNum (z : Z)
| HStr (s : string)
| HRef (l : loc).

Inductive cell : Type :=
| CObject (props : list (string * hvalue))
| CArray (elems : list hvalue).

Abbreviation heap := (gmap nat cell).

(** A program: fails ([None]) where JavaScript would raise a [TypeError] or
    the store is ill-formed. *)
Definition Prog (A : Type) : Type := heap -> option (A * heap).

#[export] Instance prog_ret : MRet Prog := fun A a h => Some (a, h).
#[export] Instance prog_bind : MBind Prog :=
  fun A B f m h => match m h with
                   | Some (a, h') => f a h'
                   | None => None
                   end.

(** A new object or array. *)
Definition alloc (c : cell) : Prog loc :=
  fun h => let l := fresh (dom h) in Some (l, <[l := c]> h).

Definition readArray (l : loc) : Prog (list hvalue) :=
  fun h => match h !! l with
           | Some (CArray elems) => Some (elems, h)
           | _ => None
           end.

(** The properties of the object an item refers to; property access on
    [null] or [undefined] raises. *)
Definition readRow (item : hvalue) : Prog (list (string * hvalue)) :=
  fun h => match item with
           | HRef l => match h !! l with
                       | Some (CObject props) => Some (props, h)
                       | _ => None
                       end
           | _ => None
           end.

Definition writeArray (l : loc) (elems : list hvalue) : Prog unit :=
  fun h => match h !! l with
           | Some (CArray _) => Some (tt, <[l := CArray elems]> h)
           | _ => None
           end.

(** [a.push(v)] *)
Definition push (l : loc) (v : hvalue) : Prog unit :=
  elems ← readArray l; writeArray l (elems ++ [v]).

(** [a[i]] and [a[i] = v] *)
Definition hat (a : list hvalue) (i : nat) : hvalue := nth i a HUndefined.

Definition hsetAt (a : list hvalue) (i : nat) (v : hvalue) : list hvalue :=
  if decide (i < length a) then <[i := v]> a
  else a ++ replicate (i - length a) HUndefined ++ [v].

Definition htruthy (v : hvalue) : bool :=
  match v with
  | HUndefined | HNull => false
  | HNum z => negb (z =? 0)%Z
  | HStr s => JsString.truthy s
  | HRef _ => true
  end.

(** A field as key derivation sees it: a reference is some object, whose
    string form does not depend on its contents. *)
Definition shallow (v : hvalue) : value :=
  match v with
  | HUndefined => VUndefined
  | HNull => VNull
  | HNum z => VNum z
  | HStr s => VStr s
  | HRef _ => VObj []
  end.

Definition shallowRow (props : list (string * hvalue)) : Transaction :=
  prod_map id shallow <$> props.

(** [{...item1, _matchedWith: item2}] on stored properties. *)
Fixpoint hset (o : list (string * hvalue)) (k : string) (v : hvalue)
  : list (string * hvalue) :=
  match o with
  | [] => [(k, v)]
  | (k', v') :: r =>
      if String.eqb k' k then (k', v) :: r else (k', v') :: hset r k v
  end.

Section Compare.
Variable mappings : list ColumnMapping.

(** The local variables of the call: the three arrays it creates, and the
    map. *)
Record Locals : Type := {
  locMatched : loc;
  locInFile1Only : loc;
  locInFile2Only : loc;
  file2Map : gmap string (list nat)
}.

Definition indexItem2 (m : gmap string (list nat)) (idx : nat) (item : hvalue)
  : Prog (gmap string (list nat)) :=
  props ← readRow item;
  let key := createCompositeKey (shallowRow props) mappings false in
  mret (if JsString.truthy key then
          let m1 := match m !! key with Some _ => m | None => <[key := []]> m end in
          match m1 !! key with
          | Some indices => <[key := indices ++ [idx]]> m1
          | None => m1
          end
        else m).

Definition matchItem1 (st : Locals) (idx : nat) (item1 : hvalue) : Prog Locals :=
  props1 ← readRow item1;
  let key := createCompositeKey (shallowRow props1) mappings true in
  match (if JsString.truthy key then file2Map st !! key else None) with
  | Some (matchIndex :: indices) =>
      working ← readArray (locInFile2Only st);
      let item2 := hat working matchIndex in
      entry ← alloc (CObject (hset props1 "_matchedWith" item2));
      push (locMatched st) (HRef entry);;
      working' ← readArray (locInFile2Only st);
      writeArray (locInFile2Only st) (hsetAt working' matchIndex HNull);;
      mret {| locMatched := locMatched st; locInFile1Only := locInFile1Only st;
              locInFile2Only := locInFile2Only st;
              file2Map := <[key := indices]> (file2Map st) |}
  | _ =>
      push (locInFile1Only st) item1;;
      mret st
  end.

(** A loop body run on a store that may already have failed. *)
Definition stepOn {St : Type} (body : St -> nat -> hvalue -> Prog St)
    (acc : option (St * heap)) (idx : nat) (item : hvalue) : option (St * heap) :=
  match acc with
  | Some (st, h) => body st idx item h
  | None => None
  end.

Definition forEachChunkOn {St : Type} (body : St -> nat -> hvalue -> Prog St)
    (data : list hvalue) (chunkSize : nat) (st : St) : Prog St :=
  fun h => forEachChunk (stepOn body) data chunkSize (Some (st, h)).

(** The locations of the three result arrays. *)
Definition compareFilesWithMappings (data1 data2 : loc) : Prog (loc * loc * loc) :=
  let chunkSize := 1000 in
  matched ← alloc (CArray []);
  inFile1Only ← alloc (CArray []);
  elems2 ← readArray data2;
  inFile2Only ← alloc (CArray elems2);
  file2Map ← forEachChunkOn indexItem2 elems2 chunkSize ∅;
  elems1 ← readArray data1;
  st ← forEachChunkOn matchItem1 elems1 chunkSize
         {| locMatched := matched; locInFile1Only := inFile1Only;
            locInFile2Only := inFile2Only; file2Map := file2Map |};
  working ← readArray (locInFile2Only st);
  filteredFile2Only ← alloc (CArray (List.filter htruthy working));
  mret (locMatched st, locInFile1Only st, filteredFile2Only).

End Compare.

(** A row of the store: a reference to an object. *)
Definition isRow (h : heap) (v : hvalue) : Prop :=
  exists l props, v = HRef l /\ h !! l = Some (CObject props).

(** [data1] and [data2] are arrays of rows. *)
Definition wellFormed (h : heap) (data1 data2 : loc) : Prop :=
  exists elems1 elems2,
    h !! data1 = Some (CArray elems1)
    /\ h !! data2 = Some (CArray elems2)
    /\ Forall (isRow h) elems1
    /\ Forall (isRow h) elems2.

(** The store [h'] extends [h] and has changed none of its cells. *)
Definition preserves (h h' : heap) : Prop :=
  forall l c, h !! l = Some c -> h' !! l = Some c.

End Heap.

(** ** Invariants of the duplicate scan

    What the scan has established once the items [pre] have been visited. *)

Section DuplicateScanInvariants.
Variable keyOf : Transaction -> string.

(** The rows of [l] whose key is [k], in order. *)
Definition rowsWithKey (k : string) (l : list Transaction) : list Transaction :=
  filter (fun t => keyOf t = k) l.

(** The rows of [l] that have a key at all. *)
Definition keyedRows (l : list Transaction) : list Transaction :=
  filter (fun t => JsString.truthy (keyOf t) = true) l.

Definition groupsInv (pre : list Transaction) (st : DuplicateScan) : Prop :=
  (forall k, JsString.truthy k = false -> seen st !! k = None)
  /\ (forall k, JsString.truthy k = true -> seen st !! k = None ->
                rowsWithKey k pre = [])
  /\ (forall k i, seen st !! k = Some i ->
                  exists y, pre !! i = Some y /\ head (rowsWithKey k pre) = Some y)
  /\ NoDup (duplicateGroups st).*1
  /\ (forall k, JsMap.get (duplicateGroups st) k =
                if JsString.truthy k && bool_decide (2 <= length (rowsWithKey k pre))
                then Some (VObj <$> rowsWithKey k pre) else None).

Definition partitionInv (pre : list Transaction) (st : DuplicateScan) : Prop :=
  uniqueItems st ++ duplicates st ≡ₚ keyedRows pre
  /\ sublist (uniqueItems st) pre
  /\ sublist (duplicates st) pre.

End DuplicateScanInvariants.

(** ** First-in first-out pairing, as the specification words it

    "The i-th arriving dataset-1 record with that key is paired with the
    i-th arriving dataset-2 record with that key."  These definitions follow
    the specification and do not look at [compareFilesWithMappings]; the
    properties below compare the two. *)

Section FifoPairing.
Variable mappings : list ColumnMapping.
Variables data1 data2 : list Transaction.

Definition key1 (t : Transaction) : string := createCompositeKey t mappings true.
Definition key2 (t : Transaction) : string := createCompositeKey t mappings false.

(** The positions, from [i] on, of the rows of [l] whose key is [k]. *)
Fixpoint positionsFrom (keyOf : Transaction -> string) (k : string)
    (l : list Transaction) (i : nat) : list nat :=
  match l with
  | [] => []
  | t :: r =>
      if decide (keyOf t = k) then i :: positionsFrom keyOf k r (S i)
      else positionsFrom keyOf k r (S i)
  end.

Definition positions (keyOf : Transaction -> string) (k : string)
    (l : list Transaction) : list nat :=
  positionsFrom keyOf k l 0.

(** The partner of the row at position [t] of dataset 1: with [k] its key and
    [i] the number of earlier rows of dataset 1 with key [k], the [i]-th row
    of dataset 2 with key [k], if the key is not empty and there is one. *)
Definition fifoPartner (t : nat) : option nat :=
  match data1 !! t with
  | Some item1 =>
      let k := key1 item1 in
      if JsString.truthy k then
        positions key2 k data2 !! length (rowsWithKey key1 k (take t data1))
      else None
  | None => None
  end.

(** The pairs of the first [n] rows of dataset 1, in the order of dataset 1. *)
Definition fifoPairsUpTo (n : nat) : list (nat * nat) :=
  omap (fun t => (fun j => (t, j)) <$> fifoPartner t) (seq 0 n).

Definition fifoPairs : list (nat * nat) := fifoPairsUpTo (length data1).

(** The matched entry of a pair. *)
Definition matchedEntry (p : nat * nat) : option Transaction :=
  match data1 !! p.1, data2 !! p.2 with
  | Some item1, Some item2 => Some (Js.set item1 "_matchedWith" (VObj item2))
  | _, _ => None
  end.

(** The rows of dataset 1 without a partner. *)
Definition unpairedUpTo (n : nat) : list Transaction :=
  omap (fun t => match fifoPartner t with
                 | Some _ => None
                 | None => data1 !! t
                 end) (seq 0 n).

(** The working copy of dataset 2 once the partners [js] are taken. *)
Definition workingCopy (js : list nat) : list value :=
  imap (fun j item2 => if bool_decide (j ∈ js) then VNull else VObj item2) data2.

(** The rows of dataset 2 that are the partner of no row, in order. *)
Definition unclaimed (js : list nat) : list Transaction :=
  (filter (fun p => p.1 ∉ js) (imap (fun j item2 => (j, item2)) data2)).*2.

(** What the second loop has established once the rows [pre] of dataset 1
    have been visited. *)
Definition compareInv (pre : list Transaction) (st : CompareState) : Prop :=
  let n := length pre in
  (forall k, file2Map st !! k =
             if JsString.truthy k then
               match positions key2 k data2 with
               | [] => None
               | ps => Some (drop (length (rowsWithKey key1 k pre)) ps)
               end
             else None)
  /\ inFile2Only st = workingCopy (fifoPairsUpTo n).*2
  /\ matched st = omap matchedEntry (fifoPairsUpTo n)
  /\ length (matched st) = length (fifoPairsUpTo n)
  /\ length (List.filter Js.truthy (inFile2Only st)) + length (matched st)
     = length data2
  /\ inFile1Only st = unpairedUpTo n
  /\ NoDup (fifoPairsUpTo n).*2
  /\ (forall j, j ∈ (fifoPairsUpTo n).*2 ->
        exists k, JsString.truthy k = true
                  /\ j ∈ take (length (rowsWithKey key1 k pre)) (positions key2 k data2)).

End FifoPairing.

(** What the first loop has established once the rows [pre2] of dataset 2
    have been visited. *)
Definition indexInv (mappings : list ColumnMapping) (pre2 : list Transaction)
    (m : gmap string (list nat)) : Prop :=
  forall k, m !! k =
            if JsString.truthy k then
              match positions (key2 mappings) k pre2 with
              | [] => None
              | ps => Some ps
              end
            else None.

(** ** The streaming matcher against the same pairing *)

Section StreamedPairing.
Variable mappings : list ColumnMapping.
Variables data1 data2 : list Transaction.

(** The copy of the row at position [j] of dataset 2 that the streaming
    matcher keeps in its map. *)
Definition wrapperAt (j : nat) : Transaction :=
  Js.set (nth j data2 []) Streaming.indexKey (VNum (Z.of_nat j)).

(** The matched entry of a pair in the streaming matcher: the back-reference
    is the copy, without the position it carried. *)
Definition matchedEntryStreamed (p : nat * nat) : option Transaction :=
  match data1 !! p.1, data2 !! p.2 with
  | Some item1, Some item2 =>
      Some (Js.set item1 "_matchedWith" (VObj (Js.remove item2 Streaming.indexKey)))
  | _, _ => None
  end.

(** The two matchers side by side, once [n] rows of dataset 1 are done. *)
Definition streamSim (n : nat) (sa : CompareState) (ss : Streaming.StreamCompare) : Prop :=
  Streaming.sFile2Map ss
  = (fun indices : list nat => wrapperAt <$> indices) <$> file2Map sa
  /\ Streaming.allFile2UniqueItems ss = inFile2Only sa
  /\ Streaming.sMatched ss = omap matchedEntryStreamed (fifoPairsUpTo mappings data1 data2 n)
  /\ Streaming.sInFile1Only ss = inFile1Only sa.

(** The two first loops side by side, once the rows [pre2] of dataset 2 are
    done. *)
Definition streamIndexSim (pre2 : list Transaction) (m : gmap string (list nat))
    (ss : Streaming.StreamCompare) : Prop :=
  Streaming.sFile2Map ss
  = (fun indices : list nat => wrapperAt <$> indices) <$> m
  /\ Streaming.allFile2UniqueItems ss = VObj <$> pre2
  /\ Streaming.file2CurrentIndex ss = length pre2
  /\ Streaming.sMatched ss = []
  /\ Streaming.sInFile1Only ss = [].

End StreamedPairing.

(** ** Strings that differ only in letter case *)

(** [d] is [c] or its other case. *)
Definition sameLetter (c d : ascii) : Prop :=
  d = c \/ d = JsString.lowerChar c \/ d = JsString.upperChar c.

Inductive sameUpToCase : string -> string -> Prop :=
| sameUpToCase_nil : sameUpToCase "" ""
| sameUpToCase_cons c d s t :
    sameLetter c d -> sameUpToCase s t ->
    sameUpToCase (String c s) (String d t).

(** Two cell values that are equal, or strings that differ only in letter
    case. *)
Definition valueSameUpToCase (v w : value) : Prop :=
  match v, w with
  | VStr s, VStr t => sameUpToCase s t
  | _, _ => v = w
  end.

(** What a column of [item] contributes to the key under the default
    options: nothing when the value is [null] or [undefined], else
    [column:value] with the value as a string, lower-cased and trimmed. *)
Definition defaultKeyPart (item : Transaction) (key : string) : option string :=
  let v := Js.get item key in
  if Js.nullish v then None
  else Some (key +:+ ":" +:+ JsString.trim (JsString.toLowerCase (Js.toString v))).

(** ** What the array orchestrator logs before it validates the mappings *)

Definition arrayPreamble (sheet1 sheet2 : string) : list Event :=
  [ Progress "Reading file 1 data..." 5; ReadSheetData 1 sheet1;
    Progress "Reading file 2 data..." 30; ReadSheetData 2 sheet2;
    Progress "Validating column mappings..." 55 ].

(** A mapping that names a column missing from the headers of its file. *)
Definition missingColumn (headers1 headers2 : list string) (m : ColumnMapping) : Prop :=
  file1Column m ∉ headers1 \/ file2Column m ∉ headers2.

(** The message of a validation error: a column of some mapping, quoted, and
    the file it is missing from. *)
Definition columnNotFound (mappings : list ColumnMapping) (headers1 headers2 : list string)
    (suffix1 suffix2 : string) (message : string) : Prop :=
  exists m, m ∈ mappings
    /\ (((file1Column m ∉ headers1)
         /\ message = ("Column " +:+ quoted (file1Column m) +:+ " not found in File 1 " +:+ suffix1))
        \/ ((file2Column m ∉ headers2)
            /\ message = ("Column " +:+ quoted (file2Column m) +:+ " not found in File 2 " +:+ suffix2))).

(** ** What the second loop keeps true of the store *)

Section OwnedArrays.
Import Heap.
(** The store at the call. *)
Variable h0 : heap.

(** In the store [h], a reference to an object that was not in the store at
    the call and has the property [_matchedWith]. *)
Definition freshEntry (h : heap) (v : hvalue) : Prop :=
  exists l props item2,
    v = HRef l /\ (l ∉ dom h0)
    /\ h !! l = Some (CObject props)
    /\ (("_matchedWith", item2) ∈ props).

(** Between two items of the second loop: nothing of the store at the call
    has changed, the three arrays of the call are arrays outside that store,
    and the matched array holds references to objects outside it. *)
Definition ownsArrays (lm l1 l2 : loc) (acc : option (Locals * heap)) : Prop :=
  exists st h entries only1 working,
    acc = Some (st, h)
    /\ preserves h0 h
    /\ (locMatched st = lm /\ locInFile1Only st = l1 /\ locInFile2Only st = l2)
    /\ h !! lm = Some (CArray entries)
    /\ h !! l1 = Some (CArray only1)
    /\ h !! l2 = Some (CArray working)
    /\ Forall (freshEntry h) entries.

End OwnedArrays.

(** ** The run on the store against the specification's pairing *)

Section HeapPairing.
Variable mappings : list ColumnMapping.
(** The store at the call and the elements of the two input arrays. *)
Variable h0 : Heap.heap.
Variables elems1 elems2 : list Heap.hvalue.

(** The properties of the object an element refers to. *)
Definition propsOf (v : Heap.hvalue) : list (string * Heap.hvalue) :=
  match v with
  | Heap.HRef l =>
      match h0 !! l with
      | Some (Heap.CObject props) => props
      | _ => []
      end
  | _ => []
  end.

(** The datasets as key derivation sees them. *)
Definition rowsOf (elems : list Heap.hvalue) : list Transaction :=
  (fun v => Heap.shallowRow (propsOf v)) <$> elems.

Definition heapPairsUpTo (n : nat) : list (nat * nat) :=
  fifoPairsUpTo mappings (rowsOf elems1) (rowsOf elems2) n.

(** The working copy of [data2] once the positions [js] are taken. *)
Definition heapWorkingCopy (js : list nat) : list Heap.hvalue :=
  imap (fun j v => if bool_decide (j ∈ js) then Heap.HNull else v) elems2.

(** The elements of [data1] without a partner, among the first [n]. *)
Definition heapUnpairedUpTo (n : nat) : list Heap.hvalue :=
  omap (fun t => match fifoPartner mappings (rowsOf elems1) (rowsOf elems2) t with
                 | Some _ => None
                 | None => elems1 !! t
                 end) (seq 0 n).

(** The elements of [data2] that no pair has taken. *)
Definition heapUnclaimed (js : list nat) : list Heap.hvalue :=
  (filter (fun p => p.1 ∉ js) (imap (fun j v => (j, v)) elems2)).*2.

(** The object of a pair: the properties of the row of [data1], and
    [_matchedWith] referring to the row of [data2] itself. *)
Definition entryProps (p : nat * nat) : list (string * Heap.hvalue) :=
  Heap.hset (propsOf (nth p.1 elems1 Heap.HUndefined)) "_matchedWith"
    (nth p.2 elems2 Heap.HUndefined).

(** The run on the store and the run on values side by side, once [n] rows
    of [data1] are done. *)
Definition heapSim (lm l1 l2 : Heap.loc) (n : nat) (sp : CompareState)
    (acc : option (Heap.Locals * Heap.heap)) : Prop :=
  exists st h entries,
    acc = Some (st, h)
    /\ Heap.file2Map st = file2Map sp
    /\ h !! l2 = Some (Heap.CArray (heapWorkingCopy (heapPairsUpTo n).*2))
    /\ h !! l1 = Some (Heap.CArray (heapUnpairedUpTo n))
    /\ h !! lm = Some (Heap.CArray (Heap.HRef <$> entries))
    /\ Forall2 (fun le p => h !! le = Some (Heap.CObject (entryProps p)))
         entries (heapPairsUpTo n).

End HeapPairing.

(** ** A store and a run used as examples *)

(** Rows 0 and 1 form [data1] (at 10), rows 2 and 3 form [data2] (at 11). *)
Definition exampleStore : Heap.heap :=
  <[0 := Heap.CObject [("id", Heap.HStr "1"); ("n", Heap.HStr "a")]]>
  (<[1 := Heap.CObject [("id", Heap.HStr "1"); ("n", Heap.HStr "b")]]>
  (<[2 := Heap.CObject [("id", Heap.HStr "2")]]>
  (<[3 := Heap.CObject [("id", Heap.HStr "1"); ("n", Heap.HStr "x")]]>
  (<[10 := Heap.CArray [Heap.HRef 0; Heap.HRef 1]]>
  (<[11 := Heap.CArray [Heap.HRef 2; Heap.HRef 3]]> ∅))))).

Definition mappingOnId : ColumnMapping :=
  {| file1Column := "id"; file2Column := "id"; isExactMatch := true |}.

(** A mapping whose file-1 column, [constructor], no example sheet has. *)
Definition mappingOnConstructor : ColumnMapping :=
  {| file1Column := "constructor"; file2Column := "id"; isExactMatch := true |}.

(** ** The row key, part by part *)

(** A column that [createCompositeKeyFromAllColumns] looks at: its name does
    not start with an underscore. *)
Definition visibleColumn (k : string) : Prop := JsString.startsWith "_" k = false.

#[export] Instance visibleColumn_dec k : Decision (visibleColumn k).
Proof. unfold visibleColumn. apply _. Defined.

(** The visible columns of a row, in the order of the key. *)
Definition visibleColumns (props : Transaction) : list string :=
  filter visibleColumn (JsString.sort (Js.keys props)).

(** What a column contributes to the key: [column:value], the value as a
    trimmed string, [null] and [undefined] as the empty string. *)
Definition columnPart (props : Transaction) (k : string) : string :=
  let v := Js.get props k in
  k +:+ ":" +:+ JsString.trim (Js.toString (if Js.nullish v then VStr "" else v)).

(** A mapping read from the side of the other file. *)
Definition swapMapping (m : ColumnMapping) : ColumnMapping :=
  {| file1Column := file2Column m;
     file2Column := file1Column m;
     isExactMatch := isExactMatch m |}.

(** What a mapping contributes to the key of a row: the value of the mapped
    column as a string, lower-cased and trimmed when the mapping is not exact
    and the value is a string. *)
Definition mappedPart (item : Transaction) (isFile1 : bool) (m : ColumnMapping) : string :=
  let v := Js.get item (if isFile1 then file1Column m else file2Column m) in
  let v := if Js.nullish v then VStr "" else v in
  if negb (isExactMatch m) && Js.isString v
  then JsString.trim (JsString.toLowerCase (Js.toString v))
  else Js.toString v.

(** The result of a comparison in which row [a] of file 1 is paired with row
    [b] of file 2 and nothing is left over. *)
Definition onePair (a b : Transaction) : CompareResult :=
  {| resMatched := [Js.set a "_matchedWith" (VObj b)];
     resInFile1Only := [];
     resInFile2Only := [] |}.

(** ** Counting duplicate groups *)

(** The number of rows held by the groups of a group map. *)
Definition groupedRows (groups : list (string * list value)) : nat :=
  sum_list (length <$> groups.*2).

(** What the duplicate scan has established about its unique rows once the
    items [pre] have been visited. *)
Definition uniqueInv (keyOf : Transaction -> string) (pre : list Transaction)
    (st : DuplicateScan) : Prop :=
  NoDup (keyOf <$> uniqueItems st)
  /\ (forall k, k ∈ keyOf <$> uniqueItems st <-> is_Some (seen st !! k))
  /\ (forall u, u ∈ uniqueItems st -> head (rowsWithKey keyOf (keyOf u) pre) = Some u)
  /\ (forall d, d ∈ duplicates st -> is_Some (seen st !! keyOf d))
  /\ length (duplicates st) + length (duplicateGroups st)
     = groupedRows (duplicateGroups st)
  /\ (duplicates st = [] -> uniqueItems st = keyedRows keyOf pre).



(** ** The streaming scan beside the array scan *)

(** The scan of [findDuplicatesInFile] over [data] and the scan of
    [findDuplicatesInFileStream] side by side; [pending] is the unique rows
    of the chunk under way, not yet yielded.  The streaming scan remembers
    the first row of a key where the array scan remembers its position. *)
Definition scanSim (data : list Transaction) (sa : DuplicateScan)
    (ss : Streaming.StreamScan) (pending : list Transaction) : Prop :=
  (forall k, Streaming.seenRows ss !! k = seen sa !! k ≫= (fun i => data !! i))
  /\ Streaming.streamDuplicates ss = duplicates sa
  /\ Streaming.streamDuplicateGroups ss = duplicateGroups sa
  /\ concat (Streaming.uniqueChunks ss) ++ pending = uniqueItems sa.

(** ** The results record, from its parts *)

Definition resultsOf (mappings : list ColumnMapping) (sheet1 sheet2 : string)
    (total1 total2 : nat) (duplicates1 duplicates2 : list Transaction)
    (groups1 groups2 : list (string * list value)) (cmp : CompareResult)
  : ReconciliationResults :=
  {| rrMatched := resMatched cmp;
     rrInFile1Only := resInFile1Only cmp;
     rrInFile2Only := resInFile2Only cmp;
     rrDuplicatesInFile1 := duplicates1;
     rrDuplicatesInFile2 := duplicates2;
     rrDuplicateGroupsInFile1 := JsMap.values groups1;
     rrDuplicateGroupsInFile2 := JsMap.values groups2;
     rrColumnMappings := mappings;
     rrFile1SheetName := sheet1;
     rrFile2SheetName := sheet2;
     rrSummary :=
       {| totalInFile1 := total1;
          totalInFile2 := total2;
          sumMatched := length (resMatched cmp);
          sumInFile1Only := length (resInFile1Only cmp);
          sumInFile2Only := length (resInFile2Only cmp);
          sumDuplicatesInFile1 := length duplicates1;
          sumDuplicatesInFile2 := length duplicates2 |} |}.

(** ** Two small sheets, for examples *)

(** The chunks the data stream of a sheet yields: sheet [A] holds ids 1, 2,
    2, and sheet [B] ids 2, 3. *)
Definition exampleStream (file : unit) (sheet : string) : list (list Transaction) :=
  if String.eqb sheet "A"
  then [ [ [("id", VStr "1")]; [("id", VStr "2")] ]; [ [("id", VStr "2")] ] ]
  else [ [ [("id", VStr "2")] ]; [ [("id", VStr "3")] ] ].

Definition exampleSheetData (file : unit) (sheet : string) : string + list Transaction :=
  inr (concat (exampleStream file sheet)).

Definition exampleSheetColumns (file : unit) (sheet : string) : string + list string :=
  inr ["id"].

(** ** Rows as the exporter writes them *)



(** * Reading the sheets

    The spreadsheet library parses the file and gives access to the cells;
    what it returns is a parameter here.  A cell is addressed by its row and
    its column, both from 0, which is what [encode_cell] and [decode_range]
    translate to and from the [A1] notation. *)

(** A decoded range: start and end, rows and columns. *)
Record CellRange : Type := {
  s_r : Z; s_c : Z;
  e_r : Z; e_c : Z
}.

(** [decode_range("A1")] *)
Definition rangeA1 : CellRange := {| s_r := 0; s_c := 0; e_r := 0; e_c := 0 |}.

(** A parsed worksheet: its [!ref], decoded, if it has one, and the values
    of its cells. *)
Record ReadSheet : Type := {
  sheetRef : option CellRange;
  sheetCells : gmap (Z * Z) value
}.

(** A parsed workbook: [SheetNames] and [Sheets]. *)
Record ReadBook : Type := {
  SheetNames : list string;
  Sheets : gmap string ReadSheet
}.

(** What became of reading and parsing the file: the reader failed, it
    gave no data, [XLSX.read] threw, it returned something without
    [SheetNames], or it returned a workbook. *)
Inductive ReadOutcome : Type :=
| ReaderError (message : string)
| NoFileData
| ParseError (message : string)
| NoSheetNames
| Parsed (workbook : ReadBook).

(** ** [getSheetColumns] ([src/lib/file-service.ts]) *)

(** The loop over the first row of the range: the text of a cell, or
    [Column_N] for a column without a cell, [N] counting columns of the sheet
    from 1. *)
Definition headerRow (worksheet : ReadSheet) (range : CellRange) : list string :=
  (fun C =>
     match sheetCells worksheet !! (s_r range, C) with
     | Some v => Js.toString v
     | None => "Column_" +:+ pretty (C + 1)%Z
     end)
    <$> seqZ (s_c range) (e_c range - s_c range + 1).

(** The fall-back of [getSheetColumns]: the width of the first rows of the
    range, at most six of them, counted on the cells they have. *)
Definition maxColsOf (worksheet : ReadSheet) (range : CellRange) : Z :=
  foldl (fun maxCols R =>
           let colCount :=
             foldl (fun colCount C =>
                      match sheetCells worksheet !! (R, C) with
                      | Some _ => (C + 1)%Z
                      | None => colCount
                      end)
                   0%Z (seqZ (s_c range) (e_c range - s_c range + 1)) in
           Z.max maxCols colCount)
        0%Z
        (seqZ (s_r range) (Z.min (s_r range + 5) (e_r range) - s_r range + 1)).

Definition defaultHeadersOf (maxCols : Z) : list string :=
  (fun i => "Column_" +:+ pretty (i + 1)%Z) <$> seqZ 0 maxCols.

(** [getSheetColumns], from the callbacks of the file reader on.  The log
    holds the progress reports. *)
Definition getSheetColumns (read : ReadOutcome) (sheetName : string) : Run (list string) :=
  emit (Progress "Reading file..." 10);;
  match read with
  | ReaderError message => throw message
  | NoFileData =>
      emit (Progress "Processing workbook..." 30);;
      throw "Failed to read file data"
  | ParseError message =>
      emit (Progress "Processing workbook..." 30);;
      throw message
  | NoSheetNames =>
      emit (Progress "Processing workbook..." 30);;
      throw "Invalid workbook format"
  | Parsed workbook =>
      emit (Progress "Processing workbook..." 30);;
      emit (Progress "Locating sheet..." 50);;
      if negb (bool_decide (sheetName ∈ SheetNames workbook)) then
        throw ("Sheet " +:+ quoted sheetName +:+ " not found in workbook")
      else
        match Sheets workbook !! sheetName with
        | None => throw ("Sheet " +:+ quoted sheetName +:+ " is empty or invalid")
        | Some worksheet =>
            emit (Progress "Extracting columns..." 70);;
            let range := default rangeA1 (sheetRef worksheet) in
            if (e_r range <? 0)%Z then
              throw ("Sheet " +:+ quoted sheetName +:+ " is empty")
            else
              let headers := headerRow worksheet range in
              if decide (length headers = 0) then
                let defaultHeaders := defaultHeadersOf (maxColsOf worksheet range) in
                if decide (length defaultHeaders = 0) then
                  throw ("No data found in sheet " +:+ quoted sheetName)
                else
                  emit (Progress "Complete" 100);;
                  ret defaultHeaders
              else
                emit (Progress "Complete" 100);;
                ret headers
        end
  end.

(** ** The messages of the file-loader worker

    The worker answers a request with a sequence of messages. *)

Inductive RequestType : Type := LoadSheets | LoadColumns | LoadData.

(** The percentage of a progress report: a whole number, or the number
    [Math.min(60 + (processedRows / totalRows) * 35, 95)] that the data loop
    computes in floating point, kept as its two arguments. *)
Inductive Percent : Type :=
| Whole (n : Z)
| ChunkPercent (processedRows totalRows : nat).

Inductive WorkerMessage : Type :=
| MsgProgress (stage : string) (percent : Percent)
| MsgSheets (sheets : list string)
| MsgColumns (columns : list string)
| MsgDataChunk (data : list Transaction)
| MsgDataEnd
| MsgError (error : string) (originalType : option RequestType).

(** ** The worker that answers with whole results

    The earlier worker posts a result in one message of the type of the
    request, [status: "success"] with the result or [status: "error"] with
    the message of what was thrown.  Its progress reports for a
    [loadColumns] request are whole numbers. *)

Inductive WorkerResponse : Type :=
| RespProgress (stage : string) (percent : Z)
| RespColumns (columns : list string)
| RespColumnsError (error : string).

(** The worker's answer to a [loadColumns] request, given what [XLSX.read]
    did: the message of what it threw, or the workbook.  The last progress
    report goes out before the header row is looked at for emptiness. *)
Definition workerLoadColumns (parsed : string + ReadBook) (sheetName : string)
  : list WorkerResponse :=
  let failed (errorMessage : string) := [RespColumnsError errorMessage] in
  RespProgress "Reading file..." 10
  :: match parsed with
     | inl errorMessage => failed errorMessage
     | inr workbook =>
         if negb (JsString.truthy sheetName) then failed "Sheet name not provided"
         else
           RespProgress "Reading sheet structure..." 30
           :: (if negb (bool_decide (sheetName ∈ SheetNames workbook)) then
                 failed ("Sheet " +:+ quoted sheetName +:+ " not found in workbook")
               else
                 match Sheets workbook !! sheetName with
                 | None => failed ("Sheet " +:+ quoted sheetName +:+ " is empty or invalid")
                 | Some worksheet =>
                     RespProgress "Extracting column headers..." 60
                     :: (let range := default rangeA1 (sheetRef worksheet) in
                         if (e_r range <? 0)%Z then
                           failed ("Sheet " +:+ quoted sheetName +:+ " is empty")
                         else
                           let headers := headerRow worksheet range in
                           RespProgress "Processing complete" 100
                           :: (if decide (length headers = 0) then
                                 let headers :=
                                   headers ++ defaultHeadersOf (maxColsOf worksheet range) in
                                 if decide (length headers = 0) then
                                   failed ("No data found in sheet " +:+ quoted sheetName)
                                 else [RespColumns headers]
                               else [RespColumns headers]))
                 end)
     end.

(** ** [getSheetColumnsWithWorker]

    The listener reads the fields [type], [status], [originalType],
    [columns] and [error] of the data of a message; a field that the message
    does not have reads [undefined], here [None]. *)

Record MessageData : Type := {
  evType : string;
  evStatus : option string;
  evOriginalType : option string;
  evColumns : option (list string);
  evError : option string
}.

Definition requestTypeText (type : RequestType) : string :=
  match type with
  | LoadSheets => "loadSheets"
  | LoadColumns => "loadColumns"
  | LoadData => "loadData"
  end.

(** The data of the messages as the worker posts them: a progress report
    has [type], [stage] and [percent]; the sheets and the columns have
    [type], the list and [status: "success"]; a chunk has [type] and [data];
    an error has [type], [error] and [originalType]. *)
Definition messageData (message : WorkerMessage) : MessageData :=
  match message with
  | MsgProgress _ _ =>
      {| evType := "progress"; evStatus := None; evOriginalType := None;
         evColumns := None; evError := None |}
  | MsgSheets _ =>
      {| evType := "sheets"; evStatus := Some "success"; evOriginalType := None;
         evColumns := None; evError := None |}
  | MsgColumns columns =>
      {| evType := "columns"; evStatus := Some "success"; evOriginalType := None;
         evColumns := Some columns; evError := None |}
  | MsgDataChunk _ =>
      {| evType := "dataChunk"; evStatus := None; evOriginalType := None;
         evColumns := None; evError := None |}
  | MsgDataEnd =>
      {| evType := "dataEnd"; evStatus := None; evOriginalType := None;
         evColumns := None; evError := None |}
  | MsgError error originalType =>
      {| evType := "error"; evStatus := None;
         evOriginalType := requestTypeText <$> originalType;
         evColumns := None; evError := Some error |}
  end.

(** A promise: not settled, resolved or rejected. *)
Inductive Promise (A : Type) : Type :=
| Unsettled
| Resolved (a : A)
| Rejected (message : string).
Arguments Unsettled {A}.
Arguments Resolved {A} a.
Arguments Rejected {A} message.

(** [error || fallback] *)
Definition orElse (error : option string) (fallback : string) : string :=
  match error with
  | Some message => if JsString.truthy message then message else fallback
  | None => fallback
  end.

(** What the listener of [getSheetColumnsWithWorker] does to the promise at
    one message. *)
Definition columnsMessageListener (data : MessageData) : Promise (option (list string)) :=
  let isType (t : string) := String.eqb (evType data) t in
  let forLoadColumns := bool_decide (evOriginalType data = Some "loadColumns") in
  if negb forLoadColumns && negb (isType "progress") && negb (isType "error") then Unsettled
  else if isType "columns" && bool_decide (evStatus data = Some "success")
  then Resolved (evColumns data)
  else if isType "columns" && bool_decide (evStatus data = Some "error")
  then Rejected (orElse (evError data) "Failed to load columns from worker")
  else if isType "progress" && forLoadColumns then Unsettled
  else if isType "error" && forLoadColumns
  then Rejected (orElse (evError data) "Generic error from worker while loading columns")
  else Unsettled.

(** The promise of [getSheetColumnsWithWorker] after the messages [events];
    the listener is removed when it settles the promise. *)
Fixpoint getSheetColumnsWithWorker (events : list MessageData)
  : Promise (option (list string)) :=
  match events with
  | [] => Unsettled
  | data :: rest =>
      match columnsMessageListener data with
      | Unsettled => getSheetColumnsWithWorker rest
      | settled => settled
      end
  end.

(** * Splitting a large export ([splitLargeExport])

    [data] maps a sheet name to the rows of the sheet; it is taken as the
    list of its entries in the order [Object.entries] gives them.  A blob is
    the workbook that was written to it.  The progress reports are left
    out. *)

Definition MAX_ROWS_PER_SHEET : N := 100000.
Definition MAX_SHEETS_PER_WORKBOOK : nat := 10.

Record SplitState : Type := {
  splitResults : list (XLSX.WorkBook * string);
  currentFileIndex : nat;
  currentWorkbook : XLSX.WorkBook;
  currentSheetCount : nat
}.

(** [`${fileName}_part${currentFileIndex}.xlsx`] *)
Definition partFileName (fileName : string) (currentFileIndex : nat) : string :=
  fileName +:+ "_part" +:+ pretty currentFileIndex +:+ ".xlsx".

(** [`${sheetName} (${i + 1}/${chunks})`] *)
Definition chunkSheetName (sheetName : string) (i chunks : nat) : string :=
  sheetName +:+ " (" +:+ pretty (i + 1) +:+ "/" +:+ pretty chunks +:+ ")".

(** What is thrown inside [splitLargeExport]: the [TypeError] of
    [json_to_sheet] on a row that is [null] or [undefined], or the error of
    [book_append_sheet]. *)
Inductive SplitError : Type :=
| RowNotAnObject
| SheetRefused (cause : XLSX.Error).

(** What both branches of the loop do with a sheet: when the current
    workbook is full it is written out and a new one started; the rows, as
    they are, become a sheet, which is then appended to the current
    workbook.  [json_to_sheet] and [book_append_sheet] may throw, and
    nothing catches it. *)
Definition addSheet (fileName : string) (st : SplitState) (sheetData : list value)
    (name : string) : SplitError + SplitState :=
  let st :=
    if decide (MAX_SHEETS_PER_WORKBOOK <= currentSheetCount st) then
      {| splitResults := splitResults st
                         ++ [(currentWorkbook st, partFileName fileName (currentFileIndex st))];
         currentFileIndex := S (currentFileIndex st);
         currentWorkbook := XLSX.book_new;
         currentSheetCount := 0 |}
    else st in
  if existsb Js.nullish sheetData then inl RowNotAnObject
  else
    match XLSX.book_append_sheet (currentWorkbook st) (XLSX.json_to_sheet sheetData) name with
    | inl e => inl (SheetRefused e)
    | inr wb =>
        inr {| splitResults := splitResults st;
               currentFileIndex := currentFileIndex st;
               currentWorkbook := wb;
               currentSheetCount := S (currentSheetCount st) |}
    end.

(** The body of the loop over the entries of [data]. *)
Definition splitSheet (fileName : string) (st : SplitState)
    (entry : string * list value) : SplitError + SplitState :=
  let '(sheetName, sheetData) := entry in
  if decide (length sheetData = 0) then inr st
  else if decide (N.to_nat MAX_ROWS_PER_SHEET < length sheetData) then
    let chunks := ceilDiv (length sheetData) (N.to_nat MAX_ROWS_PER_SHEET) in
    foldl (fun (acc : SplitError + SplitState) (i : nat) =>
             match acc with
             | inl e => inl e
             | inr st =>
                 let start := i * N.to_nat MAX_ROWS_PER_SHEET in
                 let e := Nat.min (start + N.to_nat MAX_ROWS_PER_SHEET) (length sheetData) in
                 let chunkData := slice sheetData start e in
                 addSheet fileName st chunkData (chunkSheetName sheetName i chunks)
             end)
          (inr st) (seq 0 chunks)
  else addSheet fileName st sheetData sheetName.

(** [Object.values(data).reduce((sum, arr) => sum + arr.length, 0)] *)
Definition totalRowsOf (data : list (string * list value)) : nat :=
  foldl (fun sum entry => sum + length entry.2) 0 data.

Definition splitLargeExport (data : list (string * list value)) (fileName : string)
  : SplitError + list (XLSX.WorkBook * string) :=
  let totalRows := totalRowsOf data in
  if decide (totalRows <= N.to_nat MAX_ROWS_PER_SHEET /\ length data <= MAX_SHEETS_PER_WORKBOOK)
  then inr []
  else
    let final :=
      foldl (fun (acc : SplitError + SplitState) entry =>
               match acc with
               | inl e => inl e
               | inr st => splitSheet fileName st entry
               end)
            (inr {| splitResults := []; currentFileIndex := 1;
                    currentWorkbook := XLSX.book_new; currentSheetCount := 0 |})
            data in
    match final with
    | inl e => inl e
    | inr st =>
        inr (if decide (0 < currentSheetCount st)
             then splitResults st
                  ++ [(currentWorkbook st, partFileName fileName (currentFileIndex st))]
             else splitResults st)
    end.

(** The sheets of [data] that have rows, as [json_to_sheet] makes them. *)
Definition sheetsWithRows (data : list (string * list value))
  : list (string * list (list value)) :=
  (fun entry : string * list value => (entry.1, XLSX.json_to_sheet entry.2))
    <$> List.filter (fun entry : string * list value => negb (bool_decide (entry.2 = []))) data.

(** What holds of the loop's variables once the sheets [done] have been
    added: the written workbooks and the current one hold these sheets in
    order, a written workbook is full, and the files are numbered from 1. *)
Definition splitInv (fileName : string) (st : SplitState)
    (done : list (string * list (list value))) : Prop :=
  concat (splitResults st).*1 ++ currentWorkbook st = done
  /\ currentSheetCount st = length (currentWorkbook st)
  /\ currentSheetCount st <= MAX_SHEETS_PER_WORKBOOK
  /\ (currentSheetCount st = 0 -> splitResults st = [])
  /\ Forall (fun part : XLSX.WorkBook * string => length part.1 = MAX_SHEETS_PER_WORKBOOK)
            (splitResults st)
  /\ currentFileIndex st = S (length (splitResults st))
  /\ (splitResults st).*2 = partFileName fileName <$> seq 1 (length (splitResults st)).

(** Eleven sheets of one row each. *)
Definition exampleSheets : list (string * list value) :=
  (fun name : string => (name, [VObj [("id", VStr "1")]]))
    <$> ["S1"; "S2"; "S3"; "S4"; "S5"; "S6"; "S7"; "S8"; "S9"; "S10"; "S11"].

(** * The column mapper ([src/components/column-mapper.tsx])

    The component keeps a list of mappings.  Its controls call the handlers
    below: the two selects of a row offer the columns of the two files, the
    switch sets [isExactMatch], the bin of a row removes the row and is
    disabled while there is one row only, and [Save & Continue] is disabled
    unless [isValid]. *)

Section ColumnMapper.
Variables file1Columns file2Columns : list string.

Definition blankMapping : ColumnMapping :=
  {| file1Column := ""; file2Column := ""; isExactMatch := true |}.

(** The mappings once the effect on the columns has run. *)
Definition initialMappings : list ColumnMapping :=
  match file1Columns, file2Columns with
  | column1 :: _, column2 :: _ =>
      [{| file1Column := column1; file2Column := column2; isExactMatch := true |}]
  | column1 :: _, [] =>
      [{| file1Column := column1; file2Column := ""; isExactMatch := true |}]
  | [], column2 :: _ =>
      [{| file1Column := ""; file2Column := column2; isExactMatch := true |}]
  | [], [] => [blankMapping]
  end.

Definition addMapping (mappings : list ColumnMapping) : list ColumnMapping :=
  mappings ++ [blankMapping].

(** [newMappings.splice(index, 1)] *)
Definition removeMapping (index : nat) (mappings : list ColumnMapping)
  : list ColumnMapping :=
  delete index mappings.

(** The field that [updateMapping] sets, with its new value. *)
Inductive FieldUpdate : Type :=
| SetFile1Column (value : string)
| SetFile2Column (value : string)
| SetIsExactMatch (value : bool).

Definition updated (mapping : ColumnMapping) (update : FieldUpdate) : ColumnMapping :=
  match update with
  | SetFile1Column value =>
      {| file1Column := value; file2Column := file2Column mapping;
         isExactMatch := isExactMatch mapping |}
  | SetFile2Column value =>
      {| file1Column := file1Column mapping; file2Column := value;
         isExactMatch := isExactMatch mapping |}
  | SetIsExactMatch value =>
      {| file1Column := file1Column mapping; file2Column := file2Column mapping;
         isExactMatch := value |}
  end.

(** [updateMapping], for the index of a row; the controls call it with no
    other. *)
Definition updateMapping (index : nat) (update : FieldUpdate)
    (mappings : list ColumnMapping) : list ColumnMapping :=
  alter (fun mapping => updated mapping update) index mappings.

(** [m.file1Column && m.file2Column], as a condition *)
Definition complete (m : ColumnMapping) : bool :=
  JsString.truthy (file1Column m) && JsString.truthy (file2Column m).

(** What [handleSave] hands to [onSaveMapping]. *)
Definition handleSave (mappings : list ColumnMapping) : list ColumnMapping :=
  List.filter complete mappings.

Definition isValid (mappings : list ColumnMapping) : bool :=
  existsb complete mappings.

(** What the user can do with the controls that are rendered for
    [mappings], and the mappings after it. *)
Inductive mapperStep (mappings : list ColumnMapping) : list ColumnMapping -> Prop :=
| ClickAdd : mapperStep mappings (addMapping mappings)
| ClickRemove (index : nat) :
    index < length mappings -> length mappings <> 1 ->
    mapperStep mappings (removeMapping index mappings)
| SelectFile1Column (index : nat) (column : string) :
    index < length mappings -> column ∈ file1Columns ->
    mapperStep mappings (updateMapping index (SetFile1Column column) mappings)
| SelectFile2Column (index : nat) (column : string) :
    index < length mappings -> column ∈ file2Columns ->
    mapperStep mappings (updateMapping index (SetFile2Column column) mappings)
| SwitchExactMatch (index : nat) (checked : bool) :
    index < length mappings ->
    mapperStep mappings (updateMapping index (SetIsExactMatch checked) mappings).

(** The mappings the component can be brought to. *)
Inductive mapperState : list ColumnMapping -> Prop :=
| MapperInitial : mapperState initialMappings
| MapperStep (mappings mappings' : list ColumnMapping) :
    mapperState mappings -> mapperStep mappings mappings' -> mapperState mappings'.

(** A mapping names columns of the files, or none yet. *)
Definition offeredMapping (m : ColumnMapping) : Prop :=
  (file1Column m = "" \/ file1Column m ∈ file1Columns)
  /\ (file2Column m = "" \/ file2Column m ∈ file2Columns).

End ColumnMapper.

(** * The results view ([src/components/steps.tsx]) *)

(** [s.includes(t)] *)
Fixpoint includes (s t : string) : bool :=
  String.prefix t s
  || match s with
     | EmptyString => false
     | String _ s' => includes s' t
     end.

(** [String(value)], which can throw: an object with an own property
    [toString] has no function there (no cell and no row is one), and what it
    inherits as [valueOf] returns the object, so the conversion ends in a
    [TypeError]. *)
Definition stringOf (v : value) : option string :=
  match v with
  | VObj props => if Js.has props "toString" then None else Some (Js.toString v)
  | _ => Some (Js.toString v)
  end.

Inductive FilterError : Type :=
| CannotConvertObject.

(** [Object.values(item).some(...)]: the values in order, up to the first
    that is not [null] or [undefined] and whose text holds the term, both in
    lower case. *)
Fixpoint someValueHolds (searchTerm : string) (values : list value)
  : FilterError + bool :=
  match values with
  | [] => inr false
  | value :: rest =>
      if Js.nullish value then someValueHolds searchTerm rest
      else
        match stringOf value with
        | None => inl CannotConvertObject
        | Some text =>
            if includes (JsString.toLowerCase text) (JsString.toLowerCase searchTerm)
            then inr true
            else someValueHolds searchTerm rest
        end
  end.

(** [data.filter(...)]: a falsy row is left out, another is kept when one
    of its values holds the term. *)
Fixpoint filterRows (searchTerm : string) (data : list value) : FilterError + list value :=
  match data with
  | [] => inr []
  | item :: rest =>
      match (if negb (Js.truthy item) then inr false
             else someValueHolds searchTerm (XLSX.ownProps item).*2) with
      | inl e => inl e
      | inr keep =>
          match filterRows searchTerm rest with
          | inl e => inl e
          | inr kept => inr (if keep then item :: kept else kept)
          end
      end
  end.

(** [filterData]: without a search term the rows as they are. *)
Definition filterData (searchTerm : string) (data : list value) : FilterError + list value :=
  if negb (JsString.truthy searchTerm) then inr data
  else filterRows searchTerm data.

Definition PAGE_SIZE : nat := 50.

(** [Math.max(1, Math.ceil(filteredData.length / PAGE_SIZE))] *)
Definition totalPagesOf (filteredData : list value) : nat :=
  Nat.max 1 (ceilDiv (length filteredData) PAGE_SIZE).

(** The rows shown on page [currentPage]: [filteredData.slice(start, end)]
    with [start = (currentPage - 1) * PAGE_SIZE] and [end = start +
    PAGE_SIZE].  Pages count from 1; for page 0 the slice is that from 50
    before the end to 0, which is empty. *)
Definition paginatedDataOf (filteredData : list value) (currentPage : nat) : list value :=
  match currentPage with
  | 0 => []
  | S before =>
      let start := before * PAGE_SIZE in
      let e := start + PAGE_SIZE in
      slice filteredData start e
  end.

(** * The export entry points ([exportToExcel], [exportCategoryToExcel])

    [data] is the reconciliation result as the results view hands it over:
    each category an array of rows, each list of duplicate groups an array
    of arrays.  Its other fields go into the summary sheet only.  Progress
    reports are left out. *)

Module ExcelExport.

Record Data : Type := {
  matched : list value;
  inFile1Only : list value;
  inFile2Only : list value;
  duplicatesInFile1 : list value;
  duplicatesInFile2 : list value;
  duplicateGroupsInFile1 : list (list value);
  duplicateGroupsInFile2 : list (list value)
}.

Inductive ExportCategory : Type :=
| CatMatched
| CatInFile1Only
| CatInFile2Only
| CatDuplicatesInFile1
| CatDuplicatesInFile2
| CatFull.

(** The category as it is written into a message. *)
Definition categoryText (category : ExportCategory) : string :=
  match category with
  | CatMatched => "matched"
  | CatInFile1Only => "inFile1Only"
  | CatInFile2Only => "inFile2Only"
  | CatDuplicatesInFile1 => "duplicatesInFile1"
  | CatDuplicatesInFile2 => "duplicatesInFile2"
  | CatFull => "full"
  end.

Definition CATEGORY_NAMES (category : ExportCategory) : string :=
  match category with
  | CatMatched => "Matched_Transactions"
  | CatInFile1Only => "File1_Only_Transactions"
  | CatInFile2Only => "File2_Only_Transactions"
  | CatDuplicatesInFile1 => "File1_Duplicates"
  | CatDuplicatesInFile2 => "File2_Duplicates"
  | CatFull => "Full_Report"
  end.

(** [500 * 1024 * 1024] *)
Definition MAX_BLOB_SIZE : N := 524288000.

(** What was thrown, where the result reports it. *)
Inductive Thrown : Type :=
| BySheet (e : ExportError)
| ByLibrary (e : XLSX.Error)
| ByWrite (message : string)
| DatasetTooLarge (estimatedSize : N)
| FileTooLarge (byteLength : N).

(** [{ success: true, url, fileName }], the URL standing for the workbook
    that was written, or [{ success: false, error, errorDetails }], with
    [error] up to the message of what was thrown. *)
Inductive ExportResult : Type :=
| Exported (workbook : XLSX.WorkBook) (fileName : string)
| ExportFailed (error : string) (thrown : Thrown).

Section ExportEntry.
Variable jsonLength : value -> N.
Variable toLocaleString : N -> string.
(** [estimateDataSize(data)], which adds up lengths of [JSON.stringify]. *)
Variable estimateDataSize : Data -> N.
(** The rows of [createSummarySheet(data)] and of
    [createCategorySummarySheet(data, category)], which hold the date. *)
Variable createSummarySheet : Data -> list (list value).
Variable createCategorySummarySheet : Data -> ExportCategory -> list (list value).
(** [safelyWriteWorkbook]: the message of what the library threw, or the
    length of the file in bytes. *)
Variable safelyWriteWorkbook : XLSX.WorkBook -> string + N.
(** [formatDate(new Date())] *)
Variable formattedNow : string.

(** A category of the full report: a sheet is added when there are rows, and
    a failure to add it ends the export. *)
Definition categorySheet (wb : XLSX.WorkBook) (sheetName error : string)
    (rows : list value) : ExportResult + XLSX.WorkBook :=
  if decide (0 < length rows) then
    match processSheetData jsonLength toLocaleString wb sheetName rows with
    | inl e => inl (ExportFailed error (BySheet e))
    | inr wb' => inr wb'
    end
  else inr wb.

(** The duplicate groups: flattened, falsy rows dropped; a failure to add
    the sheet is logged and the export goes on. *)
Definition groupsSheet (wb : XLSX.WorkBook) (sheetName : string)
    (groups : list (list value)) : XLSX.WorkBook :=
  if decide (0 < length groups) then
    let flattenedGroups := List.filter Js.truthy (concat groups) in
    if decide (0 < length flattenedGroups) then
      match processSheetData jsonLength toLocaleString wb sheetName flattenedGroups with
      | inl _ => wb
      | inr wb' => wb'
      end
    else wb
  else wb.

(** Writing the workbook and offering it under [name]. *)
Definition generateFile (wb : XLSX.WorkBook) (name error : string) : ExportResult :=
  match safelyWriteWorkbook wb with
  | inl message => ExportFailed error (ByWrite message)
  | inr byteLength =>
      if (MAX_BLOB_SIZE <? byteLength)%N then ExportFailed error (FileTooLarge byteLength)
      else Exported wb name
  end.

Definition andThen (step : ExportResult + XLSX.WorkBook)
    (rest : XLSX.WorkBook -> ExportResult) : ExportResult :=
  match step with
  | inl failed => failed
  | inr wb => rest wb
  end.

(** The workbook of the full report, before it is written. *)
Definition fullReport (data : Data) : ExportResult + XLSX.WorkBook :=
  match XLSX.book_append_sheet XLSX.book_new
          (XLSX.aoa_to_sheet (createSummarySheet data)) "Summary" with
  | inl e => inl (ExportFailed "Failed to create summary sheet" (ByLibrary e))
  | inr wb =>
      match categorySheet wb "Matched" "Failed to process matched data" (matched data) with
      | inl failed => inl failed
      | inr wb =>
      match categorySheet wb "In File 1 Only" "Failed to process File 1 data"
              (inFile1Only data) with
      | inl failed => inl failed
      | inr wb =>
      match categorySheet wb "In File 2 Only" "Failed to process File 2 data"
              (inFile2Only data) with
      | inl failed => inl failed
      | inr wb =>
      match categorySheet wb "Duplicates in File 1" "Failed to process duplicates in File 1"
              (duplicatesInFile1 data) with
      | inl failed => inl failed
      | inr wb =>
      match categorySheet wb "Duplicates in File 2" "Failed to process duplicates in File 2"
              (duplicatesInFile2 data) with
      | inl failed => inl failed
      | inr wb =>
          let wb := groupsSheet wb "Duplicate Groups File 1" (duplicateGroupsInFile1 data) in
          let wb := groupsSheet wb "Duplicate Groups File 2" (duplicateGroupsInFile2 data) in
          inr wb
      end end end end end
  end.

Definition exportToExcel (data : Data) (fileName : string) : ExportResult :=
  let estimatedSize := estimateDataSize data in
  if (MAX_BLOB_SIZE <? estimatedSize)%N
  then ExportFailed "Export failed" (DatasetTooLarge estimatedSize)
  else
    andThen (fullReport data) (fun wb =>
      generateFile wb (fileName +:+ "_" +:+ formattedNow +:+ ".xlsx")
        "Failed to generate Excel file").

(** The rows and the sheet name of a category, and the workbook once the
    duplicate groups of the category, if it has any, are in. *)
Definition categoryData (data : Data) (category : ExportCategory) (wb : XLSX.WorkBook)
  : list value * string * XLSX.WorkBook :=
  match category with
  | CatMatched => (List.filter Js.truthy (matched data), "Matched Transactions", wb)
  | CatInFile1Only => (List.filter Js.truthy (inFile1Only data), "File 1 Only", wb)
  | CatInFile2Only => (List.filter Js.truthy (inFile2Only data), "File 2 Only", wb)
  | CatDuplicatesInFile1 =>
      (List.filter Js.truthy (duplicatesInFile1 data), "Duplicates in File 1",
       groupsSheet wb "Duplicate Groups" (duplicateGroupsInFile1 data))
  | CatDuplicatesInFile2 =>
      (List.filter Js.truthy (duplicatesInFile2 data), "Duplicates in File 2",
       groupsSheet wb "Duplicate Groups" (duplicateGroupsInFile2 data))
  | CatFull => ([], "Data", wb)
  end.

(** The sheets of a category export after the summary sheet: the rows of
    the category, or a note when it has none. *)
Definition categorySheets (data : Data) (category : ExportCategory) (wb : XLSX.WorkBook)
  : ExportResult + XLSX.WorkBook :=
  let '(rows, sheetName, wb) := categoryData data category wb in
  if decide (0 < length rows) then
    match processSheetData jsonLength toLocaleString wb sheetName rows with
    | inl e =>
        inl (ExportFailed ("Failed to process " +:+ categoryText category +:+ " data: ")
               (BySheet e))
    | inr wb' => inr wb'
    end
  else
    match XLSX.book_append_sheet wb
            (XLSX.aoa_to_sheet [[VStr "No data available for this category"]])
            sheetName with
    | inl e => inl (ExportFailed "Export failed: " (ByLibrary e))
    | inr wb' => inr wb'
    end.

Definition exportCategoryToExcel (data : Data) (category : ExportCategory)
    (fileName : string) : ExportResult :=
  match XLSX.book_append_sheet XLSX.book_new
          (XLSX.aoa_to_sheet (createCategorySummarySheet data category)) "Summary" with
  | inl e => ExportFailed "Failed to create summary sheet" (ByLibrary e)
  | inr wb =>
      match category with
      | CatFull => exportToExcel data fileName
      | _ =>
          andThen (categorySheets data category wb) (fun wb =>
            generateFile wb
              (fileName +:+ "_" +:+ CATEGORY_NAMES category +:+ "_" +:+ formattedNow
               +:+ ".xlsx")
              "Failed to generate Excel file: ")
      end
  end.

End ExportEntry.

(** The sheets of the full report that have rows, by name. *)
Definition fullReportSheets (data : Data) : list (string * list value) :=
  [ ("Matched", matched data);
    ("In File 1 Only", inFile1Only data);
    ("In File 2 Only", inFile2Only data);
    ("Duplicates in File 1", duplicatesInFile1 data);
    ("Duplicates in File 2", duplicatesInFile2 data);
    ("Duplicate Groups File 1", concat (duplicateGroupsInFile1 data));
    ("Duplicate Groups File 2", concat (duplicateGroupsInFile2 data)) ].

(** Every row of every category and group is an object. *)
Definition objectRows (data : Data) : Prop :=
  Forall (fun sheet : string * list value =>
            Forall (fun row => Js.isObject row = true) sheet.2)
         (fullReportSheets data).

(** The rows of a category, its duplicate groups, if it has any, and the
    name of its sheet. *)
Definition categoryRows (data : Data) (category : ExportCategory) : list value :=
  match category with
  | CatMatched => matched data
  | CatInFile1Only => inFile1Only data
  | CatInFile2Only => inFile2Only data
  | CatDuplicatesInFile1 => duplicatesInFile1 data
  | CatDuplicatesInFile2 => duplicatesInFile2 data
  | CatFull => []
  end.

Definition categoryGroups (data : Data) (category : ExportCategory) : list (list value) :=
  match category with
  | CatDuplicatesInFile1 => duplicateGroupsInFile1 data
  | CatDuplicatesInFile2 => duplicateGroupsInFile2 data
  | _ => []
  end.

Definition categorySheetName (category : ExportCategory) : string :=
  match category with
  | CatMatched => "Matched Transactions"
  | CatInFile1Only => "File 1 Only"
  | CatInFile2Only => "File 2 Only"
  | CatDuplicatesInFile1 => "Duplicates in File 1"
  | CatDuplicatesInFile2 => "Duplicates in File 2"
  | CatFull => "Data"
  end.

End ExcelExport.

(** The names of the sheets that have rows. *)
Definition namesWithRows (sheets : list (string * list value)) : list string :=
  (List.filter (fun sheet : string * list value => negb (bool_decide (sheet.2 = [])))
     sheets).*1.

(** A small reconciliation result: one matched row, one row of file 2 left
    over, and nothing else. *)
Definition exampleExportData : ExcelExport.Data :=
  {| ExcelExport.matched :=
       [VObj [("id", VStr "1"); ("_matchedWith", VObj [("id", VStr "1")])]];
     ExcelExport.inFile1Only := [];
     ExcelExport.inFile2Only := [VObj [("id", VStr "3")]];
     ExcelExport.duplicatesInFile1 := [];
     ExcelExport.duplicatesInFile2 := [];
     ExcelExport.duplicateGroupsInFile1 := [];
     ExcelExport.duplicateGroupsInFile2 := [] |}.
(** * Properties *)

(** ** Sanity checks of the key functions *)

Example key_all_columns :
  createCompositeKeyFromAllColumns
    (VObj [("b", VStr " x "); ("_m", VNum 1); ("a", VNull); ("A", VNum (-3))])
  = "A:-3|a:|b:x".
Proof. vm_compute. reflexivity. Qed.

Example key_mapping_fuzzy :
  createCompositeKey [("A", VStr "Foo ")]
    [{| file1Column := "A"; file2Column := "A"; isExactMatch := false |}] true
  = "foo".
Proof. vm_compute. reflexivity. Qed.

Example key_mapping_exact :
  createCompositeKey [("A", VStr "Foo ")]
    [{| file1Column := "A"; file2Column := "A"; isExactMatch := true |}] true
  = "Foo ".
Proof. vm_compute. reflexivity. Qed.

(** ** The chunked loop visits the items one by one *)

Section ChunkLoopFacts.
Context {St A : Type}.
Variable body : St -> nat -> A -> St.

Lemma forChunk_forEachFrom chunk i j st :
  forChunk body chunk i j st = forEachFrom body chunk (i + j) st.
Proof.
  revert j st. induction chunk as [|x chunk IH]; intros j st; simpl; [done|].
  rewrite IH. f_equal. lia.
Qed.

Lemma forEachFrom_app l1 l2 idx st :
  forEachFrom body (l1 ++ l2) idx st
  = forEachFrom body l2 (idx + length l1) (forEachFrom body l1 idx st).
Proof.
  revert idx st. induction l1 as [|x l1 IH]; intros idx st; simpl.
  - by rewrite Nat.add_0_r.
  - rewrite IH. f_equal. lia.
Qed.

Lemma forChunks_flat fuel data chunkSize i st :
  0 < chunkSize ->
  length data - i <= fuel ->
  forChunks body fuel data chunkSize i st = forEachFrom body (drop i data) i st.
Proof.
  intros Hpos. revert i st.
  induction fuel as [|fuel IH]; intros i st Hfuel; simpl.
  - rewrite drop_ge by lia. done.
  - destruct (decide (i < length data)) as [Hlt|Hge].
    + rewrite IH by lia.
      rewrite forChunk_forEachFrom, Nat.add_0_r.
      unfold slice.
      set (n := Nat.min (i + chunkSize) (length data) - i).
      rewrite <- (take_drop n (drop i data)) at 2.
      rewrite forEachFrom_app.
      rewrite length_take, length_drop, drop_drop.
      destruct (decide (i + chunkSize <= length data)) as [Hin|Hout].
      * replace n with chunkSize by (unfold n; lia).
        by replace (i + chunkSize `min` (length data - i)) with (i + chunkSize) by lia.
      * rewrite (drop_ge data (i + chunkSize)) by lia.
        rewrite (drop_ge data (i + n)) by (unfold n; lia).
        done.
    + rewrite drop_ge by lia. done.
Qed.

Lemma forEachChunk_flat data chunkSize st :
  0 < chunkSize ->
  forEachChunk body data chunkSize st = forEachFrom body data 0 st.
Proof.
  intros Hpos. unfold forEachChunk.
  rewrite forChunks_flat by lia. by rewrite drop_0.
Qed.

(** The invariant rule of the flat loop: [P] relates the items visited so far
    to the state. *)
Lemma forEachFrom_invariant (P : list A -> St -> Prop) data st0 :
  P [] st0 ->
  (forall pre x suf st,
      data = pre ++ x :: suf -> P pre st ->
      P (pre ++ [x]) (body st (length pre) x)) ->
  P data (forEachFrom body data 0 st0).
Proof.
  intros H0 Hstep.
  assert (Hgen : forall rest pre st,
             data = pre ++ rest -> P pre st ->
             P data (forEachFrom body rest (length pre) st)).
  { induction rest as [|x rest IH]; intros pre st Heq HP; simpl.
    - rewrite app_nil_r in Heq. by subst.
    - specialize (IH (pre ++ [x]) (body st (length pre) x)).
      rewrite length_app in IH. simpl in IH.
      replace (length pre + 1) with (S (length pre)) in IH by lia.
      apply IH.
      + by rewrite <- app_assoc.
      + by eapply Hstep. }
  by apply (Hgen data [] st0).
Qed.

End ChunkLoopFacts.

(** ** Facts about [JsMap] *)

Module JsMapFacts.
Import JsMap.
Section Facts.
Context {V : Type}.
Implicit Types m : list (string * V).

Lemma get_set_eq m k v : get (set m k v) k = Some v.
Proof.
  induction m as [|[k' v'] m IH]; simpl.
  - by rewrite String.eqb_refl.
  - destruct (String.eqb k' k) eqn:E; simpl; rewrite E; [done|apply IH].
Qed.

Lemma get_set_ne m k k' v : k <> k' -> get (set m k v) k' = get m k'.
Proof.
  intros Hne. induction m as [|[k0 v0] m IH]; simpl.
  - destruct (String.eqb k k') eqn:E; [|done].
    apply String.eqb_eq in E. done.
  - destruct (String.eqb k0 k) eqn:E; simpl.
    + apply String.eqb_eq in E. subst k0.
      destruct (String.eqb k k') eqn:E'; [|done].
      apply String.eqb_eq in E'. done.
    + by rewrite IH.
Qed.

Lemma keys_set m k v :
  (set m k v).*1 = if has m k then m.*1 else m.*1 ++ [k].
Proof.
  unfold has. induction m as [|[k0 v0] m IH]; csimpl; [done|].
  destruct (String.eqb k0 k) eqn:E; csimpl; [done|].
  rewrite IH. by destruct (get m k).
Qed.

Lemma get_None_keys m k : get m k = None <-> k ∉ m.*1.
Proof.
  induction m as [|[k0 v0] m IH]; simpl.
  - split; [intros _; apply not_elem_of_nil|done].
  - destruct (String.eqb k0 k) eqn:E.
    + apply String.eqb_eq in E. subst. split; [done|].
      intros H. exfalso. apply H. left.
    + apply String.eqb_neq in E. rewrite IH, not_elem_of_cons.
      split; [intros Hn; split; [congruence|done]|by intros [_ Hn]].
Qed.

Lemma elem_of_get m k v : NoDup m.*1 -> (k, v) ∈ m -> get m k = Some v.
Proof.
  induction m as [|[k0 v0] m IH]; simpl; intros Hnd Hin.
  - by apply elem_of_nil in Hin.
  - apply NoDup_cons in Hnd as [Hk0 Hnd].
    apply elem_of_cons in Hin as [Heq|Hin].
    + inversion Heq; subst. by rewrite String.eqb_refl.
    + destruct (String.eqb k0 k) eqn:E.
      * apply String.eqb_eq in E. subst k0. exfalso. apply Hk0.
        apply list_elem_of_fmap. by exists (k, v).
      * by apply IH.
Qed.

Lemma NoDup_keys_set m k v : NoDup m.*1 -> NoDup (set m k v).*1.
Proof.
  intros Hnd. rewrite keys_set. unfold has.
  destruct (get m k) eqn:E; [done|].
  apply NoDup_app. split_and!; [done| |apply NoDup_singleton].
  intros x Hx Hx'. apply list_elem_of_singleton in Hx'. subst x.
  by apply get_None_keys in E.
Qed.

End Facts.
End JsMapFacts.

(** ** Duplicate detection *)

Example scenario_duplicate_detection :
  let r := findDuplicatesInFile [[("a", VStr "x")]; [("a", VStr "x")]; [("a", VStr "y")]] in
  uniqueItems r = [[("a", VStr "x")]; [("a", VStr "y")]]
  /\ duplicates r = [[("a", VStr "x")]]
  /\ JsMap.values (duplicateGroups r) = [[VObj [("a", VStr "x")]; VObj [("a", VStr "x")]]].
Proof. vm_compute. done. Qed.

Section DuplicateScanFacts.
Variable keyOf : Transaction -> string.
Variable data : list Transaction.

Lemma truthy_true k : JsString.truthy k = true <-> k <> "".
Proof. destruct k; simpl; split; congruence. Qed.

Lemma rowsWithKey_snoc k pre x :
  rowsWithKey keyOf k (pre ++ [x])
  = rowsWithKey keyOf k pre ++ (if decide (keyOf x = k) then [x] else []).
Proof.
  unfold rowsWithKey. by rewrite filter_app.
Qed.

Lemma groupsInv_init : groupsInv keyOf [] emptyScan.
Proof.
  unfold groupsInv, emptyScan; simpl. split_and!; try done.
  - apply NoDup_nil_2.
  - intros k. by rewrite andb_false_r.
Qed.

Lemma groupsInv_step pre x suf st :
  data = pre ++ x :: suf ->
  groupsInv keyOf pre st ->
  groupsInv keyOf (pre ++ [x]) (scanItem keyOf data st (length pre) x).
Proof.
  intros Hdata (Hfalsy & Hnone & Hsome & Hnd & Hgroups).
  unfold scanItem.
  destruct (JsString.truthy (keyOf x)) eqn:Hkx.
  2:{ (* no key: the state is unchanged and the row is in no group *)
    assert (Hsame : forall k, JsString.truthy k = true ->
               rowsWithKey keyOf k (pre ++ [x]) = rowsWithKey keyOf k pre).
    { intros k Hk. rewrite rowsWithKey_snoc.
      destruct (decide _) as [Heq|]; [congruence|by rewrite app_nil_r]. }
    split_and!; try done.
    - intros k Hk Hs. rewrite Hsame by done. by apply Hnone.
    - intros k i Hs. destruct (Hsome k i Hs) as (y & Hy & Hhd).
      exists y. split; [by apply lookup_app_l_Some|].
      rewrite rowsWithKey_snoc. destruct (rowsWithKey keyOf k pre); [done|].
      done.
    - intros k. rewrite Hgroups. destruct (JsString.truthy k) eqn:Hk; [|done].
      by rewrite Hsame. }
  destruct (seen st !! keyOf x) as [originalIndex|] eqn:Hseen; simpl.
  - (* a duplicate of the row at [originalIndex] *)
    destruct (Hsome _ _ Hseen) as (y & Hy & Hhd).
    assert (Horig : Js.at_ (VObj <$> data) originalIndex = VObj y).
    { unfold Js.at_. apply nth_lookup_Some with (d := VUndefined).
      rewrite list_lookup_fmap, Hdata, (lookup_app_l_Some _ _ _ _ Hy). done. }
    split_and!; try done.
    + intros k Hk Hs; simpl in Hs. rewrite rowsWithKey_snoc.
      rewrite (Hnone k Hk Hs). destruct (decide _) as [<-|]; [congruence|done].
    + intros k i Hs; simpl in Hs. destruct (Hsome k i Hs) as (z & Hz & Hhdz).
      exists z. split; [by apply lookup_app_l_Some|].
      rewrite rowsWithKey_snoc. by destruct (rowsWithKey keyOf k pre).
    + destruct (JsMap.get _ _); by apply JsMapFacts.NoDup_keys_set.
    + intros k. rewrite rowsWithKey_snoc.
      destruct (decide (keyOf x = k)) as [<-|Hne].
      * rewrite Hkx. simpl.
        rewrite bool_decide_eq_true_2.
        2:{ rewrite length_app. simpl.
            destruct (rowsWithKey keyOf (keyOf x) pre); [done|simpl; lia]. }
        rewrite Hgroups, Hkx. simpl.
        case_bool_decide as Hlen.
        -- rewrite JsMapFacts.get_set_eq. by rewrite fmap_app.
        -- rewrite JsMapFacts.get_set_eq. rewrite Horig.
           destruct (rowsWithKey keyOf (keyOf x) pre) as [|y' [|y'' r]] eqn:Hr;
             simpl in *; [done| |lia].
           by inversion Hhd; subst.
      * rewrite app_nil_r. simpl.
        destruct (JsMap.get (duplicateGroups st) (keyOf x));
          by rewrite JsMapFacts.get_set_ne.
  - (* the first row with this key *)
    split_and!; try done.
    + intros k Hk; simpl. rewrite lookup_insert_ne; [by apply Hfalsy|congruence].
    + intros k Hk Hs; simpl in Hs. rewrite rowsWithKey_snoc.
      destruct (decide (keyOf x = k)) as [<-|Hne].
      * by rewrite lookup_insert_eq in Hs.
      * rewrite lookup_insert_ne in Hs by done.
        by rewrite (Hnone k Hk Hs).
    + intros k i Hs; simpl in Hs. rewrite rowsWithKey_snoc.
      destruct (decide (keyOf x = k)) as [<-|Hne].
      * rewrite lookup_insert_eq in Hs. inversion Hs; subst i.
        exists x. split; [by rewrite list_lookup_middle|].
        by rewrite (Hnone _ Hkx Hseen).
      * rewrite lookup_insert_ne in Hs by done.
        destruct (Hsome k i Hs) as (z & Hz & Hhdz).
        exists z. split; [by apply lookup_app_l_Some|by rewrite app_nil_r].
    + intros k; simpl. rewrite rowsWithKey_snoc, Hgroups.
      destruct (decide (keyOf x = k)) as [<-|Hne]; [|by rewrite app_nil_r].
      rewrite (Hnone _ Hkx Hseen). simpl. by rewrite Hkx.
Qed.

Lemma groupsInv_scan chunkSize :
  0 < chunkSize ->
  groupsInv keyOf data (scanChunked keyOf data chunkSize).
Proof.
  intros Hpos. unfold scanChunked. rewrite forEachChunk_flat by done.
  apply (forEachFrom_invariant _ (groupsInv keyOf)).
  - apply groupsInv_init.
  - intros pre x suf st Hdata Hinv. by eapply groupsInv_step.
Qed.

Lemma partitionInv_step pre x st idx :
  partitionInv keyOf pre st ->
  partitionInv keyOf (pre ++ [x]) (scanItem keyOf data st idx x).
Proof.
  intros (Hperm & Hsub1 & Hsub2).
  unfold partitionInv, keyedRows, scanItem in *.
  rewrite filter_app, filter_cons, filter_nil.
  destruct (JsString.truthy (keyOf x)) eqn:Hkx.
  - rewrite decide_True by done.
    destruct (seen st !! keyOf x); simpl; split_and!.
    + by rewrite app_assoc, Hperm.
    + by apply sublist_inserts_r.
    + by apply sublist_app.
    + rewrite <- Hperm. rewrite <- !app_assoc.
      apply Permutation_app_head, Permutation_app_comm.
    + by apply sublist_app.
    + by apply sublist_inserts_r.
  - rewrite decide_False by congruence. rewrite app_nil_r.
    split_and!; [done|by apply sublist_inserts_r..].
Qed.

Lemma partitionInv_scan chunkSize :
  0 < chunkSize ->
  partitionInv keyOf data (scanChunked keyOf data chunkSize).
Proof.
  intros Hpos. unfold scanChunked. rewrite forEachChunk_flat by done.
  apply (forEachFrom_invariant _ (partitionInv keyOf)).
  - unfold partitionInv, keyedRows. simpl. by rewrite filter_nil.
  - intros pre x suf st _ Hinv. by apply partitionInv_step.
Qed.

(** The first row of [rowsWithKey k l] is the first row of [l] with key
    [k]. *)
Lemma head_rowsWithKey k l y :
  head (rowsWithKey keyOf k l) = Some y ->
  exists i, l !! i = Some y /\ keyOf y = k
            /\ forall j z, j < i -> l !! j = Some z -> keyOf z <> k.
Proof.
  unfold rowsWithKey. induction l as [|x l IH]; [done|].
  rewrite filter_cons. destruct (decide (keyOf x = k)) as [Hx|Hx]; simpl.
  - intros [= ->]. exists 0. split_and!; [done..|]. intros; lia.
  - intros Hhd. destruct (IH Hhd) as (i & Hi & Hk & Hfirst).
    exists (S i). split_and!; [done..|].
    intros [|j] z Hj Hz; simpl in Hz; [by inversion Hz; subst|].
    apply (Hfirst j); [lia|done].
Qed.

End DuplicateScanFacts.

(** ** Positions of the rows with a given key *)

Section PositionsFacts.
Variable keyOf : Transaction -> string.

Lemma positionsFrom_app k l1 l2 i :
  positionsFrom keyOf k (l1 ++ l2) i
  = positionsFrom keyOf k l1 i ++ positionsFrom keyOf k l2 (i + length l1).
Proof.
  revert i. induction l1 as [|x l1 IH]; intros i; simpl.
  - by rewrite Nat.add_0_r.
  - rewrite IH. replace (S i + length l1) with (i + S (length l1)) by lia.
    by destruct (decide _).
Qed.

Lemma positions_snoc k l x :
  positions keyOf k (l ++ [x])
  = positions keyOf k l ++ (if decide (keyOf x = k) then [length l] else []).
Proof. unfold positions. by rewrite positionsFrom_app. Qed.

Lemma elem_of_positionsFrom k l i j :
  j ∈ positionsFrom keyOf k l i
  <-> i <= j /\ exists y, l !! (j - i) = Some y /\ keyOf y = k.
Proof.
  revert i. induction l as [|x l IH]; intros i; simpl.
  - split; [intros H; by apply elem_of_nil in H|by intros (_ & y & ? & _)].
  - assert (Htail : j ∈ positionsFrom keyOf k l (S i)
                    <-> S i <= j /\ exists y, (x :: l) !! (j - i) = Some y /\ keyOf y = k).
    { rewrite IH. split.
      - intros (Hle & y & Hy & Hk). split; [done|]. exists y. split; [|done].
        replace (j - i) with (S (j - S i)) by lia. done.
      - intros (Hle & y & Hy & Hk). split; [done|]. exists y. split; [|done].
        replace (j - i) with (S (j - S i)) in Hy by lia. done. }
    destruct (decide (keyOf x = k)) as [Hx|Hx].
    + rewrite elem_of_cons, Htail. split.
      * intros [->|(Hle & Hy)]; [|split; [lia|done]].
        split; [done|]. exists x. by rewrite Nat.sub_diag.
      * intros (Hle & y & Hy & Hk).
        destruct (decide (j = i)) as [->|Hne]; [by left|right].
        split; [lia|]. by exists y.
    + rewrite Htail. split.
      * intros (Hle & Hy); split; [lia|done].
      * intros (Hle & y & Hy & Hk).
        destruct (decide (j = i)) as [->|Hne].
        -- rewrite Nat.sub_diag in Hy. simpl in Hy. congruence.
        -- split; [lia|]. by exists y.
Qed.

Lemma elem_of_positions k l j :
  j ∈ positions keyOf k l <-> exists y, l !! j = Some y /\ keyOf y = k.
Proof.
  unfold positions. rewrite elem_of_positionsFrom, Nat.sub_0_r.
  split; [by intros [_ H]|intros H; split; [lia|done]].
Qed.

Lemma NoDup_positionsFrom k l i : NoDup (positionsFrom keyOf k l i).
Proof.
  revert i. induction l as [|x l IH]; intros i; simpl; [apply NoDup_nil_2|].
  destruct (decide _); [|apply IH].
  apply NoDup_cons. split; [|apply IH].
  rewrite elem_of_positionsFrom. lia.
Qed.

Lemma NoDup_positions k l : NoDup (positions keyOf k l).
Proof. apply NoDup_positionsFrom. Qed.

Lemma length_positionsFrom k l i :
  length (positionsFrom keyOf k l i) = length (rowsWithKey keyOf k l).
Proof.
  unfold rowsWithKey. revert i. induction l as [|x l IH]; intros i; simpl; [done|].
  rewrite filter_cons. destruct (decide _); simpl; by rewrite IH.
Qed.

(** The row at position [t], with key [k], is the [i]-th row with key [k]
    for [i] the number of earlier rows with key [k]. *)
Lemma positions_lookup_rank k l t a :
  l !! t = Some a -> keyOf a = k ->
  positions keyOf k l !! length (rowsWithKey keyOf k (take t l)) = Some t.
Proof.
  intros Ht Hk. unfold positions.
  pose proof (length_positionsFrom k (take t l) 0) as Hlen.
  set (c := length (rowsWithKey keyOf k (take t l))) in *.
  rewrite <- (take_drop_middle l t a Ht).
  rewrite positionsFrom_app.
  rewrite lookup_app_r by lia.
  rewrite Hlen, Nat.sub_diag. simpl.
  rewrite decide_True by done. simpl.
  f_equal. rewrite length_take. apply lookup_lt_Some in Ht. lia.
Qed.

Lemma positions_lookup_inv k l i t :
  positions keyOf k l !! i = Some t ->
  exists a, l !! t = Some a /\ keyOf a = k
            /\ i = length (rowsWithKey keyOf k (take t l)).
Proof.
  intros Hi.
  assert (Hin : t ∈ positions keyOf k l) by (apply list_elem_of_lookup; eauto).
  apply elem_of_positions in Hin as (a & Ha & Hk).
  exists a. split_and!; [done..|].
  pose proof (positions_lookup_rank k l t a Ha Hk) as Hrank.
  eapply NoDup_lookup; [apply (NoDup_positions k l)|done..].
Qed.

End PositionsFacts.

(** ** Small facts about lists *)

Lemma drop_cons_lookup {A : Type} (l : list A) c x r :
  drop c l = x :: r -> l !! c = Some x /\ r = drop (S c) l.
Proof.
  revert c. induction l as [|y l IH]; intros c H.
  - by rewrite drop_nil in H.
  - destruct c as [|c]; simpl in *.
    + inversion H; subst. by rewrite drop_0.
    + by apply IH.
Qed.

Lemma drop_nil_lookup {A : Type} (l : list A) c :
  drop c l = [] -> l !! c = None /\ drop (S c) l = [].
Proof.
  intros H.
  assert (length l <= c).
  { apply (f_equal length) in H. rewrite length_drop in H. simpl in H. lia. }
  split; [by apply lookup_ge_None|apply drop_ge; lia].
Qed.

Lemma NoDup_lookup_not_in_take {A : Type} (l : list A) c x :
  NoDup l -> l !! c = Some x -> x ∉ take c l.
Proof.
  intros Hnd Hc Hin.
  apply list_elem_of_lookup in Hin as (i & Hi).
  apply lookup_take_Some in Hi as (Hi & Hlt).
  pose proof (NoDup_lookup l i c x Hnd Hi Hc). lia.
Qed.

Lemma elem_of_take_S {A : Type} (l : list A) c x :
  l !! c = Some x -> x ∈ take (S c) l.
Proof.
  intros Hc. apply list_elem_of_lookup. exists c.
  apply lookup_take_Some. split; [done|lia].
Qed.

Lemma elem_of_take_le {A : Type} (l : list A) c c' x :
  c <= c' -> x ∈ take c l -> x ∈ take c' l.
Proof.
  intros Hle Hin. apply list_elem_of_lookup in Hin as (i & Hi).
  apply lookup_take_Some in Hi as (Hi & Hlt).
  apply list_elem_of_lookup. exists i. apply lookup_take_Some. split; [done|lia].
Qed.

(** Replacing a truthy entry by [null] removes exactly one entry from what
    [filter(Boolean)] keeps. *)
Lemma filter_truthy_insert_null (l : list value) j v :
  l !! j = Some v -> Js.truthy v = true ->
  S (length (List.filter Js.truthy (<[j := VNull]> l)))
  = length (List.filter Js.truthy l).
Proof.
  revert j. induction l as [|y l IH]; intros j Hj Hv; [done|].
  destruct j as [|j]; simpl in *.
  - inversion Hj; subst. by rewrite Hv.
  - destruct (Js.truthy y); simpl; by rewrite <- (IH j).
Qed.

(** ** The matcher computes the first-in first-out pairing *)

Section CompareFacts.
Variable mappings : list ColumnMapping.
Variables data1 data2 : list Transaction.

Abbreviation k1 := (key1 mappings).
Abbreviation k2 := (key2 mappings).
Abbreviation partner := (fifoPartner mappings data1 data2).
Abbreviation pairsUpTo := (fifoPairsUpTo mappings data1 data2).

Lemma indexInv_step pre2 x m :
  indexInv mappings pre2 m ->
  indexInv mappings (pre2 ++ [x]) (indexItem2 mappings m (length pre2) x).
Proof.
  intros Hinv k. unfold indexItem2. fold (k2 x).
  rewrite positions_snoc.
  destruct (JsString.truthy (k2 x)) eqn:Hkx.
  - destruct (decide (k2 x = k)) as [<-|Hne].
    + pose proof (Hinv (k2 x)) as Hm. rewrite Hkx in Hm. rewrite Hkx.
      destruct (positions k2 (k2 x) pre2) as [|p ps] eqn:Hps; rewrite Hm.
      * rewrite lookup_insert_eq. by rewrite lookup_insert_eq.
      * rewrite Hm. by rewrite lookup_insert_eq.
    + rewrite app_nil_r, <- Hinv.
      destruct (m !! k2 x) as [l|] eqn:Hm.
      * rewrite Hm. by rewrite lookup_insert_ne.
      * rewrite lookup_insert_eq. by rewrite !lookup_insert_ne.
  - rewrite Hinv. destruct (JsString.truthy k) eqn:Hk; [|done].
    rewrite decide_False by congruence. by rewrite app_nil_r.
Qed.

Lemma indexInv_scan chunkSize :
  0 < chunkSize ->
  indexInv mappings data2 (forEachChunk (indexItem2 mappings) data2 chunkSize ∅).
Proof.
  intros Hpos. rewrite forEachChunk_flat by done.
  apply (forEachFrom_invariant _ (indexInv mappings)).
  - intros k. rewrite lookup_empty. by destruct (JsString.truthy k).
  - intros pre x suf st _ Hinv. by apply indexInv_step.
Qed.

Lemma workingCopy_lookup js j :
  workingCopy data2 js !! j
  = (fun item2 => if bool_decide (j ∈ js) then VNull else VObj item2) <$> data2 !! j.
Proof. unfold workingCopy. by rewrite list_lookup_imap. Qed.

Lemma length_workingCopy js : length (workingCopy data2 js) = length data2.
Proof. unfold workingCopy. by rewrite length_imap. Qed.

Lemma workingCopy_insert js j :
  <[j := VNull]> (workingCopy data2 js) = workingCopy data2 (js ++ [j]).
Proof.
  apply list_eq. intros i.
  rewrite workingCopy_lookup.
  destruct (decide (i = j)) as [->|Hne].
  - destruct (data2 !! j) as [y|] eqn:Hy.
    + rewrite list_lookup_insert_eq
        by (rewrite length_workingCopy; by eapply lookup_lt_Some).
      simpl. rewrite bool_decide_eq_true_2; [done|].
      apply elem_of_app. right. by apply list_elem_of_singleton.
    + rewrite list_insert_ge
        by (rewrite length_workingCopy; by apply lookup_ge_None).
      rewrite workingCopy_lookup, Hy. done.
  - rewrite list_lookup_insert_ne by done.
    rewrite workingCopy_lookup.
    destruct (data2 !! i) as [y|]; [simpl|done].
    f_equal. apply (f_equal (fun b : bool => if b then VNull else VObj y)).
    apply bool_decide_ext. rewrite elem_of_app, list_elem_of_singleton.
    split; [by left|by intros [?|?]].
Qed.

Lemma fifoPairsUpTo_S n :
  pairsUpTo (S n)
  = pairsUpTo n ++ match partner n with Some j => [(n, j)] | None => [] end.
Proof.
  unfold fifoPairsUpTo. rewrite seq_S, omap_app. simpl.
  by destruct (partner n).
Qed.

Lemma unpairedUpTo_S n :
  unpairedUpTo mappings data1 data2 (S n)
  = unpairedUpTo mappings data1 data2 n
    ++ match partner n with
       | Some _ => []
       | None => match data1 !! n with Some x => [x] | None => [] end
       end.
Proof.
  unfold unpairedUpTo. rewrite seq_S, omap_app. simpl.
  destruct (partner n); [done|]. by destruct (data1 !! n).
Qed.

(** The partner of the row that comes right after [pre]. *)
Lemma fifoPartner_next pre x suf :
  data1 = pre ++ x :: suf ->
  partner (length pre)
  = if JsString.truthy (k1 x)
    then positions k2 (k1 x) data2 !! length (rowsWithKey k1 (k1 x) pre)
    else None.
Proof.
  intros ->. unfold fifoPartner.
  rewrite list_lookup_middle by done.
  by rewrite take_app_length.
Qed.

Lemma compareInv_step pre x suf st :
  data1 = pre ++ x :: suf ->
  compareInv mappings data1 data2 pre st ->
  compareInv mappings data1 data2 (pre ++ [x]) (matchItem1 mappings st (length pre) x).
Proof.
  intros Hdata (Hmap & Hwork & Hmatched & Hlen & Hcount & Honly & Hnd & Htaken).
  pose proof (fifoPartner_next pre x suf Hdata) as Hpartner.
  assert (Hrows : forall k, rowsWithKey k1 k (pre ++ [x])
            = rowsWithKey k1 k pre ++ (if decide (k1 x = k) then [x] else [])).
  { intros k. apply rowsWithKey_snoc. }
  assert (Hx : data1 !! length pre = Some x).
  { rewrite Hdata. by apply list_lookup_middle. }
  unfold compareInv. rewrite length_app. simpl length.
  replace (length pre + 1) with (S (length pre)) by lia.
  rewrite fifoPairsUpTo_S, unpairedUpTo_S, Hx.
  unfold matchItem1. fold (k1 x).
  set (c := length (rowsWithKey k1 (k1 x) pre)) in *.
  destruct (JsString.truthy (k1 x)) eqn:Hkx.
  2:{ (* an empty key never matches *)
    rewrite Hpartner. simpl. rewrite !app_nil_r.
    split_and!; try done.
    - intros k. rewrite Hmap, Hrows.
      destruct (JsString.truthy k) eqn:Hk; [|done].
      rewrite decide_False by congruence. by rewrite app_nil_r.
    - by rewrite Honly.
    - intros j Hj. destruct (Htaken j Hj) as (k & Hk & Hin).
      exists k. split; [done|]. rewrite Hrows.
      rewrite decide_False by congruence. by rewrite app_nil_r. }
  pose proof (Hmap (k1 x)) as Hmx. rewrite Hkx in Hmx. fold c in Hmx.
  assert (Hother : forall k, k1 x <> k ->
            rowsWithKey k1 k (pre ++ [x]) = rowsWithKey k1 k pre).
  { intros k Hne. rewrite Hrows, decide_False by done. by rewrite app_nil_r. }
  assert (Hself : length (rowsWithKey k1 (k1 x) (pre ++ [x])) = S c).
  { rewrite Hrows, decide_True by done. rewrite length_app. simpl. unfold c. lia. }
  destruct (file2Map st !! k1 x) as [[|j rest]|] eqn:Hpending.
  - (* every row of file 2 with this key is taken *)
    destruct (positions k2 (k1 x) data2) as [|p ps] eqn:Hps; [done|].
    inversion Hmx as [Hdrop]. symmetry in Hdrop.
    apply drop_nil_lookup in Hdrop as [Hnone Hdrop'].
    rewrite Hpartner, Hnone. simpl. rewrite !app_nil_r.
    split_and!; try done.
    + intros k. rewrite Hmap.
      destruct (JsString.truthy k) eqn:Hk; [|done].
      destruct (decide (k1 x = k)) as [<-|Hne]; [|by rewrite Hother].
      rewrite Hself, Hps, Hdrop'. by inversion Hmx.
    + by rewrite Honly.
    + intros j Hj. destruct (Htaken j Hj) as (k & Hk & Hin).
      exists k. split; [done|].
      eapply elem_of_take_le; [|done]. rewrite Hrows, length_app. lia.
  - (* the first pending row of file 2 is taken *)
    destruct (positions k2 (k1 x) data2) as [|p ps] eqn:Hps; [done|].
    inversion Hmx as [Hdrop]. symmetry in Hdrop.
    apply drop_cons_lookup in Hdrop as [Hj Hrest].
    rewrite Hpartner, Hj.
    assert (Hjin : j ∈ positions k2 (k1 x) data2).
    { rewrite Hps. apply list_elem_of_lookup. eauto. }
    pose proof Hjin as Hjrow.
    apply elem_of_positions in Hjrow as (y & Hy & Hky).
    assert (Hfresh : j ∉ (pairsUpTo (length pre)).*2).
    { intros Hin. destruct (Htaken j Hin) as (k & Hk & Hink).
      assert (k = k1 x) as ->.
      { apply elem_of_take in Hink as (i & Hi & _).
        assert (Hjk : j ∈ positions k2 k data2) by (apply list_elem_of_lookup; eauto).
        apply elem_of_positions in Hjk as (y' & Hy' & Hky').
        congruence. }
      fold c in Hink. rewrite Hps in Hink.
      eapply NoDup_lookup_not_in_take; [|exact Hj|exact Hink].
      rewrite <- Hps. apply NoDup_positions. }
    assert (Hitem2 : Js.at_ (inFile2Only st) j = VObj y).
    { unfold Js.at_. apply nth_lookup_Some with (d := VUndefined).
      rewrite Hwork, workingCopy_lookup, Hy. simpl.
      by rewrite bool_decide_eq_false_2. }
    assert (Hjlt : j < length (inFile2Only st)).
    { rewrite Hwork, length_workingCopy. by eapply lookup_lt_Some. }
    simpl. rewrite Hitem2. unfold Js.setAt. rewrite decide_True by done.
    split_and!.
    + intros k. destruct (decide (k1 x = k)) as [<-|Hne].
      * rewrite lookup_insert_eq, Hkx, Hself, Hps. by rewrite Hrest.
      * rewrite lookup_insert_ne by done. rewrite Hmap. by rewrite Hother.
    + rewrite fmap_app. simpl. rewrite Hwork. apply workingCopy_insert.
    + rewrite omap_app, Hmatched. simpl. unfold matchedEntry. simpl.
      by rewrite Hx, Hy.
    + rewrite !length_app, Hlen. done.
    + rewrite length_app. simpl.
      assert (Hf : S (length (List.filter Js.truthy (<[j := VNull]> (inFile2Only st))))
                   = length (List.filter Js.truthy (inFile2Only st))).
      { apply (filter_truthy_insert_null _ _ (VObj y)); [|done].
        rewrite Hwork, workingCopy_lookup, Hy. simpl.
        by rewrite bool_decide_eq_false_2. }
      lia.
    + by rewrite app_nil_r.
    + rewrite fmap_app. simpl. apply NoDup_app. split_and!; [done| |apply NoDup_singleton].
      intros j' Hj' Hj''. apply list_elem_of_singleton in Hj''. by subst.
    + intros j'. rewrite fmap_app, elem_of_app. simpl.
      intros [Hin|Hin].
      * destruct (Htaken j' Hin) as (k & Hk & Hink).
        exists k. split; [done|].
        eapply elem_of_take_le; [|done]. rewrite Hrows, length_app. lia.
      * apply list_elem_of_singleton in Hin. subst j'.
        exists (k1 x). split; [done|]. rewrite Hself, Hps.
        by apply elem_of_take_S.
  - (* no row of file 2 has this key *)
    destruct (positions k2 (k1 x) data2) as [|p ps] eqn:Hps; [|done].
    rewrite Hpartner. simpl. rewrite !app_nil_r.
    split_and!; try done.
    + intros k. rewrite Hmap.
      destruct (JsString.truthy k) eqn:Hk; [|done].
      destruct (decide (k1 x = k)) as [<-|Hne]; [|by rewrite Hother].
      by rewrite Hps.
    + by rewrite Honly.
    + intros j Hj. destruct (Htaken j Hj) as (k & Hk & Hin).
      exists k. split; [done|].
      eapply elem_of_take_le; [|done]. rewrite Hrows, length_app. lia.
Qed.

Lemma filter_truthy_objects (l : list Transaction) :
  List.filter Js.truthy (VObj <$> l) = VObj <$> l.
Proof. induction l as [|y l IH]; csimpl; [done|]. by rewrite IH. Qed.

Lemma workingCopy_nil : workingCopy data2 [] = VObj <$> data2.
Proof.
  apply list_eq. intros j.
  rewrite workingCopy_lookup, list_lookup_fmap.
  by destruct (data2 !! j).
Qed.

Lemma compareInv_init m :
  indexInv mappings data2 m ->
  compareInv mappings data1 data2 []
    {| matched := []; inFile1Only := [];
       inFile2Only := VObj <$> data2; file2Map := m |}.
Proof.
  intros Hm. unfold compareInv. simpl.
  split_and!.
  - intros k. rewrite Hm. destruct (JsString.truthy k); [|done].
    by destruct (positions k2 k data2).
  - by rewrite workingCopy_nil.
  - done.
  - done.
  - rewrite filter_truthy_objects, length_fmap. lia.
  - done.
  - apply NoDup_nil_2.
  - intros j Hj. by apply elem_of_nil in Hj.
Qed.

(** The state in which [compareFilesWithMappings] leaves its second loop. *)
Abbreviation finalState :=
  (forEachChunk (matchItem1 mappings) data1 1000
     {| matched := []; inFile1Only := [];
        inFile2Only := VObj <$> data2;
        file2Map := forEachChunk (indexItem2 mappings) data2 1000 ∅ |}).

Lemma compareInv_final : compareInv mappings data1 data2 data1 finalState.
Proof.
  rewrite (forEachChunk_flat (matchItem1 mappings)) by lia.
  apply (forEachFrom_invariant _ (compareInv mappings data1 data2)).
  - apply compareInv_init, indexInv_scan. lia.
  - intros pre x suf st Hdata Hinv. by apply compareInv_step with suf.
Qed.

(** What [filter(Boolean)] keeps of a working copy. *)
Lemma filter_truthy_imap (P : nat -> Prop) `{!forall j, Decision (P j)}
    (g : nat -> nat) (d : list Transaction) :
  List.filter Js.truthy
    (imap (fun j item2 => if bool_decide (P (g j)) then VNull else VObj item2) d)
  = VObj <$> (filter (fun p : nat * Transaction => ~ P p.1)
                (imap (fun j item2 => (g j, item2)) d)).*2.
Proof.
  revert g. induction d as [|y d IH]; intros g; [done|].
  simpl. rewrite filter_cons. simpl.
  specialize (IH (g ∘ S)). unfold compose in IH. simpl in IH.
  case_bool_decide as HP; simpl.
  - rewrite decide_False by tauto. apply IH.
  - rewrite decide_True by done. simpl. f_equal. apply IH.
Qed.

Lemma filter_truthy_workingCopy js :
  List.filter Js.truthy (workingCopy data2 js) = VObj <$> unclaimed data2 js.
Proof.
  unfold workingCopy, unclaimed.
  exact (filter_truthy_imap (fun j => j ∈ js) (fun j => j) data2).
Qed.

(** The result of [compareFilesWithMappings], in the words of the
    specification. *)
Lemma compareFilesWithMappings_spec :
  let r := compareFilesWithMappings mappings data1 data2 in
  let pairs := fifoPairs mappings data1 data2 in
  resMatched r = omap (matchedEntry data1 data2) pairs
  /\ length (resMatched r) = length pairs
  /\ resInFile1Only r = unpairedUpTo mappings data1 data2 (length data1)
  /\ resInFile2Only r = VObj <$> unclaimed data2 pairs.*2
  /\ NoDup pairs.*2.
Proof.
  intros r pairs.
  destruct compareInv_final
    as (_ & Hwork & Hmatched & Hlen & _ & Honly & Hnd & _).
  unfold r, compareFilesWithMappings. cbn [resMatched resInFile1Only resInFile2Only].
  split_and!; try done.
  by rewrite Hwork, filter_truthy_workingCopy.
Qed.

(** A pair of the specification joins the [i]-th row of dataset 1 with key
    [k] and the [i]-th row of dataset 2 with key [k]. *)
Lemma elem_of_fifoPairs t j :
  (t, j) ∈ fifoPairs mappings data1 data2
  <-> exists k i,
        JsString.truthy k = true
        /\ positions k1 k data1 !! i = Some t
        /\ positions k2 k data2 !! i = Some j.
Proof.
  unfold fifoPairs, fifoPairsUpTo. rewrite list_elem_of_omap. split.
  - intros (t' & Hseq & Hsome).
    destruct (partner t') as [j'|] eqn:Hp; simpl in Hsome; [|done].
    inversion Hsome; subst t' j'. clear Hsome.
    unfold fifoPartner in Hp.
    destruct (data1 !! t) as [a|] eqn:Ha; [|done].
    destruct (JsString.truthy (k1 a)) eqn:Hk; [|done].
    exists (k1 a), (length (rowsWithKey k1 (k1 a) (take t data1))).
    split_and!; [done| |done].
    by apply positions_lookup_rank with a.
  - intros (k & i & Hk & H1 & H2).
    apply positions_lookup_inv in H1 as (a & Ha & Hka & Hi).
    exists t. split.
    + apply elem_of_seq. apply lookup_lt_Some in Ha. lia.
    + unfold fifoPartner. rewrite Ha, Hka, Hk. subst i. by rewrite H2.
Qed.

Lemma NoDup_fifoPairs_fst n : NoDup (pairsUpTo n).*1.
Proof.
  induction n as [|n IH]; [apply NoDup_nil_2|].
  rewrite fifoPairsUpTo_S, fmap_app.
  apply NoDup_app. split_and!; [done| |].
  - intros t Ht Ht'.
    assert (Hlt : t < n).
    { apply list_elem_of_fmap in Ht as ([t0 j0] & -> & Hin).
      unfold fifoPairsUpTo in Hin.
      apply list_elem_of_omap in Hin as (t1 & Hseq & Hsome).
      destruct (partner t1); simpl in Hsome; [|done].
      inversion Hsome; subst. apply elem_of_seq in Hseq. simpl. lia. }
    destruct (partner n); simpl in Ht'.
    + apply list_elem_of_singleton in Ht'. lia.
    + by apply elem_of_nil in Ht'.
  - destruct (partner n); simpl; [apply NoDup_singleton|apply NoDup_nil_2].
Qed.

End CompareFacts.

Section CompareClaims.
Variable mappings : list ColumnMapping.
Variables data1 data2 : list Transaction.

Lemma length_pairs_unpaired n :
  n <= length data1 ->
  length (fifoPairsUpTo mappings data1 data2 n)
  + length (unpairedUpTo mappings data1 data2 n) = n.
Proof.
  induction n as [|n IH]; intros Hn; [done|].
  rewrite fifoPairsUpTo_S, unpairedUpTo_S, !length_app.
  destruct (lookup_lt_is_Some_2 data1 n ltac:(lia)) as [x Hx]. rewrite Hx.
  specialize (IH ltac:(lia)).
  destruct (fifoPartner mappings data1 data2 n); simpl; lia.
Qed.

(** The [n]-th row with key [k] stands at the [n]-th position with key
    [k]. *)
Lemma rows_lookup_positionsFrom keyOf k (l : list Transaction) i n t :
  positionsFrom keyOf k l i !! n = Some t ->
  i <= t /\ rowsWithKey keyOf k l !! n = l !! (t - i).
Proof.
  unfold rowsWithKey.
  revert i n. induction l as [|x l IH]; intros i n Hn; [done|].
  simpl in Hn. rewrite filter_cons.
  destruct (decide (keyOf x = k)).
  - destruct n as [|n]; simpl in Hn.
    + inversion Hn; subst. split; [done|]. by rewrite Nat.sub_diag.
    + destruct (IH _ _ Hn) as [Hle Hrow]. split; [lia|].
      simpl. rewrite Hrow. by replace (t - i) with (S (t - S i)) by lia.
  - destruct (IH _ _ Hn) as [Hle Hrow]. split; [lia|].
    rewrite Hrow. by replace (t - i) with (S (t - S i)) by lia.
Qed.

Lemma rows_lookup_position keyOf k (l : list Transaction) n a :
  rowsWithKey keyOf k l !! n = Some a ->
  exists t, positions keyOf k l !! n = Some t /\ l !! t = Some a.
Proof.
  intros Ha.
  destruct (lookup_lt_is_Some_2 (positions keyOf k l) n) as [t Ht].
  { unfold positions. rewrite length_positionsFrom. by eapply lookup_lt_Some. }
  exists t. split; [done|].
  destruct (rows_lookup_positionsFrom keyOf k l 0 n t Ht) as [_ Hrow].
  rewrite Nat.sub_0_r in Hrow. congruence.
Qed.

End CompareClaims.

(** C1.  For all datasets and every mapping list, [compareFilesWithMappings]
    splits both sides completely: matched pairs plus file-1-only rows count
    the rows of the first dataset, and matched pairs plus file-2-only rows
    count the rows of the second. *)
Theorem C1_partition_completeness
    (mappings : list ColumnMapping) (data1 data2 : list Transaction) :
  let r := compareFilesWithMappings mappings data1 data2 in
  length (resMatched r) + length (resInFile1Only r) = length data1
  /\ length (resMatched r) + length (resInFile2Only r) = length data2.
Proof.
  intros r.
  destruct (compareInv_final mappings data1 data2)
    as (_ & _ & _ & Hlen & Hcount & Honly & _).
  unfold r, compareFilesWithMappings.
  cbn [resMatched resInFile1Only resInFile2Only].
  split.
  - rewrite Hlen, Honly. by apply length_pairs_unpaired.
  - lia.
Qed.

(** C2 (the code departs from the claim).  With two mappings the key of a
    row whose mapped columns are all empty is the separator alone, which is
    not the empty string: the guard on the key lets such rows through, and a
    blank row of file 1 is paired with a blank row of file 2. *)
Theorem C2_blank_rows_pair_under_two_mappings :
  let mappings :=
    [ {| file1Column := "id"; file2Column := "id"; isExactMatch := true |};
      {| file1Column := "ref"; file2Column := "ref"; isExactMatch := false |} ] in
  let row1 := [("id", VStr ""); ("ref", VNull); ("amount", VStr "10")] in
  let row2 := [("id", VNull); ("amount", VStr "99")] in
  createCompositeKey row1 mappings true = "|"
  /\ createCompositeKey row2 mappings false = "|"
  /\ compareFilesWithMappings mappings [row1] [row2]
     = {| resMatched := [row1 ++ [("_matchedWith", VObj row2)]];
          resInFile1Only := [];
          resInFile2Only := [] |}.
Proof. vm_compute. done. Qed.

(** A row whose key is the empty string is never paired, whatever the
    mapping list: a row of file 1 stays in [inFile1Only], a row of file 2 in
    [inFile2Only].  With a single mapping this is every row whose mapped
    column is empty. *)
Lemma empty_key_rows_are_never_paired
    (mappings : list ColumnMapping) (data1 data2 : list Transaction) :
  let r := compareFilesWithMappings mappings data1 data2 in
  (forall t a, data1 !! t = Some a -> key1 mappings a = "" ->
               a ∈ resInFile1Only r
               /\ forall j, (t, j) ∉ fifoPairs mappings data1 data2)
  /\ (forall j b, data2 !! j = Some b -> key2 mappings b = "" ->
                  VObj b ∈ resInFile2Only r
                  /\ forall t, (t, j) ∉ fifoPairs mappings data1 data2).
Proof.
  intros r.
  destruct (compareFilesWithMappings_spec mappings data1 data2)
    as (_ & _ & Honly1 & Honly2 & _).
  fold r in Honly1, Honly2.
  split.
  - intros t a Ha Hk.
    assert (Hno : forall j, (t, j) ∉ fifoPairs mappings data1 data2).
    { intros j Hin. apply elem_of_fifoPairs in Hin as (k & i & Htr & H1 & H2).
      apply positions_lookup_inv in H1 as (a' & Ha' & Hka & _).
      assert (a' = a) as -> by congruence. rewrite Hk in Hka. by subst k. }
    split; [|done].
    rewrite Honly1. unfold unpairedUpTo. apply list_elem_of_omap.
    exists t. split; [apply elem_of_seq; apply lookup_lt_Some in Ha; lia|].
    unfold fifoPartner. rewrite Ha, Hk. simpl. done.
  - intros j b Hb Hk.
    assert (Hno : forall t, (t, j) ∉ fifoPairs mappings data1 data2).
    { intros t Hin. apply elem_of_fifoPairs in Hin as (k & i & Htr & H1 & H2).
      apply positions_lookup_inv in H2 as (b' & Hb' & Hkb & _).
      assert (b' = b) as -> by congruence. rewrite Hk in Hkb. by subst k. }
    split; [|done].
    rewrite Honly2. apply list_elem_of_fmap. exists b. split; [done|].
    unfold unclaimed. apply list_elem_of_fmap. exists (j, b). split; [done|].
    apply list_elem_of_filter. split.
    + simpl. intros Hin. apply list_elem_of_fmap in Hin as ([t j'] & Hj & Hin).
      simpl in Hj. subst j'. by apply (Hno t).
    + apply list_elem_of_lookup. exists j. by rewrite list_lookup_imap, Hb.
Qed.

(** The array matcher: the matched list holds one entry per pair of the
    specification's pairing, in the order of dataset 1; a pair joins the
    [i]-th arriving row of dataset 1 with key [k] and the [i]-th arriving row
    of dataset 2 with key [k]; no row of either dataset is in two pairs; and
    when both datasets have an [i]-th row with key [k], the entry that joins
    the two is in the matched list. *)
Lemma compareFilesWithMappings_fifo
    (mappings : list ColumnMapping) (data1 data2 : list Transaction) :
  let r := compareFilesWithMappings mappings data1 data2 in
  let pairs := fifoPairs mappings data1 data2 in
  resMatched r = omap (matchedEntry data1 data2) pairs
  /\ length (resMatched r) = length pairs
  /\ (forall t j,
        (t, j) ∈ pairs
        <-> exists k i,
              JsString.truthy k = true
              /\ positions (key1 mappings) k data1 !! i = Some t
              /\ positions (key2 mappings) k data2 !! i = Some j)
  /\ NoDup pairs.*1
  /\ NoDup pairs.*2
  /\ (forall k i a b,
        JsString.truthy k = true ->
        rowsWithKey (key1 mappings) k data1 !! i = Some a ->
        rowsWithKey (key2 mappings) k data2 !! i = Some b ->
        Js.set a "_matchedWith" (VObj b) ∈ resMatched r).
Proof.
  intros r pairs.
  destruct (compareFilesWithMappings_spec mappings data1 data2)
    as (Hmatched & Hlen & _ & _ & Hnd2).
  fold r pairs in Hmatched, Hlen, Hnd2.
  split_and!; [done|done| | |done|].
  - intros t j. apply elem_of_fifoPairs.
  - apply NoDup_fifoPairs_fst.
  - intros k i a b Hk Ha Hb.
    apply rows_lookup_position in Ha as (t & Ht & Hta).
    apply rows_lookup_position in Hb as (j & Hj & Hjb).
    rewrite Hmatched. apply list_elem_of_omap. exists (t, j). split.
    + apply elem_of_fifoPairs. by exists k, i.
    + unfold matchedEntry. simpl. by rewrite Hta, Hjb.
Qed.

(** ** The streaming matcher computes the same pairing *)

Lemma forEachStreamed_concat {St : Type} (body : St -> Transaction -> St)
    (stream : list (list Transaction)) (st : St) :
  Streaming.forEachStreamed body stream st = foldl body st (concat stream).
Proof.
  unfold Streaming.forEachStreamed.
  revert st. induction stream as [|chunk stream IH]; intros st; simpl; [done|].
  rewrite foldl_app, IH. by destruct chunk.
Qed.

Lemma object_get_set_eq (o : Transaction) k v : Js.get (Js.set o k v) k = v.
Proof.
  induction o as [|[k' v'] o IH]; simpl.
  - by rewrite String.eqb_refl.
  - destruct (String.eqb k' k) eqn:E; simpl; rewrite E; [done|apply IH].
Qed.

Lemma remove_set (o : Transaction) k v : Js.remove (Js.set o k v) k = Js.remove o k.
Proof.
  unfold Js.remove. induction o as [|[k' v'] o IH]; simpl.
  - by rewrite String.eqb_refl.
  - destruct (String.eqb k' k) eqn:E; simpl; rewrite E; simpl; [done|].
    by rewrite IH.
Qed.

Lemma filter_not_null_imap (taken : nat -> bool) (d : list Transaction) :
  List.filter (fun item => negb (match item with VNull => true | _ => false end))
    (imap (fun j item2 => if taken j then VNull else VObj item2) d)
  = List.filter Js.truthy
      (imap (fun j item2 => if taken j then VNull else VObj item2) d).
Proof.
  revert taken. induction d as [|b d IH]; intros taken; [done|]. simpl.
  destruct (taken 0); simpl; [|f_equal]; apply (IH (taken ∘ S)).
Qed.

Section StreamingFacts.
Variable mappings : list ColumnMapping.
Variables data1 data2 : list Transaction.

Abbreviation sk1 := (key1 mappings).
Abbreviation sk2 := (key2 mappings).
Abbreviation wrapper := (wrapperAt data2).

Lemma originalIndex_wrapper j : Streaming.originalIndex (wrapper j) = Some j.
Proof.
  unfold Streaming.originalIndex, wrapperAt. rewrite object_get_set_eq.
  rewrite (proj2 (Z.leb_le 0 (Z.of_nat j))) by lia. by rewrite Nat2Z.id.
Qed.

Lemma streamIndexSim_step pre2 x suf m ss :
  data2 = pre2 ++ x :: suf ->
  streamIndexSim data2 pre2 m ss ->
  streamIndexSim data2 (pre2 ++ [x])
    (indexItem2 mappings m (length pre2) x)
    (Streaming.indexStreamItem mappings ss x).
Proof.
  intros Hdata (Hmap & Hall & Hidx & Hm & H1).
  assert (Hw : wrapper (length pre2)
               = Js.set x Streaming.indexKey (VNum (Z.of_nat (length pre2)))).
  { unfold wrapperAt. rewrite Hdata. by rewrite nth_middle. }
  unfold streamIndexSim, Streaming.indexStreamItem, indexItem2. simpl.
  rewrite Hall, Hidx, Hm, H1, fmap_app, length_app. simpl.
  split_and!; try done; [|lia].
  destruct (JsString.truthy (createCompositeKey x mappings false)); [|done].
  set (key := createCompositeKey x mappings false).
  rewrite Hmap, lookup_fmap.
  destruct (m !! key) as [indices|] eqn:Hm'; simpl.
  - rewrite lookup_fmap, Hm'. simpl.
    rewrite fmap_insert, fmap_app. simpl. by rewrite Hw.
  - rewrite !lookup_insert_eq. rewrite !fmap_insert. simpl. by rewrite Hw.
Qed.

Lemma streamIndexSim_loop suf : forall pre2 m ss,
  data2 = pre2 ++ suf ->
  streamIndexSim data2 pre2 m ss ->
  streamIndexSim data2 data2
    (forEachFrom (indexItem2 mappings) suf (length pre2) m)
    (foldl (Streaming.indexStreamItem mappings) ss suf).
Proof.
  induction suf as [|x suf IH]; intros pre2 m ss Hdata Hsim; simpl.
  - rewrite app_nil_r in Hdata. by subst.
  - specialize (IH (pre2 ++ [x])). rewrite length_app in IH. simpl in IH.
    replace (length pre2 + 1) with (S (length pre2)) in IH by lia.
    apply IH; [by rewrite <- app_assoc|].
    by apply streamIndexSim_step with suf.
Qed.

(** What is pending for the key of the next row decides its partner. *)
Lemma pending_partner pre x suf st :
  data1 = pre ++ x :: suf ->
  compareInv mappings data1 data2 pre st ->
  fifoPartner mappings data1 data2 (length pre)
  = match (if JsString.truthy (sk1 x) then file2Map st !! sk1 x else None) with
    | Some (j :: _) => Some j
    | _ => None
    end.
Proof.
  intros Hdata (Hmap & _).
  rewrite (fifoPartner_next mappings data1 data2 pre x suf Hdata).
  destruct (JsString.truthy (sk1 x)) eqn:Hk; [|done].
  rewrite Hmap, Hk.
  destruct (positions sk2 (sk1 x) data2) as [|p ps] eqn:Hps; [done|].
  destruct (drop (length (rowsWithKey sk1 (sk1 x) pre)) (p :: ps))
    as [|j rest] eqn:Hdrop.
  - by apply drop_nil_lookup in Hdrop as [-> _].
  - by apply drop_cons_lookup in Hdrop as [-> _].
Qed.

Lemma streamSim_step pre x suf sa ss :
  data1 = pre ++ x :: suf ->
  compareInv mappings data1 data2 pre sa ->
  streamSim mappings data1 data2 (length pre) sa ss ->
  streamSim mappings data1 data2 (S (length pre))
    (matchItem1 mappings sa (length pre) x)
    (Streaming.matchStreamItem mappings ss x).
Proof.
  intros Hdata Hinv (Hmap & Hall & Hm & H1).
  pose proof (pending_partner pre x suf sa Hdata Hinv) as Hpartner.
  assert (Hx : data1 !! length pre = Some x).
  { rewrite Hdata. by apply list_lookup_middle. }
  unfold streamSim, Streaming.matchStreamItem, matchItem1.
  rewrite fifoPairsUpTo_S, Hpartner. fold (sk1 x).
  assert (Hpending :
            (if JsString.truthy (sk1 x) then Streaming.sFile2Map ss !! sk1 x else None)
            = (fun indices : list nat => wrapper <$> indices) <$>
                (if JsString.truthy (sk1 x) then file2Map sa !! sk1 x else None)).
  { destruct (JsString.truthy (sk1 x)); [|done]. by rewrite Hmap, lookup_fmap. }
  rewrite Hpending.
  destruct (if JsString.truthy (sk1 x) then file2Map sa !! sk1 x else None)
    as [[|j rest]|] eqn:Hp; simpl.
  1,3: rewrite app_nil_r; split_and!; try done; by rewrite H1.
  assert (Hj : exists b, data2 !! j = Some b) .
  { assert (Hin : j ∈ positions sk2 (sk1 x) data2).
    { assert (Hpj : fifoPartner mappings data1 data2 (length pre) = Some j)
        by (by rewrite Hpartner).
      rewrite (fifoPartner_next mappings data1 data2 pre x suf Hdata) in Hpj.
      destruct (JsString.truthy (sk1 x)); [|done].
      apply list_elem_of_lookup. eauto. }
    apply elem_of_positions in Hin as (b & Hb & _). eauto. }
  destruct Hj as (b & Hb).
  rewrite originalIndex_wrapper.
  split_and!.
  - by rewrite Hmap, fmap_insert.
  - by rewrite Hall.
  - rewrite omap_app, Hm. simpl. f_equal.
    unfold matchedEntryStreamed. simpl. rewrite Hx, Hb. unfold wrapperAt.
    rewrite (nth_lookup_Some _ _ [] _ Hb). by rewrite remove_set.
  - done.
Qed.

Lemma streamSim_loop suf : forall pre sa ss,
  data1 = pre ++ suf ->
  compareInv mappings data1 data2 pre sa ->
  streamSim mappings data1 data2 (length pre) sa ss ->
  streamSim mappings data1 data2 (length data1)
    (forEachFrom (matchItem1 mappings) suf (length pre) sa)
    (foldl (Streaming.matchStreamItem mappings) ss suf).
Proof.
  induction suf as [|x suf IH]; intros pre sa ss Hdata Hinv Hsim; simpl.
  - rewrite app_nil_r in Hdata. by subst.
  - specialize (IH (pre ++ [x])). rewrite length_app in IH. simpl in IH.
    replace (length pre + 1) with (S (length pre)) in IH by lia.
    apply IH.
    + by rewrite <- app_assoc.
    + by apply compareInv_step with suf.
    + by apply streamSim_step with suf.
Qed.

Lemma length_omap_matchedEntryStreamed (l : list (nat * nat)) :
  length (omap (matchedEntryStreamed data1 data2) l)
  = length (omap (matchedEntry data1 data2) l).
Proof.
  induction l as [|p l IH]; [done|]. csimpl.
  destruct (matchedEntryStreamed data1 data2 p) eqn:E1,
           (matchedEntry data1 data2 p) eqn:E2;
    simpl; rewrite ?IH; try done;
    unfold matchedEntryStreamed, matchedEntry in E1, E2;
    by destruct (data1 !! p.1), (data2 !! p.2).
Qed.

Lemma filter_not_null_workingCopy js :
  List.filter (fun item => negb (match item with VNull => true | _ => false end))
    (workingCopy data2 js)
  = List.filter Js.truthy (workingCopy data2 js).
Proof. apply filter_not_null_imap. Qed.

End StreamingFacts.

(** The streaming matcher returns the pairing of the array matcher on the
    concatenated streams; its back-references are copies that have lost the
    column [_originalIndexInAllFile2], if the row had one. *)
Lemma compareUniqueItemStreams_spec
    (mappings : list ColumnMapping) (stream1 stream2 : list (list Transaction)) :
  let data1 := concat stream1 in
  let data2 := concat stream2 in
  let r := Streaming.compareUniqueItemStreams mappings stream1 stream2 in
  let pairs := fifoPairs mappings data1 data2 in
  resMatched r = omap (matchedEntryStreamed data1 data2) pairs
  /\ length (resMatched r) = length pairs
  /\ resInFile1Only r = resInFile1Only (compareFilesWithMappings mappings data1 data2)
  /\ resInFile2Only r = resInFile2Only (compareFilesWithMappings mappings data1 data2).
Proof.
  intros data1 data2 r pairs.
  unfold r, Streaming.compareUniqueItemStreams, compareFilesWithMappings.
  cbn [resMatched resInFile1Only resInFile2Only].
  rewrite !forEachStreamed_concat. fold data1 data2.
  rewrite !forEachChunk_flat by lia.
  set (m := forEachFrom (indexItem2 mappings) data2 0 ∅).
  set (ss2 := foldl (Streaming.indexStreamItem mappings) _ data2).
  assert (Hsim1 : streamIndexSim data2 data2 m ss2).
  { apply (streamIndexSim_loop mappings data2 data2 [] ∅); [done|].
    unfold streamIndexSim. simpl. by rewrite fmap_empty. }
  destruct Hsim1 as (Hmap & Hall & _ & Hm & H1).
  set (sa0 := {| matched := []; inFile1Only := [];
                 inFile2Only := VObj <$> data2; file2Map := m |}).
  assert (Hinv0 : compareInv mappings data1 data2 [] sa0).
  { apply compareInv_init. unfold m. rewrite <- (forEachChunk_flat _ data2 1000) by lia.
    apply indexInv_scan. lia. }
  pose proof (streamSim_loop mappings data1 data2 data1 [] sa0 ss2 eq_refl Hinv0)
    as Hsim.
  simpl in Hsim.
  destruct Hsim as (_ & Hall' & Hmatched & Honly); [by split_and!|].
  pose proof (compareInv_final mappings data1 data2) as Hfinal.
  rewrite (forEachChunk_flat (matchItem1 mappings)) in Hfinal by lia.
  rewrite forEachChunk_flat in Hfinal by lia.
  fold m sa0 in Hfinal.
  destruct Hfinal as (_ & Hwork & Hmatched_a & Hlen_a & _).
  split_and!.
  - exact Hmatched.
  - rewrite Hmatched, length_omap_matchedEntryStreamed.
    by rewrite <- Hmatched_a.
  - exact Honly.
  - rewrite Hall', Hwork. apply filter_not_null_workingCopy.
Qed.

(** ** Key derivation of [findDuplicates] *)

Lemma lowerChar_sameLetter c d :
  sameLetter c d -> JsString.lowerChar d = JsString.lowerChar c.
Proof.
  intros [->|[->| ->]]; [done| |];
    destruct c as [[] [] [] [] [] [] [] []]; vm_compute; reflexivity.
Qed.

Lemma toLowerCase_sameUpToCase s t :
  sameUpToCase s t -> JsString.toLowerCase s = JsString.toLowerCase t.
Proof.
  induction 1 as [|c d s t Hcd _ IH]; simpl; [done|].
  by rewrite IH, (lowerChar_sameLetter c d Hcd).
Qed.

Section CompositeKeyFacts.
Variable item : Transaction.

Lemma compositeKey_default_parts keysToCheck acc :
  foldl (fun (keyParts : list string) (key : string) =>
           let val := Js.get item key in
           if Js.nullish val && true then keyParts
           else
             let val :=
               if negb (Js.nullish val) then
                 let s := Js.toString val in
                 let s := if negb false then JsString.toLowerCase s else s in
                 if true then JsString.trim s else s
               else "" in
             keyParts ++ [key +:+ ":" +:+ val])
        acc keysToCheck
  = acc ++ omap (defaultKeyPart item) keysToCheck.
Proof.
  revert acc. induction keysToCheck as [|key keys IH]; intros acc; simpl.
  - by rewrite app_nil_r.
  - rewrite IH. unfold defaultKeyPart at 2.
    destruct (Js.nullish (Js.get item key)); simpl; [done|].
    by rewrite <- app_assoc.
Qed.

End CompositeKeyFacts.

Lemma defaultKeyPart_sameUpToCase (item item' : Transaction) key :
  valueSameUpToCase (Js.get item key) (Js.get item' key) ->
  defaultKeyPart item key = defaultKeyPart item' key.
Proof.
  unfold defaultKeyPart, valueSameUpToCase.
  destruct (Js.get item key) as [| |z|s|o], (Js.get item' key) as [| |z'|t|o'];
    simpl; try congruence.
  intros Hst. by rewrite (toLowerCase_sameUpToCase s t Hst).
Qed.

Lemma defaultKeyParts_sameUpToCase (item item' : Transaction) (keys : list string) :
  (forall key, key ∈ keys ->
               valueSameUpToCase (Js.get item key) (Js.get item' key)) ->
  omap (defaultKeyPart item) keys = omap (defaultKeyPart item') keys.
Proof.
  induction keys as [|key keys IH]; intros Hsame; [done|].
  csimpl. rewrite (defaultKeyPart_sameUpToCase item item' key) by (apply Hsame; left).
  rewrite IH; [done|]. intros k Hk. apply Hsame. by right.
Qed.

(** With the default options (case-insensitive, trimming, ignoring empty
    values) the key that [findDuplicates] derives from a row is the
    bar-joined list of [column:value] parts in which every value has been
    turned to a string, lower-cased and trimmed, and a column whose value is
    [null] or [undefined] has no part at all.  Hence two rows whose values
    differ only in the letter case receive equal keys. *)
Lemma default_key_is_case_insensitive
    (keysToCheck : list string) (item item' : Transaction) :
  compositeKey keysToCheck
    (default false (caseSensitive noOptions))
    (default true (trimWhitespace noOptions))
    (default true (ignoreEmptyValues noOptions)) item
  = JsString.join "|" (omap (defaultKeyPart item) keysToCheck)
  /\ (forall key, Js.nullish (Js.get item key) = true ->
                  defaultKeyPart item key = None)
  /\ (forall key, Js.nullish (Js.get item key) = false ->
                  defaultKeyPart item key
                  = Some (key +:+ ":" +:+
                          JsString.trim (JsString.toLowerCase (Js.toString (Js.get item key)))))
  /\ ((forall key, key ∈ keysToCheck ->
                   valueSameUpToCase (Js.get item key) (Js.get item' key)) ->
      compositeKey keysToCheck false true true item
      = compositeKey keysToCheck false true true item').
Proof.
  assert (Hkey : forall it,
             compositeKey keysToCheck false true true it
             = JsString.join "|" (omap (defaultKeyPart it) keysToCheck)).
  { intros it. unfold compositeKey. f_equal.
    exact (compositeKey_default_parts it keysToCheck []). }
  split_and!.
  - apply Hkey.
  - intros key Hnull. unfold defaultKeyPart. by rewrite Hnull.
  - intros key Hnull. unfold defaultKeyPart. by rewrite Hnull.
  - intros Hsame. rewrite !Hkey. f_equal.
    by apply defaultKeyParts_sameUpToCase.
Qed.

(** ** [findDuplicates] returns no group

    The groups are built as in [findDuplicatesInFile], but a run that has
    found a duplicate ends in the [TypeError] of the closing loop, so a run
    that returns has found none and its group list is empty. *)

Section FindDuplicatesFacts.
Variable keyOf : Transaction -> string.
Variable data : list Transaction.

Lemma scanItem_no_duplicates st idx x :
  duplicates (scanItem keyOf data st idx x) = [] ->
  duplicates st = []
  /\ duplicateGroups (scanItem keyOf data st idx x) = duplicateGroups st.
Proof.
  unfold scanItem.
  destruct (JsString.truthy (keyOf x)); [|done].
  destruct (seen st !! keyOf x); simpl; [|done].
  intros H. by apply app_nil in H as [_ ?].
Qed.

Lemma forChunk_no_duplicates chunk i j st :
  duplicates (forChunk (scanItem keyOf data) chunk i j st) = [] ->
  duplicates st = []
  /\ duplicateGroups (forChunk (scanItem keyOf data) chunk i j st) = duplicateGroups st.
Proof.
  revert j st. induction chunk as [|x chunk IH]; intros j st; simpl; [done|].
  intros H. destruct (IH _ _ H) as [Hd Hg].
  destruct (scanItem_no_duplicates _ _ _ Hd) as [Hd' Hg'].
  split; [done|]. by rewrite Hg, Hg'.
Qed.

End FindDuplicatesFacts.

Lemma findDuplicates_returns_no_group data columns options r :
  findDuplicates data columns options = inr r -> fdDuplicateGroups r = [].
Proof.
  unfold findDuplicates.
  destruct data as [|first rest]; [by intros [= <-]|].
  set (data := first :: rest).
  destruct (decide (length _ = 0)); [by intros [= <-]|].
  set (keyOf := compositeKey _ _ _ _).
  unfold processArrayInChunks.
  set (step := fun (acc : list Transaction * DuplicateScan) (i : nat) => _).
  assert (Hinv : forall l acc,
             (acc.1 = [] -> duplicateGroups acc.2 = []) ->
             (foldl step acc l).1 = [] -> duplicateGroups (foldl step acc l).2 = []).
  { induction l as [|i l IH]; intros acc Hacc; simpl; [done|].
    apply IH. unfold step at 1 2. simpl. intros Hnil.
    apply app_nil in Hnil as [Hacc1 Hdup].
    apply forChunk_no_duplicates in Hdup as [_ Hg].
    rewrite Hg. simpl. by apply Hacc. }
  specialize (Hinv (seq 0 (ceilDiv (length data) 1000)) ([], emptyScan) (fun _ => eq_refl)).
  destruct (foldl step ([], emptyScan) _).1 eqn:Hrun; [|done].
  specialize (Hinv eq_refl).
  intros [= <-].
  exact (f_equal (fmap (fun kv : string * list value =>
                          {| groupKey := kv.1; groupItems := kv.2 |})) Hinv).
Qed.

Example findDuplicates_throws_on_a_duplicate :
  findDuplicates [[("a", VStr "x")]; [("a", VStr "X ")]; [("a", VStr "y")]] [] noOptions
  = inl SpreadOfNonIterable.
Proof. vm_compute. reflexivity. Qed.

Example findDuplicates_without_duplicates :
  findDuplicates [[("a", VStr "x")]; [("a", VStr "y")]] [] noOptions
  = inr {| fdDuplicates := []; fdDuplicateGroups := [];
           fdUniqueItems := [[("a", VStr "x")]; [("a", VStr "y")]] |}.
Proof. vm_compute. reflexivity. Qed.

(** C5.  For every input dataset, every duplicate group that
    [findDuplicatesInFile] returns holds at least two records: it is exactly
    the rows of the dataset with the group's key, in arrival order, so its
    first element is the first row of the dataset with that key (the
    original), and a key carried by at most one row has no group.
    [findDuplicates], the variant with options, builds its groups in the same
    way but returns none: a run of it that found a duplicate ends in a
    [TypeError], so the group list of a run that returns is empty. *)
Theorem C5_duplicate_groups_have_two_and_start_with_original
    (data : list Transaction) :
  let keyOf := fun t => createCompositeKeyFromAllColumns (VObj t) in
  let r := findDuplicatesInFile data in
  (forall k items, (k, items) ∈ duplicateGroups r ->
     2 <= length items
     /\ items = VObj <$> rowsWithKey keyOf k data
     /\ exists i original rest,
          items = VObj original :: rest
          /\ data !! i = Some original
          /\ keyOf original = k
          /\ forall j z, j < i -> data !! j = Some z -> keyOf z <> k)
  /\ (forall k, length (rowsWithKey keyOf k data) <= 1 ->
                k ∉ (duplicateGroups r).*1)
  /\ (forall columns options result,
        findDuplicates data columns options = inr result ->
        fdDuplicateGroups result = []).
Proof.
  intros keyOf r.
  destruct (groupsInv_scan keyOf data 1000 ltac:(lia))
    as (_ & _ & _ & Hnd & Hgroups).
  fold (findDuplicatesInFile data) in Hnd, Hgroups. fold r in Hnd, Hgroups.
  split_and!.
  - intros k items Hin.
    apply JsMapFacts.elem_of_get in Hin; [|done].
    rewrite Hgroups in Hin.
    destruct (JsString.truthy k); simpl in Hin; [|done].
    case_bool_decide as Hlen; [|done].
    inversion Hin as [Hitems]. clear Hin.
    split_and!.
    + by rewrite length_fmap.
    + done.
    + destruct (rowsWithKey keyOf k data) as [|y rest] eqn:Hrows;
        [simpl in Hlen; lia|].
      destruct (head_rowsWithKey keyOf k data y) as (i & Hi & Hk & Hfirst).
      { by rewrite Hrows. }
      exists i, y, (VObj <$> rest). by split_and!.
  - intros k Hlen. apply JsMapFacts.get_None_keys.
    rewrite Hgroups. rewrite bool_decide_eq_false_2 by lia.
    by rewrite andb_false_r.
  - intros columns options result. apply findDuplicates_returns_no_group.
Qed.

(** C6.  For every input dataset, [uniqueItems] followed by [duplicates] is a
    rearrangement of the rows that have a non-empty composite key (every such
    row is classified exactly once, rows with an empty key are dropped), and
    both lists keep the rows in arrival order. *)
Theorem C6_unique_and_duplicates_reconstruct_dataset (data : list Transaction) :
  let keyOf := fun t => createCompositeKeyFromAllColumns (VObj t) in
  let r := findDuplicatesInFile data in
  uniqueItems r ++ duplicates r ≡ₚ keyedRows keyOf data
  /\ sublist (uniqueItems r) data
  /\ sublist (duplicates r) data.
Proof.
  intros keyOf r.
  exact (partitionInv_scan keyOf data 1000 ltac:(lia)).
Qed.

(** C3.  Pairing is first-in first-out on both sides, in the array matcher
    and in the streaming matcher.  Each returns one matched entry per pair of
    the specification's pairing, in the order of dataset 1.  A pair joins the
    [i]-th arriving row of dataset 1 with key [k] and the [i]-th arriving row
    of dataset 2 with the same non-empty key [k]; no row of dataset 1 and no
    row of dataset 2 is in two pairs; and whenever both datasets have an
    [i]-th row with key [k], the entry joining these two rows is in the
    matched list.  The streaming matcher works on the concatenation of the
    chunks, and its back-reference is the copy of the row of dataset 2 it
    kept, without the position column. *)
Theorem C3_fifo_pairing (mappings : list ColumnMapping) :
  (forall data1 data2 : list Transaction,
     let r := compareFilesWithMappings mappings data1 data2 in
     let pairs := fifoPairs mappings data1 data2 in
     resMatched r = omap (matchedEntry data1 data2) pairs
     /\ length (resMatched r) = length pairs
     /\ (forall t j,
           (t, j) ∈ pairs
           <-> exists k i,
                 JsString.truthy k = true
                 /\ positions (key1 mappings) k data1 !! i = Some t
                 /\ positions (key2 mappings) k data2 !! i = Some j)
     /\ NoDup pairs.*1
     /\ NoDup pairs.*2
     /\ (forall k i a b,
           JsString.truthy k = true ->
           rowsWithKey (key1 mappings) k data1 !! i = Some a ->
           rowsWithKey (key2 mappings) k data2 !! i = Some b ->
           Js.set a "_matchedWith" (VObj b) ∈ resMatched r))
  /\ (forall stream1 stream2 : list (list Transaction),
        let data1 := concat stream1 in
        let data2 := concat stream2 in
        let r := Streaming.compareUniqueItemStreams mappings stream1 stream2 in
        let pairs := fifoPairs mappings data1 data2 in
        resMatched r = omap (matchedEntryStreamed data1 data2) pairs
        /\ length (resMatched r) = length pairs
        /\ (forall k i a b,
              JsString.truthy k = true ->
              rowsWithKey (key1 mappings) k data1 !! i = Some a ->
              rowsWithKey (key2 mappings) k data2 !! i = Some b ->
              Js.set a "_matchedWith" (VObj (Js.remove b Streaming.indexKey))
                ∈ resMatched r)).
Proof.
  split.
  - intros data1 data2. apply compareFilesWithMappings_fifo.
  - intros stream1 stream2 data1 data2 r pairs.
    destruct (compareUniqueItemStreams_spec mappings stream1 stream2)
      as (Hmatched & Hlen & _).
    fold data1 data2 r pairs in Hmatched, Hlen.
    split_and!; [done..|].
    intros k i a b Hk Ha Hb.
    apply rows_lookup_position in Ha as (t & Ht & Hta).
    apply rows_lookup_position in Hb as (j & Hj & Hjb).
    rewrite Hmatched. apply list_elem_of_omap. exists (t, j). split.
    + apply elem_of_fifoPairs. by exists k, i.
    + unfold matchedEntryStreamed. simpl. by rewrite Hta, Hjb.
Qed.

(** ** The exporter *)

Example processMatchedItem_disjoint_columns :
  processMatchedItem
    (VObj [("id", VStr "1"); ("_matchedWith", VObj [("ref", VStr "A")])])
  = VObj [("id", VStr "1"); ("File2_ref", VStr "A")].
Proof. vm_compute. reflexivity. Qed.

(** C9 (the code departs from the claim).  The guard of [processMatchedItem]
    tests the entry's own key, not the prefixed name.  A back-reference
    field whose name is also a column of the row is dropped although no
    [File2_] column exists; and a field whose prefixed name is already a
    column of the row is not dropped: it overwrites that column. *)
Theorem C9_flattening_tests_the_unprefixed_key :
  processMatchedItem
    (VObj [("id", VStr "1"); ("amt", VStr "10");
           ("_matchedWith", VObj [("id", VStr "1"); ("amt", VStr "12")])])
  = VObj [("id", VStr "1"); ("amt", VStr "10")]
  /\ processMatchedItem
       (VObj [("File2_a", VStr "x"); ("_matchedWith", VObj [("a", VStr "y")])])
     = VObj [("File2_a", VStr "y")].
Proof. vm_compute. done. Qed.


Lemma isObject_truthy v : Js.isObject v = true -> Js.truthy v = true.
Proof. by destruct v. Qed.

Lemma isObject_not_nullish v : Js.isObject v = true -> Js.nullish v = false.
Proof. by destruct v. Qed.

Lemma filter_all {A : Type} (f : A -> bool) (l : list A) :
  Forall (fun x => f x = true) l -> List.filter f l = l.
Proof.
  induction 1 as [|x l Hx _ IH]; simpl; [done|]. by rewrite Hx, IH.
Qed.



Section ProcessSheetDataFacts.
Variable jsonLength : value -> N.
Variable toLocaleString : N -> string.


End ProcessSheetDataFacts.


(** ** Validation comes first *)

Lemma has_keys (o : Transaction) k : Js.has o k = true <-> k ∈ Js.keys o.
Proof.
  unfold Js.has, Js.keys. rewrite existsb_exists. split.
  - intros ([k' v] & Hin & Heq). simpl in Heq. apply String.eqb_eq in Heq. subst k'.
    apply list_elem_of_fmap. exists (k, v). split; [done|]. by apply list_elem_of_In.
  - intros Hin. apply list_elem_of_fmap in Hin as ([k' v] & -> & Hin).
    exists (k', v). split; [by apply list_elem_of_In|]. apply String.eqb_refl.
Qed.

Lemma in_keys (o : Transaction) k :
  Js.in_ o k = true <-> k ∈ Js.keys o ++ Js.objectPrototypeNames.
Proof.
  unfold Js.in_. rewrite orb_true_iff, has_keys, bool_decide_eq_true, elem_of_app. done.
Qed.

Lemma in_false_keys (o : Transaction) k :
  Js.in_ o k = false <-> k ∉ Js.keys o ++ Js.objectPrototypeNames.
Proof.
  rewrite <- in_keys. destruct (Js.in_ o k); split; intros H; done.
Qed.

(** The test [column in sample] fails exactly for a column that is neither a
    key of the sample nor inherited. *)
Lemma validateColumnMappings_missing file1Sample file2Sample mappings :
  Exists (missingColumn (Js.keys file1Sample ++ Js.objectPrototypeNames)
            (Js.keys file2Sample ++ Js.objectPrototypeNames)) mappings ->
  exists message,
    validateColumnMappings file1Sample file2Sample mappings = ([], inl message)
    /\ columnNotFound mappings (Js.keys file1Sample ++ Js.objectPrototypeNames)
         (Js.keys file2Sample ++ Js.objectPrototypeNames) "data" "data" message.
Proof.
  induction mappings as [|m rest IH]; intros Hex; [by inversion Hex|].
  simpl.
  destruct (Js.in_ file1Sample (file1Column m)) eqn:H1; simpl.
  2:{ eexists. split; [done|]. exists m. split; [left|].
      left. split; [by apply in_false_keys|done]. }
  destruct (Js.in_ file2Sample (file2Column m)) eqn:H2; simpl.
  2:{ eexists. split; [done|]. exists m. split; [left|].
      right. split; [by apply in_false_keys|done]. }
  apply in_keys in H1, H2.
  apply Exists_cons in Hex as [[Hm|Hm]|Hex]; [done|done|].
  destruct (IH Hex) as (message & Hv & m' & Hin & Hmsg).
  exists message. split; [done|]. exists m'. split; [by right|done].
Qed.

Lemma validateColumnMappingsAgainstHeaders_missing file1Headers file2Headers mappings :
  Exists (missingColumn file1Headers file2Headers) mappings ->
  exists message,
    Streaming.validateColumnMappingsAgainstHeaders file1Headers file2Headers mappings
    = ([], inl message)
    /\ columnNotFound mappings file1Headers file2Headers
         ("headers. Available: " +:+ JsString.join ", " file1Headers)
         ("headers. Available: " +:+ JsString.join ", " file2Headers) message.
Proof.
  induction mappings as [|m rest IH]; intros Hex; [by inversion Hex|].
  simpl.
  case_bool_decide as H1; simpl.
  2:{ eexists. split; [done|]. exists m. split; [left|].
      left. split; [done|]. reflexivity. }
  case_bool_decide as H2; simpl.
  2:{ eexists. split; [done|]. exists m. split; [left|].
      right. split; [done|]. reflexivity. }
  apply Exists_cons in Hex as [[Hm|Hm]|Hex]; [done|done|].
  destruct (IH Hex) as (message & Hv & m' & Hin & Hmsg).
  exists message. split; [done|]. exists m'. split; [by right|done].
Qed.

Section OrchestratorFacts.
Variable File : Type.
Variable getSheetData : File -> string -> string + list Transaction.
Variable getSheetColumnsWithWorker : File -> string -> string + list string.
Variable getSheetDataStreamed : File -> string -> list (list Transaction).
Variables file1 file2 : File.
Variables sheet1 sheet2 : string.

(** Both versions of [processFiles] reject an empty mapping list at once,
    with nothing logged. *)
Lemma processFiles_rejects_no_mappings :
  processFiles File getSheetData file1 file2 sheet1 sheet2 []
  = ([], inl "No column mappings provided")
  /\ Streaming.processFiles File getSheetColumnsWithWorker getSheetDataStreamed
       file1 file2 sheet1 sheet2 []
     = ([], inl "No column mappings provided").
Proof. done. Qed.

(** When a mapping names a column that the first row read neither has nor
    inherits, the array version ends in a validation error that names such a
    column, and its log stops at the validation: no duplicate scan and no
    comparison was started. *)
Lemma processFiles_validates_before_processing mappings row1 rest1 row2 rest2 :
  getSheetData file1 sheet1 = inr (row1 :: rest1) ->
  getSheetData file2 sheet2 = inr (row2 :: rest2) ->
  Exists (missingColumn (Js.keys row1 ++ Js.objectPrototypeNames)
            (Js.keys row2 ++ Js.objectPrototypeNames)) mappings ->
  exists message,
    processFiles File getSheetData file1 file2 sheet1 sheet2 mappings
    = (arrayPreamble sheet1 sheet2, inl message)
    /\ columnNotFound mappings (Js.keys row1 ++ Js.objectPrototypeNames)
         (Js.keys row2 ++ Js.objectPrototypeNames) "data" "data" message.
Proof.
  intros Hd1 Hd2 Hex.
  destruct (validateColumnMappings_missing row1 row2 mappings Hex)
    as (message & Hv & Hmsg).
  exists message. split; [|done].
  unfold processFiles.
  assert (Hne : length mappings <> 0).
  { destruct mappings; [by inversion Hex|done]. }
  rewrite decide_False by done.
  unfold call. rewrite Hd1, Hd2.
  unfold mbind, run_bind, bind, emit. simpl.
  unfold mbind, run_bind, bind. rewrite Hv. done.
Qed.

End OrchestratorFacts.

(** C7.  The array version of [processFiles] tests a mapped column with
    [column in sample], and [in] also finds what a row inherits from
    [Object.prototype].  With the mapping of [constructor] in file 1 to [id]
    in file 2, on two sheets whose only column is [id], the column
    [constructor] is in no header set; yet no validation error is raised: the
    run goes through the scans and the comparison and returns results, in
    which nothing is matched. *)
Theorem C7_inherited_column_name_passes_validation :
  let getSheetData :=
    fun (_ : unit) (_ : string) => @inr string (list Transaction) [[("id", VStr "1")]] in
  (file1Column mappingOnConstructor ∉ Js.keys [("id", VStr "1")])
  /\ exists log res,
       processFiles unit getSheetData tt tt "Sheet1" "Sheet2" [mappingOnConstructor]
       = (log, inr res)
       /\ last log = Some (Progress "Reconciliation complete" 100)
       /\ rrMatched res = [].
Proof.
  cbv zeta. split.
  - intros Hin. apply list_elem_of_singleton in Hin. discriminate.
  - eexists _, _. split; [vm_compute; reflexivity|split; reflexivity].
Qed.

(** ** The matcher writes only to what it allocates *)

Section HeapFacts.
Import Heap.
Variable mappings : list ColumnMapping.
(** The store at the call. *)
Variable h0 : heap.

Lemma preserves_refl h : preserves h h.
Proof. by intros l c. Qed.

Lemma preserves_alloc h c l h' :
  preserves h0 h -> alloc c h = Some (l, h') ->
  preserves h0 h' /\ (l ∉ dom h) /\ h' !! l = Some c
  /\ (forall l' c', h !! l' = Some c' -> h' !! l' = Some c').
Proof.
  intros Hpre Halloc. unfold alloc in Halloc. inversion Halloc; subst. clear Halloc.
  pose proof (is_fresh (dom h)) as Hfresh.
  assert (Hkeep : forall l' c', h !! l' = Some c' ->
                    <[fresh (dom h) := c]> h !! l' = Some c').
  { intros l' c' Hl'. rewrite lookup_insert_ne; [done|].
    intros <-. apply Hfresh. apply elem_of_dom. eauto. }
  split_and!; [|done|by rewrite lookup_insert_eq|done].
  intros l' c' Hl'. by apply Hkeep, Hpre.
Qed.

(** A write to an array that the call owns. *)
Lemma preserves_writeArray h l elems h' :
  preserves h0 h -> l ∉ dom h0 ->
  writeArray l elems h = Some (tt, h') ->
  preserves h0 h' /\ h' = <[l := CArray elems]> h.
Proof.
  intros Hpre Hown Hw. unfold writeArray in Hw.
  destruct (h !! l) as [[|old]|]; try done.
  inversion Hw; subst. split; [|done].
  intros l' c' Hl'. rewrite lookup_insert_ne; [by apply Hpre|].
  intros <-. apply Hown. apply elem_of_dom. eauto.
Qed.

Lemma writeArray_Some h l old elems :
  h !! l = Some (CArray old) ->
  writeArray l elems h = Some (tt, <[l := CArray elems]> h).
Proof. intros Hl. unfold writeArray. by rewrite Hl. Qed.

Lemma readArray_Some h l elems :
  h !! l = Some (CArray elems) -> readArray l h = Some (elems, h).
Proof. intros Hl. unfold readArray. by rewrite Hl. Qed.

Lemma push_Some h l old v :
  h !! l = Some (CArray old) ->
  push l v h = Some (tt, <[l := CArray (old ++ [v])]> h).
Proof.
  intros Hl. unfold push, mbind, prog_bind.
  rewrite (readArray_Some h l old Hl). by apply writeArray_Some with old.
Qed.

Lemma readRow_Some h item :
  isRow h item -> exists props, readRow item h = Some (props, h).
Proof.
  intros (l & props & -> & Hl). exists props. unfold readRow. by rewrite Hl.
Qed.

Lemma isRow_preserved h h' item :
  (forall l c, h !! l = Some c -> h' !! l = Some c) ->
  isRow h item -> isRow h' item.
Proof. intros Hpre (l & props & -> & Hl). exists l, props. split; [done|by apply Hpre]. Qed.

(** The first loop reads rows and leaves the store as it is. *)
Lemma indexItem2_Some h m idx item :
  isRow h item -> exists m', indexItem2 mappings m idx item h = Some (m', h).
Proof.
  intros Hrow. destruct (readRow_Some h item Hrow) as (props & Hread).
  unfold indexItem2, mbind, prog_bind. rewrite Hread. eexists. reflexivity.
Qed.

Lemma indexLoop_Some h elems chunkSize :
  0 < chunkSize -> Forall (isRow h) elems ->
  exists m, forEachChunkOn (indexItem2 mappings) elems chunkSize ∅ h = Some (m, h).
Proof.
  intros Hpos Hrows. unfold forEachChunkOn.
  rewrite forEachChunk_flat by done.
  apply (forEachFrom_invariant _
           (fun _ acc => exists m : gmap string (list nat), acc = Some (m, h))).
  - by exists ∅.
  - intros pre x suf acc Heq (m & ->). simpl.
    apply indexItem2_Some.
    rewrite Forall_forall in Hrows. apply Hrows.
    rewrite Heq. apply elem_of_app. right. left.
Qed.

Lemma preserves_dom h l : preserves h0 h -> l ∉ dom h -> l ∉ dom h0.
Proof.
  intros Hpre Hl Hin. apply Hl. apply elem_of_dom in Hin as [c Hc].
  apply elem_of_dom. exists c. by apply Hpre.
Qed.

Lemma preserves_insert_own h l c :
  preserves h0 h -> l ∉ dom h0 -> preserves h0 (<[l := c]> h).
Proof.
  intros Hpre Hown l' c' Hl'. rewrite lookup_insert_ne; [by apply Hpre|].
  intros <-. apply Hown. apply elem_of_dom. eauto.
Qed.

Lemma elem_of_hset (o : list (string * hvalue)) k v : (k, v) ∈ hset o k v.
Proof.
  induction o as [|[k' v'] o IH]; simpl; [left|].
  destruct (String.eqb k' k) eqn:E.
  - apply String.eqb_eq in E. subst. left.
  - by right.
Qed.

(** A write to an array leaves the entries as they are. *)
Lemma freshEntry_insert_array h l old elems v :
  h !! l = Some (CArray old) ->
  freshEntry h0 h v -> freshEntry h0 (<[l := CArray elems]> h) v.
Proof.
  intros Hl (le & props & item2 & -> & Hfresh & Hle & Hin).
  exists le, props, item2. split_and!; try done.
  rewrite lookup_insert_ne; [done|]. intros <-. congruence.
Qed.

Lemma matchItem1_owns lm l1 l2 st h idx item1 :
  lm ∉ dom h0 -> l1 ∉ dom h0 -> l2 ∉ dom h0 ->
  lm <> l1 -> lm <> l2 -> l1 <> l2 ->
  isRow h0 item1 ->
  ownsArrays h0 lm l1 l2 (Some (st, h)) ->
  ownsArrays h0 lm l1 l2 (matchItem1 mappings st idx item1 h).
Proof.
  intros Hlm Hl1 Hl2 Hm1 Hm2 H12 Hrow
         (st' & h' & entries & only1 & working & Hacc & Hpre
          & (Hm & H1 & H2) & Hmatched & Honly & Hwork & Hfresh).
  inversion Hacc; subst st' h'. clear Hacc.
  destruct (readRow_Some h item1 (isRow_preserved h0 h item1 Hpre Hrow))
    as (props1 & Hread).
  unfold matchItem1, mbind, prog_bind. rewrite Hread.
  set (key := createCompositeKey (shallowRow props1) mappings true).
  assert (Hunmatched :
            ownsArrays h0 lm l1 l2
              (match push (locInFile1Only st) item1 h with
               | Some (_, h') => (mret st : Prog Locals) h'
               | None => None
               end)).
  { rewrite H1, (push_Some h l1 only1 item1 Honly).
    exists st, (<[l1 := CArray (only1 ++ [item1])]> h), entries,
           (only1 ++ [item1]), working.
    split_and!; try done.
    - by apply preserves_insert_own.
    - by rewrite lookup_insert_ne.
    - by rewrite lookup_insert_eq.
    - by rewrite lookup_insert_ne.
    - eapply Forall_impl; [exact Hfresh|].
      intros v Hv. by apply freshEntry_insert_array with only1. }
  destruct (if JsString.truthy key then file2Map st !! key else None)
    as [[|matchIndex indices]|]; [done| |done].
  rewrite H2, (readArray_Some h l2 working Hwork).
  set (entry := CObject (hset props1 "_matchedWith" (hat working matchIndex))).
  destruct (alloc entry h) as [[le h1]|] eqn:Halloc; [|done].
  destruct (preserves_alloc h entry le h1 Hpre Halloc)
    as (Hpre1 & Hle & Hentry & Hkeep).
  rewrite Hm, (push_Some h1 lm entries (HRef le) (Hkeep _ _ Hmatched)).
  set (h2 := <[lm := CArray (entries ++ [HRef le])]> h1).
  assert (Hwork2 : h2 !! l2 = Some (CArray working)).
  { unfold h2. rewrite lookup_insert_ne by done. by apply Hkeep. }
  rewrite (readArray_Some h2 l2 working Hwork2).
  rewrite (writeArray_Some h2 l2 working _ Hwork2).
  eexists _, _, (entries ++ [HRef le]), only1, _.
  split_and!; try done.
  - apply preserves_insert_own; [|done].
    apply preserves_insert_own; [|done]. done.
  - rewrite lookup_insert_ne by done. unfold h2. by rewrite lookup_insert_eq.
  - rewrite lookup_insert_ne by done. unfold h2.
    rewrite lookup_insert_ne by done. by apply Hkeep.
  - by rewrite lookup_insert_eq.
  - assert (Hle_lm : le <> lm).
    { intros ->. apply Hle. apply elem_of_dom. eauto. }
    assert (Hle_l2 : le <> l2).
    { intros ->. apply Hle. apply elem_of_dom. eauto. }
    apply Forall_app. split.
    + eapply Forall_impl; [exact Hfresh|].
      intros v Hv.
      apply freshEntry_insert_array with working; [done|].
      apply freshEntry_insert_array with entries; [by apply Hkeep|].
      destruct Hv as (l & props & item2 & -> & Hl & Hprops & Hin).
      exists l, props, item2. split_and!; try done. by apply Hkeep.
    + apply Forall_singleton.
      exists le, (hset props1 "_matchedWith" (hat working matchIndex)),
             (hat working matchIndex).
      split_and!; [done|by apply preserves_dom with h| |apply elem_of_hset].
      rewrite lookup_insert_ne by done. unfold h2.
      by rewrite lookup_insert_ne.
Qed.

Lemma matchLoop_owns lm l1 l2 st h elems chunkSize :
  0 < chunkSize ->
  lm ∉ dom h0 -> l1 ∉ dom h0 -> l2 ∉ dom h0 ->
  lm <> l1 -> lm <> l2 -> l1 <> l2 ->
  Forall (isRow h0) elems ->
  ownsArrays h0 lm l1 l2 (Some (st, h)) ->
  ownsArrays h0 lm l1 l2 (forEachChunkOn (matchItem1 mappings) elems chunkSize st h).
Proof.
  intros Hpos Hlm Hl1 Hl2 Hm1 Hm2 H12 Hrows Hinit. unfold forEachChunkOn.
  rewrite forEachChunk_flat by done.
  apply (forEachFrom_invariant _ (fun _ acc => ownsArrays h0 lm l1 l2 acc)).
  - done.
  - intros pre x suf acc Heq Hacc.
    pose proof Hacc as (st' & h' & _ & _ & _ & -> & _). simpl.
    apply matchItem1_owns; try done.
    rewrite Forall_forall in Hrows. apply Hrows.
    rewrite Heq. apply elem_of_app. right. left.
Qed.

End HeapFacts.

(** C10.  On a store in which [data1] and [data2] are arrays of row objects,
    [compareFilesWithMappings] runs to the end and changes no cell of the
    store it was given: the two input arrays and every row object are as
    they were.  The three arrays it returns are new, and every entry of the
    matched array is a reference to an object that did not exist before the
    call and carries the property [_matchedWith]. *)
Theorem C10_compare_does_not_mutate_its_inputs
    (mappings : list ColumnMapping) (h : Heap.heap) (data1 data2 : nat) :
  Heap.wellFormed h data1 data2 ->
  exists matched inFile1Only inFile2Only h',
    Heap.compareFilesWithMappings mappings data1 data2 h
    = Some ((matched, inFile1Only, inFile2Only), h')
    /\ Heap.preserves h h'
    /\ (matched ∉ dom h) /\ (inFile1Only ∉ dom h) /\ (inFile2Only ∉ dom h)
    /\ exists entries,
         h' !! matched = Some (Heap.CArray entries)
         /\ Forall (freshEntry h h') entries.
Proof.
  intros (elems1 & elems2 & Hd1 & Hd2 & Hrows1 & Hrows2).
  unfold Heap.compareFilesWithMappings, mbind, Heap.prog_bind.
  destruct (Heap.alloc (Heap.CArray []) h) as [[lm h1]|] eqn:Ha1; [|done].
  destruct (preserves_alloc h h (Heap.CArray []) lm h1 (preserves_refl h) Ha1)
    as (Hpre1 & Hlm & Hlm1 & Hkeep1).
  destruct (Heap.alloc (Heap.CArray []) h1) as [[l1 h2]|] eqn:Ha2; [|done].
  destruct (preserves_alloc h h1 (Heap.CArray []) l1 h2 Hpre1 Ha2)
    as (Hpre2 & Hl1 & Hl12 & Hkeep2).
  rewrite (readArray_Some h2 data2 elems2 (Hpre2 _ _ Hd2)).
  destruct (Heap.alloc (Heap.CArray elems2) h2) as [[l2 h3]|] eqn:Ha3; [|done].
  destruct (preserves_alloc h h2 (Heap.CArray elems2) l2 h3 Hpre2 Ha3)
    as (Hpre3 & Hl2 & Hl23 & Hkeep3).
  destruct (indexLoop_Some mappings h3 elems2 1000 ltac:(lia)) as (m & Hindex).
  { eapply Forall_impl; [exact Hrows2|].
    intros v Hv. by apply isRow_preserved with h. }
  rewrite Hindex.
  rewrite (readArray_Some h3 data1 elems1 (Hpre3 _ _ Hd1)).
  assert (Hlm_l1 : lm <> l1).
  { intros <-. apply Hl1. apply elem_of_dom. eauto. }
  assert (Hlm_l2 : lm <> l2).
  { intros <-. apply Hl2. apply elem_of_dom. eauto. }
  assert (Hl1_l2 : l1 <> l2).
  { intros <-. apply Hl2. apply elem_of_dom. eauto. }
  pose proof (matchLoop_owns mappings h lm l1 l2
                {| Heap.locMatched := lm; Heap.locInFile1Only := l1;
                   Heap.locInFile2Only := l2; Heap.file2Map := m |}
                h3 elems1 1000 ltac:(lia)) as Hloop.
  destruct Hloop as (st & h4 & entries & only1 & working & Hrun & Hpre4
                     & (Hm & H1 & H2) & Hmatched & Honly & Hwork & Hfresh);
    try done.
  { by apply preserves_dom with h1. }
  { by apply preserves_dom with h2. }
  { exists {| Heap.locMatched := lm; Heap.locInFile1Only := l1;
              Heap.locInFile2Only := l2; Heap.file2Map := m |},
           h3, [], [], elems2.
    split_and!; try done.
    - by apply Hkeep3, Hkeep2.
    - by apply Hkeep3. }
  rewrite Hrun, H2, (readArray_Some h4 l2 working Hwork).
  destruct (Heap.alloc (Heap.CArray (List.filter Heap.htruthy working)) h4)
    as [[lf h5]|] eqn:Ha5; [|done].
  destruct (preserves_alloc h h4 _ lf h5 Hpre4 Ha5)
    as (Hpre5 & Hlf & Hlf5 & Hkeep5).
  exists lm, l1, lf, h5. rewrite Hm, H1.
  split_and!; try done.
  - by apply preserves_dom with h1.
  - by apply preserves_dom with h4.
  - exists entries. split; [by apply Hkeep5|].
    eapply Forall_impl; [exact Hfresh|].
    intros v (l & props & item2 & -> & Hl & Hprops & Hin).
    exists l, props, item2. split_and!; try done. by apply Hkeep5.
Qed.

Example heap_run_shares_the_matched_row :
  match Heap.compareFilesWithMappings [mappingOnId] 10 11 exampleStore with
  | Some ((matched, _, inFile2Only), h') =>
      h' !! 10 = exampleStore !! 10
      /\ h' !! 11 = exampleStore !! 11
      /\ h' !! matched = Some (Heap.CArray [Heap.HRef 15])
      /\ h' !! 15 = Some (Heap.CObject [("id", Heap.HStr "1"); ("n", Heap.HStr "a");
                                         ("_matchedWith", Heap.HRef 3)])
      /\ h' !! inFile2Only = Some (Heap.CArray [Heap.HRef 2])
  | None => False
  end.
Proof. vm_compute. done. Qed.

Lemma C10_compare_does_not_mutate_its_inputs_witness :
  exists matched inFile1Only inFile2Only h',
    Heap.compareFilesWithMappings [mappingOnId] 10 11 exampleStore
    = Some ((matched, inFile1Only, inFile2Only), h')
    /\ Heap.preserves exampleStore h'.
Proof.
  destruct (C10_compare_does_not_mutate_its_inputs [mappingOnId] exampleStore 10 11)
    as (matched & inFile1Only & inFile2Only & h' & Hrun & Hpre & _).
  - exists [Heap.HRef 0; Heap.HRef 1], [Heap.HRef 2; Heap.HRef 3].
    split_and!; [reflexivity|reflexivity| |];
      repeat (constructor; [eexists _, _; split; reflexivity|]); constructor.
  - exists matched, inFile1Only, inFile2Only, h'. by split.
Defined.

(** ** The run on the store computes the same pairing *)

Section HeapRefinement.
Variable mappings : list ColumnMapping.
Variable h0 : Heap.heap.
Variables elems1 elems2 : list Heap.hvalue.

Abbreviation rowOfElem := (fun v => Heap.shallowRow (propsOf h0 v)).
Abbreviation rows1 := (rowsOf h0 elems1).
Abbreviation rows2 := (rowsOf h0 elems2).

Lemma readRow_propsOf h item :
  Heap.preserves h0 h -> Heap.isRow h0 item ->
  Heap.readRow item h = Some (propsOf h0 item, h).
Proof.
  intros Hpre (l & props & -> & Hl). unfold Heap.readRow, propsOf.
  by rewrite Hl, (Hpre _ _ Hl).
Qed.

Lemma heap_indexLoop h (elems : list Heap.hvalue) : forall idx m,
  Heap.preserves h0 h ->
  Forall (Heap.isRow h0) elems ->
  forEachFrom (Heap.stepOn (Heap.indexItem2 mappings)) elems idx (Some (m, h))
  = Some (forEachFrom (indexItem2 mappings) (rowsOf h0 elems) idx m, h).
Proof.
  induction elems as [|x elems IH]; intros idx m Hpre Hrows; [done|].
  apply Forall_cons in Hrows as [Hx Hrows]. simpl.
  unfold Heap.indexItem2 at 2, mbind, Heap.prog_bind.
  rewrite (readRow_propsOf h x Hpre Hx). simpl.
  by apply IH.
Qed.

Lemma heapWorkingCopy_lookup js j :
  heapWorkingCopy elems2 js !! j
  = (fun v => if bool_decide (j ∈ js) then Heap.HNull else v) <$> elems2 !! j.
Proof. unfold heapWorkingCopy. by rewrite list_lookup_imap. Qed.

Lemma length_heapWorkingCopy js : length (heapWorkingCopy elems2 js) = length elems2.
Proof. unfold heapWorkingCopy. by rewrite length_imap. Qed.

Lemma heapWorkingCopy_insert js j :
  <[j := Heap.HNull]> (heapWorkingCopy elems2 js) = heapWorkingCopy elems2 (js ++ [j]).
Proof.
  apply list_eq. intros i.
  rewrite heapWorkingCopy_lookup.
  destruct (decide (i = j)) as [->|Hne].
  - destruct (elems2 !! j) as [y|] eqn:Hy.
    + rewrite list_lookup_insert_eq
        by (rewrite length_heapWorkingCopy; by eapply lookup_lt_Some).
      simpl. rewrite bool_decide_eq_true_2; [done|].
      apply elem_of_app. right. by apply list_elem_of_singleton.
    + rewrite list_insert_ge
        by (rewrite length_heapWorkingCopy; by apply lookup_ge_None).
      by rewrite heapWorkingCopy_lookup, Hy.
  - rewrite list_lookup_insert_ne by done.
    rewrite heapWorkingCopy_lookup.
    destruct (elems2 !! i) as [y|]; [simpl|done].
    f_equal. apply (f_equal (fun b : bool => if b then Heap.HNull else y)).
    apply bool_decide_ext. rewrite elem_of_app, list_elem_of_singleton.
    split; [by left|by intros [?|?]].
Qed.

Lemma heapUnpairedUpTo_S n :
  heapUnpairedUpTo mappings h0 elems1 elems2 (S n)
  = heapUnpairedUpTo mappings h0 elems1 elems2 n
    ++ match fifoPartner mappings rows1 rows2 n with
       | Some _ => []
       | None => match elems1 !! n with Some x => [x] | None => [] end
       end.
Proof.
  unfold heapUnpairedUpTo. rewrite seq_S, omap_app. simpl.
  destruct (fifoPartner mappings rows1 rows2 n); [done|]. by destruct (elems1 !! n).
Qed.

(** An entry object is not one of the arrays, so a write to an array leaves
    it as it is. *)
Lemma entries_insert_array (h : Heap.heap) l old elems (entries : list nat)
    (ps : list (nat * nat)) :
  h !! l = Some (Heap.CArray old) ->
  Forall2 (fun le p => h !! le = Some (Heap.CObject (entryProps h0 elems1 elems2 p)))
    entries ps ->
  Forall2 (fun le p => <[l := Heap.CArray elems]> h !! le
                       = Some (Heap.CObject (entryProps h0 elems1 elems2 p)))
    entries ps.
Proof.
  intros Hl Hall. eapply Forall2_impl; [exact Hall|]. intros le p Hle.
  simpl. rewrite lookup_insert_ne; [done|]. intros <-. congruence.
Qed.

Lemma heapSim_step lm l1 l2 pre x suf sp st h :
  lm ∉ dom h0 -> l1 ∉ dom h0 -> l2 ∉ dom h0 ->
  lm <> l1 -> lm <> l2 -> l1 <> l2 ->
  elems1 = pre ++ x :: suf ->
  Heap.isRow h0 x ->
  compareInv mappings rows1 rows2 (rowsOf h0 pre) sp ->
  ownsArrays h0 lm l1 l2 (Some (st, h)) ->
  heapSim mappings h0 elems1 elems2 lm l1 l2 (length pre) sp (Some (st, h)) ->
  heapSim mappings h0 elems1 elems2 lm l1 l2 (S (length pre))
    (matchItem1 mappings sp (length pre) (rowOfElem x))
    (Heap.matchItem1 mappings st (length pre) x h).
Proof.
  intros Hlm Hl1 Hl2 Hm1 Hm2 H12 Helems Hrow Hinv
         (st' & h' & entries0 & only1 & working0 & Hacc & Hpre
          & (Hm & H1 & H2) & _)
         (st'' & h'' & entries & Hacc' & Hmap & Hwork & Honly & Hmatched & Hentries).
  inversion Hacc; subst st' h'. inversion Hacc'; subst st'' h''. clear Hacc Hacc'.
  assert (Hrows1 : rows1 = rowsOf h0 pre ++ rowOfElem x :: rowsOf h0 suf).
  { unfold rowsOf. rewrite Helems, fmap_app. done. }
  assert (Hlenpre : length (rowsOf h0 pre) = length pre).
  { unfold rowsOf. by rewrite length_fmap. }
  pose proof (pending_partner mappings rows1 rows2 _ _ _ sp Hrows1 Hinv) as Hpartner.
  pose proof (compareInv_step mappings rows1 rows2 _ _ _ sp Hrows1 Hinv) as Hinv'.
  rewrite Hlenpre in Hpartner, Hinv'.
  destruct Hinv' as (_ & _ & _ & _ & _ & _ & Hnd & _).
  rewrite length_app, Hlenpre in Hnd. simpl in Hnd.
  replace (length pre + 1) with (S (length pre)) in Hnd by lia.
  assert (Hx : elems1 !! length pre = Some x).
  { rewrite Helems. by apply list_lookup_middle. }
  unfold heapSim, heapPairsUpTo in *.
  rewrite fifoPairsUpTo_S in *. rewrite heapUnpairedUpTo_S, Hx, Hpartner in *.
  unfold Heap.matchItem1, matchItem1, mbind, Heap.prog_bind.
  rewrite (readRow_propsOf h x Hpre Hrow).
  fold (key1 mappings (rowOfElem x)) in *. rewrite Hmap.
  destruct (if JsString.truthy (key1 mappings (rowOfElem x))
            then file2Map sp !! key1 mappings (rowOfElem x) else None)
    as [[|j rest]|] eqn:Hpending.
  1,3: rewrite H1, (push_Some h l1 _ x Honly);
       eexists _, _, entries; rewrite !app_nil_r;
       (split_and!; try done;
        [ by rewrite lookup_insert_ne
        | by rewrite lookup_insert_eq
        | by rewrite lookup_insert_ne
        | by apply entries_insert_array with (heapUnpairedUpTo mappings h0 elems1 elems2 (length pre)) ]).
  (* a match: the pending position [j] is the partner *)
  simpl in Hnd. rewrite fmap_app in Hnd. simpl in Hnd.
  apply NoDup_app in Hnd as (_ & Hfresh & _).
  assert (Hj : j ∉ (fifoPairsUpTo mappings rows1 rows2 (length pre)).*2).
  { intros Hin. apply (Hfresh j Hin). left. }
  rewrite H2, (readArray_Some h l2 _ Hwork).
  set (js := (fifoPairsUpTo mappings rows1 rows2 (length pre)).*2) in *.
  set (item2 := Heap.hat (heapWorkingCopy elems2 js) j).
  destruct (Heap.alloc (Heap.CObject (Heap.hset (propsOf h0 x) "_matchedWith" item2)) h)
    as [[le h1]|] eqn:Halloc; [|done].
  destruct (preserves_alloc h0 h _ le h1 Hpre Halloc) as (Hpre1 & Hle & Hentry & Hkeep).
  rewrite Hm, (push_Some h1 lm _ (Heap.HRef le) (Hkeep _ _ Hmatched)).
  set (h2 := <[lm := _]> h1).
  assert (Hwork2 : h2 !! l2 = Some (Heap.CArray (heapWorkingCopy elems2 js))).
  { unfold h2. rewrite lookup_insert_ne by done. by apply Hkeep. }
  rewrite (readArray_Some h2 l2 _ Hwork2), (writeArray_Some h2 l2 _ _ Hwork2).
  assert (Hle_lm : le <> lm) by (intros ->; apply Hle; apply elem_of_dom; eauto).
  assert (Hle_l1 : le <> l1) by (intros ->; apply Hle; apply elem_of_dom; eauto).
  assert (Hle_l2 : le <> l2) by (intros ->; apply Hle; apply elem_of_dom; eauto).
  (* [j] is a position of [data2] *)
  assert (Hjlt : j < length elems2).
  { assert (Hin : j ∈ positions (key2 mappings) (key1 mappings (rowOfElem x)) rows2).
    { pose proof (fifoPartner_next mappings rows1 rows2 _ _ _ Hrows1) as Hnext.
      rewrite Hlenpre, Hpartner in Hnext.
      destruct (JsString.truthy (key1 mappings (rowOfElem x))); [|done].
      apply list_elem_of_lookup. eauto. }
    apply elem_of_positions in Hin as (b & Hb & _).
    apply lookup_lt_Some in Hb. unfold rowsOf in Hb. by rewrite length_fmap in Hb. }
  assert (Hitem2 : item2 = nth j elems2 Heap.HUndefined).
  { unfold item2, Heap.hat.
    destruct (lookup_lt_is_Some_2 elems2 j Hjlt) as [v Hv].
    rewrite (nth_lookup_Some _ _ _ _ Hv).
    apply nth_lookup_Some. rewrite heapWorkingCopy_lookup, Hv. simpl.
    by rewrite bool_decide_eq_false_2. }
  eexists _, _, (entries ++ [le]).
  split_and!; try done.
  - rewrite lookup_insert_eq. unfold Heap.hsetAt.
    rewrite decide_True by (by rewrite length_heapWorkingCopy).
    rewrite heapWorkingCopy_insert. by rewrite fmap_app.
  - rewrite app_nil_r, lookup_insert_ne by done. unfold h2.
    rewrite lookup_insert_ne by done. by apply Hkeep.
  - rewrite lookup_insert_ne by done. unfold h2.
    rewrite lookup_insert_eq. by rewrite fmap_app.
  - apply Forall2_app.
    + apply entries_insert_array with (heapWorkingCopy elems2 js); [done|].
      apply entries_insert_array with (Heap.HRef <$> entries); [by apply Hkeep|].
      eapply Forall2_impl; [exact Hentries|]. intros l p Hl. by apply Hkeep.
    + constructor; [|constructor].
      rewrite lookup_insert_ne by done. unfold h2.
      rewrite lookup_insert_ne by done. rewrite Hentry.
      unfold entryProps. simpl.
      by rewrite (nth_lookup_Some _ _ Heap.HUndefined _ Hx), Hitem2.
Qed.

Lemma heapSim_loop lm l1 l2 m h :
  lm ∉ dom h0 -> l1 ∉ dom h0 -> l2 ∉ dom h0 ->
  lm <> l1 -> lm <> l2 -> l1 <> l2 ->
  Forall (Heap.isRow h0) elems1 ->
  indexInv mappings rows2 m ->
  let st0 := {| Heap.locMatched := lm; Heap.locInFile1Only := l1;
                Heap.locInFile2Only := l2; Heap.file2Map := m |} in
  ownsArrays h0 lm l1 l2 (Some (st0, h)) ->
  h !! lm = Some (Heap.CArray []) ->
  h !! l1 = Some (Heap.CArray []) ->
  h !! l2 = Some (Heap.CArray elems2) ->
  exists sp,
    heapSim mappings h0 elems1 elems2 lm l1 l2 (length elems1) sp
      (Heap.forEachChunkOn (Heap.matchItem1 mappings) elems1 1000 st0 h)
    /\ ownsArrays h0 lm l1 l2
         (Heap.forEachChunkOn (Heap.matchItem1 mappings) elems1 1000 st0 h).
Proof.
  intros Hlm Hl1 Hl2 Hm1 Hm2 H12 Hrows Hindex st0 Howns Hm H1 H2.
  unfold Heap.forEachChunkOn. rewrite forEachChunk_flat by lia.
  pose (P := fun (pre : list Heap.hvalue) (acc : option (Heap.Locals * Heap.heap)) =>
               exists sp,
                 compareInv mappings rows1 rows2 (rowsOf h0 pre) sp
                 /\ ownsArrays h0 lm l1 l2 acc
                 /\ heapSim mappings h0 elems1 elems2 lm l1 l2 (length pre) sp acc).
  assert (Hfinal : P elems1
            (forEachFrom (Heap.stepOn (Heap.matchItem1 mappings)) elems1 0
               (Some (st0, h)))).
  { apply (forEachFrom_invariant _ P).
    - exists {| matched := []; inFile1Only := [];
                inFile2Only := VObj <$> rows2; file2Map := m |}.
      split_and!; [by apply compareInv_init|done|].
      exists st0, h, []. split_and!; try done.
      rewrite H2. do 2 f_equal. apply list_eq. intros j.
      rewrite heapWorkingCopy_lookup. by destruct (elems2 !! j).
    - intros pre x suf acc Heq (sp & Hinv & Hown & Hsim).
      pose proof Hown as (st & h' & _ & _ & _ & -> & _).
      assert (Hx : Heap.isRow h0 x).
      { rewrite Forall_forall in Hrows. apply Hrows.
        rewrite Heq. apply elem_of_app. right. left. }
      exists (matchItem1 mappings sp (length pre) (rowOfElem x)).
      rewrite length_app. simpl.
      replace (length pre + 1) with (S (length pre)) by lia.
      split_and!.
      + unfold rowsOf. rewrite fmap_app. simpl.
        replace (length pre) with (length (rowsOf h0 pre))
          by (unfold rowsOf; by rewrite length_fmap).
        apply compareInv_step with (rowsOf h0 suf); [|done].
        unfold rowsOf. by rewrite Heq, fmap_app.
      + by apply matchItem1_owns.
      + by apply heapSim_step with suf. }
  destruct Hfinal as (sp & _ & Hown & Hsim). by exists sp.
Qed.

(** What [filter(Boolean)] keeps of the working copy on the store. *)
Lemma filter_htruthy_imap (P : nat -> Prop) `{!forall j, Decision (P j)}
    (g : nat -> nat) (elems : list Heap.hvalue) :
  Forall (fun v => Heap.htruthy v = true) elems ->
  List.filter Heap.htruthy
    (imap (fun j v => if bool_decide (P (g j)) then Heap.HNull else v) elems)
  = (filter (fun p : nat * Heap.hvalue => ~ P p.1)
       (imap (fun j v => (g j, v)) elems)).*2.
Proof.
  revert g. induction elems as [|y elems IH]; intros g Hall; [done|].
  apply Forall_cons in Hall as [Hy Hall].
  simpl. rewrite filter_cons. simpl.
  specialize (IH (g ∘ S) Hall). unfold compose in IH. simpl in IH.
  case_bool_decide as HP; simpl.
  - rewrite decide_False by tauto. apply IH.
  - rewrite decide_True by done. rewrite Hy. simpl. f_equal. apply IH.
Qed.

Lemma isRow_htruthy h v : Heap.isRow h v -> Heap.htruthy v = true.
Proof. by intros (l & props & -> & _). Qed.

End HeapRefinement.

(** The run of [compareFilesWithMappings] on the store, in the words of the
    specification: the matched array holds one new object for each pair, in
    the order of [data1], with the properties of the row of [data1] and
    [_matchedWith] referring to the row of [data2]; [inFile1Only] holds the
    rows of [data1] without a partner and [inFile2Only] the rows of [data2]
    that no pair has taken, both as the references the inputs hold. *)
Lemma heap_compare_computes_the_pairing
    (mappings : list ColumnMapping) (h : Heap.heap) (data1 data2 : nat)
    (elems1 elems2 : list Heap.hvalue) :
  h !! data1 = Some (Heap.CArray elems1) ->
  h !! data2 = Some (Heap.CArray elems2) ->
  Forall (Heap.isRow h) elems1 ->
  Forall (Heap.isRow h) elems2 ->
  let pairs := fifoPairs mappings (rowsOf h elems1) (rowsOf h elems2) in
  exists lm l1 lf h' entries,
    Heap.compareFilesWithMappings mappings data1 data2 h = Some ((lm, l1, lf), h')
    /\ h' !! lm = Some (Heap.CArray (Heap.HRef <$> entries))
    /\ Forall2 (fun le p => h' !! le = Some (Heap.CObject (entryProps h elems1 elems2 p)))
         entries pairs
    /\ h' !! l1
       = Some (Heap.CArray (heapUnpairedUpTo mappings h elems1 elems2 (length elems1)))
    /\ h' !! lf = Some (Heap.CArray (heapUnclaimed elems2 pairs.*2)).
Proof.
  intros Hd1 Hd2 Hrows1 Hrows2 pairs.
  unfold Heap.compareFilesWithMappings, mbind, Heap.prog_bind.
  destruct (Heap.alloc (Heap.CArray []) h) as [[lm h1]|] eqn:Ha1; [|done].
  destruct (preserves_alloc h h (Heap.CArray []) lm h1 (preserves_refl h) Ha1)
    as (Hpre1 & Hlm & Hlm1 & Hkeep1).
  destruct (Heap.alloc (Heap.CArray []) h1) as [[l1 h2]|] eqn:Ha2; [|done].
  destruct (preserves_alloc h h1 (Heap.CArray []) l1 h2 Hpre1 Ha2)
    as (Hpre2 & Hl1 & Hl12 & Hkeep2).
  rewrite (readArray_Some h2 data2 elems2 (Hpre2 _ _ Hd2)).
  destruct (Heap.alloc (Heap.CArray elems2) h2) as [[l2 h3]|] eqn:Ha3; [|done].
  destruct (preserves_alloc h h2 (Heap.CArray elems2) l2 h3 Hpre2 Ha3)
    as (Hpre3 & Hl2 & Hl23 & Hkeep3).
  set (m := forEachFrom (indexItem2 mappings) (rowsOf h elems2) 0 ∅).
  assert (Hindex : Heap.forEachChunkOn (Heap.indexItem2 mappings) elems2 1000 ∅ h3
                   = Some (m, h3)).
  { unfold Heap.forEachChunkOn. rewrite forEachChunk_flat by lia.
    by apply heap_indexLoop. }
  rewrite Hindex.
  rewrite (readArray_Some h3 data1 elems1 (Hpre3 _ _ Hd1)).
  assert (Hlm_l1 : lm <> l1).
  { intros <-. apply Hl1. apply elem_of_dom. eauto. }
  assert (Hlm_l2 : lm <> l2).
  { intros <-. apply Hl2. apply elem_of_dom. eauto. }
  assert (Hl1_l2 : l1 <> l2).
  { intros <-. apply Hl2. apply elem_of_dom. eauto. }
  destruct (heapSim_loop mappings h elems1 elems2 lm l1 l2 m h3)
    as (sp & (st & h4 & entries & Hrun & _ & Hwork & Honly & Hmatched & Hentries)
        & (st' & h4' & _ & _ & _ & Hrun' & Hpre4 & (Hm & H1 & H2) & _));
    try done.
  { by apply preserves_dom with h1. }
  { by apply preserves_dom with h2. }
  { unfold m. rewrite <- (forEachChunk_flat (indexItem2 mappings) _ 1000) by lia.
    apply indexInv_scan. lia. }
  { exists {| Heap.locMatched := lm; Heap.locInFile1Only := l1;
              Heap.locInFile2Only := l2; Heap.file2Map := m |},
           h3, [], [], elems2.
    split_and!; try done.
    - by apply Hkeep3, Hkeep2.
    - by apply Hkeep3. }
  { by apply Hkeep3, Hkeep2. }
  { by apply Hkeep3. }
  rewrite Hrun in Hrun'. inversion Hrun'; subst st' h4'. clear Hrun'.
  assert (Hpairs : heapPairsUpTo mappings h elems1 elems2 (length elems1) = pairs).
  { unfold pairs, fifoPairs, heapPairsUpTo, rowsOf. by rewrite length_fmap. }
  rewrite Hpairs in Hwork, Hentries.
  rewrite Hrun, H2, (readArray_Some h4 l2 _ Hwork).
  destruct (Heap.alloc (Heap.CArray _) h4) as [[lf h5]|] eqn:Ha5; [|done].
  destruct (preserves_alloc h h4 _ lf h5 Hpre4 Ha5)
    as (Hpre5 & Hlf & Hlf5 & Hkeep5).
  exists lm, l1, lf, h5, entries. rewrite Hm, H1.
  split_and!; try done.
  - by apply Hkeep5.
  - eapply Forall2_impl; [exact Hentries|]. intros le p Hle. by apply Hkeep5.
  - by apply Hkeep5.
  - rewrite Hlf5. do 2 f_equal. unfold heapWorkingCopy, heapUnclaimed.
    assert (Hall : Forall (fun v => Heap.htruthy v = true) elems2).
    { eapply Forall_impl; [exact Hrows2|]. intros v. apply isRow_htruthy. }
    exact (filter_htruthy_imap (fun j => j ∈ pairs.*2) (fun j => j) elems2 Hall).
Qed.

(** Read as values, the rows the run on the store leaves in [inFile1Only]
    and [inFile2Only] are the rows the run on values returns. *)
Lemma rowsOf_heapUnpairedUpTo (mappings : list ColumnMapping) (h : Heap.heap)
    (elems1 elems2 : list Heap.hvalue) n :
  rowsOf h (heapUnpairedUpTo mappings h elems1 elems2 n)
  = unpairedUpTo mappings (rowsOf h elems1) (rowsOf h elems2) n.
Proof.
  unfold heapUnpairedUpTo, unpairedUpTo.
  assert (Hl : forall t, rowsOf h elems1 !! t
                         = (fun v => Heap.shallowRow (propsOf h v)) <$> elems1 !! t).
  { intros t. apply list_lookup_fmap. }
  induction (seq 0 n) as [|t ts IH]; [done|]. simpl. rewrite (Hl t).
  destruct (fifoPartner mappings (rowsOf h elems1) (rowsOf h elems2) t); [exact IH|].
  destruct (elems1 !! t) as [y|]; [|exact IH].
  change (rowsOf h (y :: ?l)) with (Heap.shallowRow (propsOf h y) :: rowsOf h l).
  simpl. f_equal. exact IH.
Qed.

Lemma rowsOf_filter_imap (h : Heap.heap) (P : nat -> Prop)
    `{!forall j, Decision (P j)} (g : nat -> nat) (elems : list Heap.hvalue) :
  rowsOf h (filter (fun p : nat * Heap.hvalue => ~ P p.1)
              (imap (fun j v => (g j, v)) elems)).*2
  = (filter (fun p : nat * Transaction => ~ P p.1)
       (imap (fun j row => (g j, row)) (rowsOf h elems))).*2.
Proof.
  revert g. induction elems as [|y elems IH]; intros g; [done|].
  simpl. rewrite !filter_cons. simpl.
  specialize (IH (g ∘ S)). unfold compose in IH. simpl in IH.
  destruct (decide (~ P (g 0))); simpl; [f_equal|]; apply IH.
Qed.

Lemma rowsOf_heapUnclaimed (h : Heap.heap) (elems2 : list Heap.hvalue) js :
  rowsOf h (heapUnclaimed elems2 js) = unclaimed (rowsOf h elems2) js.
Proof.
  unfold heapUnclaimed, unclaimed.
  exact (rowsOf_filter_imap h (fun j => j ∈ js) (fun j => j) elems2).
Qed.

Lemma heap_compare_agrees_with_values
    (mappings : list ColumnMapping) (h : Heap.heap) (data1 data2 : nat)
    (elems1 elems2 : list Heap.hvalue) :
  h !! data1 = Some (Heap.CArray elems1) ->
  h !! data2 = Some (Heap.CArray elems2) ->
  Forall (Heap.isRow h) elems1 ->
  Forall (Heap.isRow h) elems2 ->
  let r := compareFilesWithMappings mappings (rowsOf h elems1) (rowsOf h elems2) in
  exists lm l1 lf h' entries only1 only2,
    Heap.compareFilesWithMappings mappings data1 data2 h = Some ((lm, l1, lf), h')
    /\ h' !! lm = Some (Heap.CArray entries)
    /\ h' !! l1 = Some (Heap.CArray only1)
    /\ h' !! lf = Some (Heap.CArray only2)
    /\ length entries = length (resMatched r)
    /\ resInFile1Only r = rowsOf h only1
    /\ resInFile2Only r = VObj <$> rowsOf h only2.
Proof.
  intros Hd1 Hd2 Hrows1 Hrows2 r.
  destruct (heap_compare_computes_the_pairing mappings h data1 data2 elems1 elems2)
    as (lm & l1 & lf & h' & entries & Hrun & Hm & Hentries & H1 & H2); try done.
  destruct (compareFilesWithMappings_spec mappings (rowsOf h elems1) (rowsOf h elems2))
    as (_ & Hlen & Honly1 & Honly2 & _).
  fold r in Hlen, Honly1, Honly2.
  exists lm, l1, lf, h', (Heap.HRef <$> entries). eexists _, _.
  split_and!; try done.
  - rewrite length_fmap, Hlen. by apply Forall2_length in Hentries.
  - rewrite Honly1, rowsOf_heapUnpairedUpTo. f_equal.
    unfold rowsOf. by rewrite length_fmap.
  - by rewrite Honly2, rowsOf_heapUnclaimed.
Qed.

(** * Further properties of the reconciliation engine *)

(** ** The order of [Array.prototype.sort] on strings *)

Lemma string_compare_not_Gt_trans (a b c : string) :
  String.compare a b <> Gt -> String.compare b c <> Gt -> String.compare a c <> Gt.
Proof.
  revert b c. induction a as [|x a IH]; intros [|y b] [|z c]; simpl; try done.
  unfold Ascii.compare.
  destruct (N.compare_spec (N_of_ascii x) (N_of_ascii y));
    destruct (N.compare_spec (N_of_ascii y) (N_of_ascii z));
    destruct (N.compare_spec (N_of_ascii x) (N_of_ascii z));
    try done; try lia.
  apply IH.
Qed.

#[export] Instance string_le_trans : Transitive JsString.le.
Proof.
  intros a b c. unfold JsString.le, String.leb. intros Hab Hbc.
  pose proof (string_compare_not_Gt_trans a b c) as H.
  destruct (String.compare a b), (String.compare b c), (String.compare a c);
    try done; exfalso; by apply H.
Qed.

#[export] Instance string_le_antisym : AntiSymm eq JsString.le.
Proof. intros a b. apply String.leb_antisym. Qed.

#[export] Instance string_le_total : Total JsString.le.
Proof. intros a b. apply String.leb_total. Qed.

(** Sorting does not depend on the order the strings come in. *)
Lemma sort_Permutation (l1 l2 : list string) :
  l1 ≡ₚ l2 -> JsString.sort l1 = JsString.sort l2.
Proof.
  intros Hperm. unfold JsString.sort.
  apply (Sorted_unique JsString.le); try apply _.
  - apply Sorted_merge_sort, _.
  - apply Sorted_merge_sort, _.
  - by rewrite !merge_sort_Permutation.
Qed.

Lemma StronglySorted_filter {A : Type} (R : relation A) (P : A -> Prop)
    `{!forall x, Decision (P x)} (l : list A) :
  StronglySorted R l -> StronglySorted R (filter P l).
Proof.
  induction 1 as [|x l Hl IH Hx]; [constructor|].
  rewrite filter_cons. destruct (decide (P x)); [|done].
  constructor; [done|].
  rewrite Forall_forall in Hx |- *. intros y Hy.
  apply list_elem_of_filter in Hy as [_ Hy]. by apply Hx.
Qed.

(** Filtering a sorted list and sorting a filtered list come to the same. *)
Lemma filter_sort (P : string -> Prop) `{!forall k, Decision (P k)} (l : list string) :
  filter P (JsString.sort l) = JsString.sort (filter P l).
Proof.
  unfold JsString.sort.
  apply (StronglySorted_unique JsString.le); try apply _.
  - apply StronglySorted_filter. apply StronglySorted_merge_sort; apply _.
  - apply StronglySorted_merge_sort; apply _.
  - by rewrite !merge_sort_Permutation.
Qed.

(** ** [createCompositeKeyFromAllColumns], column by column *)

Lemma object_get_set_ne (o : Transaction) k k' v :
  k <> k' -> Js.get (Js.set o k v) k' = Js.get o k'.
Proof.
  intros Hne. induction o as [|[k0 v0] o IH]; simpl.
  - destruct (String.eqb k k') eqn:E; [|done].
    by apply String.eqb_eq in E.
  - destruct (String.eqb k0 k) eqn:E; simpl.
    + apply String.eqb_eq in E. subst k0.
      destruct (String.eqb k k') eqn:E'; [|done].
      by apply String.eqb_eq in E'.
    + by rewrite IH.
Qed.

Lemma object_keys_set (o : Transaction) k v :
  Js.keys (Js.set o k v) = if Js.has o k then Js.keys o else Js.keys o ++ [k].
Proof.
  unfold Js.keys, Js.has. induction o as [|[k0 v0] o IH]; csimpl; [done|].
  destruct (String.eqb k0 k) eqn:E; csimpl; [done|].
  rewrite IH. by destruct (existsb _ o).
Qed.

Lemma object_get_not_in (o : Transaction) k :
  k ∉ Js.keys o -> Js.get o k = VUndefined.
Proof.
  unfold Js.keys. induction o as [|[k0 v0] o IH]; csimpl; [done|].
  rewrite not_elem_of_cons. intros [Hne Hnot].
  destruct (String.eqb k0 k) eqn:E; [|by apply IH].
  apply String.eqb_eq in E. congruence.
Qed.

Lemma object_get_elem_of (o : Transaction) k v :
  NoDup (Js.keys o) -> (k, v) ∈ o -> Js.get o k = v.
Proof.
  unfold Js.keys. induction o as [|[k0 v0] o IH]; csimpl; intros Hnd Hin.
  - by apply elem_of_nil in Hin.
  - apply NoDup_cons in Hnd as [Hk0 Hnd].
    apply elem_of_cons in Hin as [Heq|Hin].
    + inversion Heq; subst. by rewrite String.eqb_refl.
    + destruct (String.eqb k0 k) eqn:E; [|by apply IH].
      apply String.eqb_eq in E. subst k0. exfalso. apply Hk0.
      apply list_elem_of_fmap. by exists (k, v).
Qed.

(** Property lookup does not depend on the order of the properties. *)
Lemma object_get_Permutation (o1 o2 : Transaction) k :
  NoDup (Js.keys o1) -> o1 ≡ₚ o2 -> Js.get o1 k = Js.get o2 k.
Proof.
  intros Hnd Hperm.
  assert (Hnd2 : NoDup (Js.keys o2)).
  { unfold Js.keys in *. by rewrite <- Hperm. }
  destruct (decide (k ∈ Js.keys o1)) as [Hin|Hnot].
  - apply list_elem_of_fmap in Hin as ([k' v] & -> & Hin). simpl.
    rewrite (object_get_elem_of o1 k' v Hnd Hin).
    symmetry. apply object_get_elem_of; [done|]. by rewrite <- Hperm.
  - rewrite (object_get_not_in o1 k Hnot).
    symmetry. apply object_get_not_in. unfold Js.keys in *. by rewrite <- Hperm.
Qed.

Lemma allColumns_parts (props : Transaction) (keys acc : list string) :
  foldl (fun (keyParts : list string) (key : string) =>
           if JsString.startsWith "_" key then keyParts
           else
             let val := Js.get props key in
             let val := if Js.nullish val then VStr "" else val in
             let val := JsString.trim (Js.toString val) in
             keyParts ++ [key +:+ ":" +:+ val])
        acc keys
  = acc ++ (columnPart props <$> filter visibleColumn keys).
Proof.
  revert acc. induction keys as [|key keys IH]; intros acc; simpl.
  - by rewrite app_nil_r.
  - rewrite IH, filter_cons.
    destruct (decide (visibleColumn key)) as [Hvis|Hvis].
    + unfold visibleColumn in Hvis. rewrite Hvis. csimpl.
      by rewrite <- app_assoc.
    + unfold visibleColumn in Hvis.
      by destruct (JsString.startsWith "_" key).
Qed.

(** The key of a row: the parts of its visible columns, sorted by column
    name and joined by a bar. *)
Lemma allColumns_key (props : Transaction) :
  createCompositeKeyFromAllColumns (VObj props)
  = JsString.join "|" (columnPart props <$> visibleColumns props).
Proof.
  unfold createCompositeKeyFromAllColumns, visibleColumns.
  by rewrite (allColumns_parts props _ []).
Qed.

Lemma columnPart_ext (o1 o2 : Transaction) (keys : list string) :
  (forall k, k ∈ keys -> Js.get o1 k = Js.get o2 k) ->
  columnPart o1 <$> keys = columnPart o2 <$> keys.
Proof.
  intros Hget. apply list_fmap_ext. intros i k Hk.
  unfold columnPart. rewrite Hget; [done|].
  apply list_elem_of_lookup. eauto.
Qed.

(** X1.  The key of a row does not depend on the order of its columns: two
    row objects with the same properties, listed in a different order, have
    the same key, so they are duplicates of each other. *)
Theorem X1_row_key_ignores_column_order (props1 props2 : Transaction) :
  NoDup (Js.keys props1) ->
  props1 ≡ₚ props2 ->
  createCompositeKeyFromAllColumns (VObj props1)
  = createCompositeKeyFromAllColumns (VObj props2).
Proof.
  intros Hnd Hperm. rewrite !allColumns_key. f_equal.
  assert (Hkeys : visibleColumns props1 = visibleColumns props2).
  { unfold visibleColumns. f_equal. apply sort_Permutation.
    unfold Js.keys. by rewrite Hperm. }
  rewrite <- Hkeys. apply columnPart_ext.
  intros k _. by apply object_get_Permutation.
Qed.

(** The rows [{id: "7", amount: " 10 "}] and [{amount: " 10 ", id: "7"}]. *)
Lemma X1_row_key_ignores_column_order_witness :
  createCompositeKeyFromAllColumns
    (VObj [("id", VStr "7"); ("amount", VStr " 10 ")])
  = createCompositeKeyFromAllColumns
      (VObj [("amount", VStr " 10 "); ("id", VStr "7")]).
Proof.
  apply (X1_row_key_ignores_column_order
           [("id", VStr "7"); ("amount", VStr " 10 ")]
           [("amount", VStr " 10 "); ("id", VStr "7")]).
  - apply (bool_decide_unpack _). vm_compute. reflexivity.
  - apply perm_swap.
Defined.

(** X2.  A property whose name starts with an underscore has no part in the
    key: setting one (such as [_matchedWith]) on a row, whether the row had
    it or not, leaves the key as it was. *)
Theorem X2_row_key_ignores_internal_properties
    (props : Transaction) (k : string) (v : value) :
  JsString.startsWith "_" k = true ->
  createCompositeKeyFromAllColumns (VObj (Js.set props k v))
  = createCompositeKeyFromAllColumns (VObj props).
Proof.
  intros Hk. rewrite !allColumns_key.
  assert (Hkeys : visibleColumns (Js.set props k v) = visibleColumns props).
  { unfold visibleColumns. rewrite !filter_sort. f_equal.
    rewrite object_keys_set. destruct (Js.has props k); [done|].
    rewrite filter_app, filter_cons, filter_nil.
    rewrite decide_False by (unfold visibleColumn; congruence).
    by rewrite app_nil_r. }
  rewrite Hkeys. f_equal. apply columnPart_ext.
  intros k' Hk'. apply object_get_set_ne. intros <-.
  unfold visibleColumns in Hk'. apply list_elem_of_filter in Hk' as [Hvis _].
  unfold visibleColumn in Hvis. congruence.
Qed.

Lemma X2_row_key_ignores_internal_properties_witness :
  createCompositeKeyFromAllColumns
    (VObj (Js.set [("id", VStr "7")] "_matchedWith" (VObj [("id", VStr "7")])))
  = createCompositeKeyFromAllColumns (VObj [("id", VStr "7")]).
Proof.
  apply (X2_row_key_ignores_internal_properties
           [("id", VStr "7")] "_matchedWith" (VObj [("id", VStr "7")])).
  reflexivity.
Defined.

Lemma join_cons_empty sep (x : string) (xs : list string) :
  JsString.join sep (x :: xs) = "" -> x = "".
Proof.
  unfold JsString.join. destruct xs; simpl; [done|]. by destruct x.
Qed.

Lemma columnPart_nonempty props k : columnPart props k <> "".
Proof. unfold columnPart. by destruct k. Qed.

Lemma visibleColumns_elem_of props k :
  k ∈ visibleColumns props <-> k ∈ Js.keys props /\ visibleColumn k.
Proof.
  unfold visibleColumns, JsString.sort.
  rewrite list_elem_of_filter, merge_sort_Permutation. tauto.
Qed.

(** The key is empty exactly when the row has no visible column. *)
Lemma allColumns_key_empty (props : Transaction) :
  createCompositeKeyFromAllColumns (VObj props) = ""
  <-> Forall (fun k => JsString.startsWith "_" k = true) (Js.keys props).
Proof.
  rewrite allColumns_key, Forall_forall. split.
  - intros Hempty k Hk.
    destruct (JsString.startsWith "_" k) eqn:Hvis; [done|]. exfalso.
    assert (Hin : k ∈ visibleColumns props) by by apply visibleColumns_elem_of.
    destruct (visibleColumns props) as [|k0 ks]; [by apply elem_of_nil in Hin|].
    csimpl in Hempty. apply join_cons_empty in Hempty.
    by apply columnPart_nonempty in Hempty.
  - intros Hall.
    assert (Hnil : visibleColumns props = []).
    { destruct (visibleColumns props) as [|k0 ks] eqn:E; [done|].
      assert (Hin : k0 ∈ visibleColumns props) by (rewrite E; left).
      apply visibleColumns_elem_of in Hin as [Hin Hvis].
      unfold visibleColumn in Hvis. rewrite (Hall k0 Hin) in Hvis. done. }
    by rewrite Hnil.
Qed.

(** X3.  [findDuplicatesInFile] reports a row, as unique or as a duplicate,
    exactly when the row has a column whose name does not start with an
    underscore.  A row without one (an empty object, or one with internal
    properties only) has the empty key and is in neither list. *)
Theorem X3_rows_without_visible_columns_are_dropped
    (data : list Transaction) (row : Transaction) :
  let r := findDuplicatesInFile data in
  (createCompositeKeyFromAllColumns (VObj row) = ""
   <-> Forall (fun k => JsString.startsWith "_" k = true) (Js.keys row))
  /\ (row ∈ uniqueItems r \/ row ∈ duplicates r
      <-> row ∈ data
          /\ Exists (fun k => JsString.startsWith "_" k = false) (Js.keys row)).
Proof.
  intros r. split; [apply allColumns_key_empty|].
  destruct (partitionInv_scan (fun t => createCompositeKeyFromAllColumns (VObj t))
              data 1000 ltac:(lia)) as (Hperm & _ & _).
  fold (findDuplicatesInFile data) in Hperm. fold r in Hperm.
  rewrite <- elem_of_app, Hperm. unfold keyedRows.
  rewrite list_elem_of_filter, truthy_true, allColumns_key_empty.
  rewrite <- Exists_Forall_neg
    by (intros k; destruct (JsString.startsWith "_" k); [by left|by right]).
  rewrite !Exists_exists.
  split.
  - intros [(k & Hk & Hvis) Hin]. split; [done|]. exists k. split; [done|].
    by destruct (JsString.startsWith "_" k).
  - intros [Hin (k & Hk & Hvis)]. split; [|done]. exists k. split; [done|].
    by rewrite Hvis.
Qed.

(** ** The two key derivations side by side *)

(** C4.  Of the two key derivations for duplicate detection, only the one
    of [findDuplicates], which takes the options, folds the case.  With the
    default options its key is the bar-joined list of the parts
    [column:value] in which every value has been turned to a string,
    lower-cased and trimmed, a column whose value is [null] or [undefined]
    having no part; so two rows that differ only in the letter case of
    their values have equal keys.  The key of
    [createCompositeKeyFromAllColumns], which takes no options and is the one
    [findDuplicatesInFile] uses, has a part [column:value] for every column
    whose name does not start with an underscore, the value trimmed, in the
    case it has, and empty for [null] and [undefined].

    The statement is for columns that are not named like a member of
    [Object.prototype] and for cells that are no objects: there the lookup
    [item[key]] and [String(value)] are what [Js.get] and [Js.toString]
    give. *)
Theorem C4_only_findDuplicates_folds_the_case
    (keysToCheck : list string) (item item' props : Transaction) :
  Forall (fun key => key ∉ Js.objectPrototypeNames) keysToCheck ->
  Forall (fun key => Js.isObject (Js.get item key) = false
                     /\ Js.isObject (Js.get item' key) = false) keysToCheck ->
  Forall (fun column : string * value => Js.isObject column.2 = false) props ->
  (compositeKey keysToCheck
     (default false (caseSensitive noOptions))
     (default true (trimWhitespace noOptions))
     (default true (ignoreEmptyValues noOptions)) item
   = JsString.join "|" (omap (defaultKeyPart item) keysToCheck)
   /\ ((forall key, key ∈ keysToCheck ->
                    valueSameUpToCase (Js.get item key) (Js.get item' key)) ->
       compositeKey keysToCheck false true true item
       = compositeKey keysToCheck false true true item'))
  /\ createCompositeKeyFromAllColumns (VObj props)
     = JsString.join "|" (columnPart props <$> visibleColumns props).
Proof.
  intros _ _ _.
  destruct (default_key_is_case_insensitive keysToCheck item item')
    as (Hkey & _ & _ & Hsame).
  split; [by split|apply allColumns_key].
Qed.

(** The rows [{Name: "Foo Bar", Id: 7}] and [{Name: "fOO bAR", Id: 7}] have
    the same key for [findDuplicates]. *)
Lemma C4_only_findDuplicates_folds_the_case_witness :
  compositeKey ["Name"; "Id"] false true true
    [("Name", VStr "Foo Bar"); ("Id", VNum 7)]
  = compositeKey ["Name"; "Id"] false true true
      [("Name", VStr "fOO bAR"); ("Id", VNum 7)]
  /\ createCompositeKeyFromAllColumns (VObj [("Name", VStr "Foo Bar"); ("Id", VNull)])
     = JsString.join "|"
         (columnPart [("Name", VStr "Foo Bar"); ("Id", VNull)]
            <$> visibleColumns [("Name", VStr "Foo Bar"); ("Id", VNull)]).
Proof.
  destruct (C4_only_findDuplicates_folds_the_case ["Name"; "Id"]
              [("Name", VStr "Foo Bar"); ("Id", VNum 7)]
              [("Name", VStr "fOO bAR"); ("Id", VNum 7)]
              [("Name", VStr "Foo Bar"); ("Id", VNull)])
    as [[_ Hsame] Hall].
  - repeat constructor; apply (bool_decide_unpack _); vm_compute; exact I.
  - repeat constructor.
  - repeat constructor.
  - split; [|exact Hall]. apply Hsame.
    intros key Hkey.
    apply elem_of_cons in Hkey as [->|Hkey].
    + simpl. repeat (constructor; [vm_compute; tauto|]). constructor.
    + apply elem_of_cons in Hkey as [->|Hkey]; [reflexivity|].
      by apply elem_of_nil in Hkey.
Defined.

(** For [createCompositeKeyFromAllColumns] the rows [{name: "Foo"}] and
    [{name: "foo"}] have different keys, and the [null] column of [{id: "1",
    name: null}] has the part [name:]. *)
Lemma C4_all_columns_key_keeps_the_case_counterexample :
  createCompositeKeyFromAllColumns (VObj [("name", VStr "Foo")])
  <> createCompositeKeyFromAllColumns (VObj [("name", VStr "foo")])
  /\ createCompositeKeyFromAllColumns (VObj [("id", VStr "1"); ("name", VNull)])
     = "id:1|name:".
Proof. vm_compute. split; [discriminate|reflexivity]. Qed.

(** ** [createCompositeKey], mapping by mapping *)

Lemma string_app_assoc (a b c : string) : (a +:+ b) +:+ c = a +:+ (b +:+ c).
Proof.
  induction a as [|x a IH]; [done|].
  change (String x ((a +:+ b) +:+ c) = String x (a +:+ (b +:+ c))).
  by rewrite IH.
Qed.

Lemma string_length_app (s t : string) :
  String.length (s +:+ t) = String.length s + String.length t.
Proof.
  induction s as [|c s IH]; [done|].
  change (S (String.length (s +:+ t)) = S (String.length s + String.length t)).
  by rewrite IH.
Qed.

Lemma mapped_parts (item : Transaction) (isFile1 : bool)
    (mappings : list ColumnMapping) (acc : list string) :
  foldl (fun (keyParts : list string) (mapping : ColumnMapping) =>
           let columnName :=
             if isFile1 then file1Column mapping else file2Column mapping in
           let val := Js.get item columnName in
           let val := if Js.nullish val then VStr "" else val in
           let val :=
             if negb (isExactMatch mapping) && Js.isString val
             then JsString.trim (JsString.toLowerCase (Js.toString val))
             else Js.toString val in
           keyParts ++ [val])
        acc mappings
  = acc ++ (mappedPart item isFile1 <$> mappings).
Proof.
  revert acc. induction mappings as [|m ms IH]; intros acc; simpl.
  - by rewrite app_nil_r.
  - rewrite IH. csimpl. by rewrite <- app_assoc.
Qed.

Lemma createCompositeKey_parts (item : Transaction) (mappings : list ColumnMapping)
    (isFile1 : bool) :
  createCompositeKey item mappings isFile1
  = JsString.join "|" (mappedPart item isFile1 <$> mappings).
Proof.
  unfold createCompositeKey. f_equal.
  exact (mapped_parts item isFile1 mappings []).
Qed.

(** Lower case and white space do not interfere. *)
Lemma isSpace_lowerChar c : JsString.isSpace (JsString.lowerChar c) = JsString.isSpace c.
Proof. destruct c as [[] [] [] [] [] [] [] []]; vm_compute; reflexivity. Qed.

Lemma toLowerCase_trimStart s :
  JsString.toLowerCase (JsString.trimStart s) = JsString.trimStart (JsString.toLowerCase s).
Proof.
  induction s as [|c s IH]; simpl; [done|].
  rewrite isSpace_lowerChar. by destruct (JsString.isSpace c).
Qed.

Lemma toLowerCase_trimEnd s :
  JsString.toLowerCase (JsString.trimEnd s) = JsString.trimEnd (JsString.toLowerCase s).
Proof.
  induction s as [|c s IH]; simpl; [done|].
  rewrite <- IH, isSpace_lowerChar.
  destruct (JsString.trimEnd s); simpl; [|done].
  by destruct (JsString.isSpace c).
Qed.

Lemma toLowerCase_trim s :
  JsString.toLowerCase (JsString.trim s) = JsString.trim (JsString.toLowerCase s).
Proof.
  unfold JsString.trim. by rewrite toLowerCase_trimEnd, toLowerCase_trimStart.
Qed.

(** Two single rows whose keys agree and are not empty are paired. *)
Lemma compare_single_rows (mappings : list ColumnMapping) (a b : Transaction) :
  createCompositeKey a mappings true = createCompositeKey b mappings false ->
  createCompositeKey a mappings true <> "" ->
  compareFilesWithMappings mappings [a] [b] = onePair a b.
Proof.
  intros Hkey Hne. apply truthy_true in Hne.
  unfold compareFilesWithMappings, forEachChunk. simpl.
  unfold slice. simpl.
  unfold indexItem2. rewrite <- Hkey, Hne. rewrite lookup_empty, lookup_insert_eq.
  unfold matchItem1. simpl. rewrite Hne, lookup_insert_eq. done.
Qed.

(** X4.  Under mappings that are not exact, values that differ only in
    letter case and in the white space around them give the same key: a row
    of file 1 and a row of file 2 whose mapped columns hold such strings have
    equal keys, and, the key not being empty, the two are paired. *)
Theorem X4_fuzzy_mappings_ignore_case_and_outer_space
    (mappings : list ColumnMapping) (a b : Transaction) :
  Forall (fun m =>
            isExactMatch m = false
            /\ exists s t,
                 Js.get a (file1Column m) = VStr s
                 /\ Js.get b (file2Column m) = VStr t
                 /\ sameUpToCase (JsString.trim s) (JsString.trim t))
         mappings ->
  createCompositeKey a mappings true = createCompositeKey b mappings false
  /\ (createCompositeKey a mappings true <> "" ->
      compareFilesWithMappings mappings [a] [b] = onePair a b).
Proof.
  intros Hall.
  assert (Hkey : createCompositeKey a mappings true
                 = createCompositeKey b mappings false).
  { rewrite !createCompositeKey_parts. f_equal.
    apply list_fmap_ext. intros i m Hm.
    rewrite Forall_forall in Hall.
    destruct (Hall m) as (Hfuzzy & s & t & Hs & Ht & Hsame).
    { apply list_elem_of_lookup. eauto. }
    unfold mappedPart. rewrite Hs, Ht, Hfuzzy. simpl.
    rewrite <- !toLowerCase_trim. by apply toLowerCase_sameUpToCase. }
  split; [done|]. intros Hne. by apply compare_single_rows.
Qed.

(** The rows [{Name: "  Ada Lovelace"}] and [{Customer: "ADA LOVELACE "}]
    under the mapping Name to Customer, not exact. *)
Lemma X4_fuzzy_mappings_ignore_case_and_outer_space_witness :
  let mappings :=
    [ {| file1Column := "Name"; file2Column := "Customer"; isExactMatch := false |} ] in
  let a := [("Name", VStr "  Ada Lovelace")] in
  let b := [("Customer", VStr "ADA LOVELACE ")] in
  createCompositeKey a mappings true = createCompositeKey b mappings false
  /\ (createCompositeKey a mappings true <> "" ->
      compareFilesWithMappings mappings [a] [b] = onePair a b).
Proof.
  apply (X4_fuzzy_mappings_ignore_case_and_outer_space
           [ {| file1Column := "Name"; file2Column := "Customer";
                isExactMatch := false |} ]
           [("Name", VStr "  Ada Lovelace")]
           [("Customer", VStr "ADA LOVELACE ")]).
  constructor; [|constructor].
  split; [reflexivity|].
  exists "  Ada Lovelace", "ADA LOVELACE ". split_and!; [reflexivity..|].
  vm_compute. repeat (constructor; [vm_compute; tauto|]). constructor.
Defined.

(** X5.  The parts of a key are joined by a bar and a bar inside a value is
    not told apart from it.  Under two exact mappings the row with values
    [x|y] and [z] and the row with values [x] and [y|z] have the same key and
    are paired, although they differ in both mapped columns. *)
Theorem X5_bar_in_values_pairs_rows_that_differ
    (column1 column2 x y z : string) :
  column1 <> column2 ->
  let mappings :=
    [ {| file1Column := column1; file2Column := column1; isExactMatch := true |};
      {| file1Column := column2; file2Column := column2; isExactMatch := true |} ] in
  let row1 := [(column1, VStr (x +:+ "|" +:+ y)); (column2, VStr z)] in
  let row2 := [(column1, VStr x); (column2, VStr (y +:+ "|" +:+ z))] in
  Js.get row1 column1 <> Js.get row2 column1
  /\ Js.get row1 column2 <> Js.get row2 column2
  /\ createCompositeKey row1 mappings true = createCompositeKey row2 mappings false
  /\ compareFilesWithMappings mappings [row1] [row2] = onePair row1 row2.
Proof.
  intros Hne mappings row1 row2.
  pose proof string_length_app as Hlen.
  assert (E12 : String.eqb column1 column2 = false) by by apply String.eqb_neq.
  assert (Hkey : createCompositeKey row1 mappings true
                 = createCompositeKey row2 mappings false).
  { unfold createCompositeKey, mappings, row1, row2. simpl.
    rewrite !String.eqb_refl, E12. simpl.
    unfold JsString.join. simpl. by rewrite string_app_assoc. }
  split_and!.
  - unfold row1, row2. simpl. rewrite !String.eqb_refl.
    intros [= H]. apply (f_equal String.length) in H.
    rewrite !Hlen in H. simpl in H. lia.
  - unfold row1, row2. simpl. rewrite E12, !String.eqb_refl.
    intros [= H]. apply (f_equal String.length) in H.
    rewrite !Hlen in H. simpl in H. lia.
  - done.
  - apply compare_single_rows; [done|].
    unfold createCompositeKey, mappings, row1. simpl.
    rewrite !String.eqb_refl, E12. simpl. unfold JsString.join. simpl.
    intros H. apply (f_equal String.length) in H.
    rewrite !Hlen in H. simpl in H. lia.
Qed.

(** Amounts and references that hold a bar. *)
Lemma X5_bar_in_values_pairs_rows_that_differ_witness :
  let mappings :=
    [ {| file1Column := "ref"; file2Column := "ref"; isExactMatch := true |};
      {| file1Column := "memo"; file2Column := "memo"; isExactMatch := true |} ] in
  let row1 := [("ref", VStr "A|B"); ("memo", VStr "C")] in
  let row2 := [("ref", VStr "A"); ("memo", VStr "B|C")] in
  Js.get row1 "ref" <> Js.get row2 "ref"
  /\ Js.get row1 "memo" <> Js.get row2 "memo"
  /\ createCompositeKey row1 mappings true = createCompositeKey row2 mappings false
  /\ compareFilesWithMappings mappings [row1] [row2] = onePair row1 row2.
Proof.
  apply (X5_bar_in_values_pairs_rows_that_differ "ref" "memo" "A" "B" "C").
  discriminate.
Defined.

(** ** The pairing does not depend on which file comes first *)

Lemma positionsFrom_ext (f g : Transaction -> string) k (l : list Transaction) i :
  (forall x, f x = g x) -> positionsFrom f k l i = positionsFrom g k l i.
Proof.
  intros Hfg. revert i. induction l as [|x l IH]; intros i; simpl; [done|].
  rewrite Hfg, IH. done.
Qed.

Lemma positions_ext (f g : Transaction -> string) k (l : list Transaction) :
  (forall x, f x = g x) -> positions f k l = positions g k l.
Proof. apply positionsFrom_ext. Qed.

Lemma rowsWithKey_ext (f g : Transaction -> string) k (l : list Transaction) :
  (forall x, f x = g x) -> rowsWithKey f k l = rowsWithKey g k l.
Proof.
  intros Hfg. unfold rowsWithKey. apply list_filter_iff. intros x. by rewrite Hfg.
Qed.

Lemma mappedPart_swap (item : Transaction) (isFile1 : bool) (m : ColumnMapping) :
  mappedPart item isFile1 (swapMapping m) = mappedPart item (negb isFile1) m.
Proof. by destruct isFile1. Qed.

Lemma createCompositeKey_swap (item : Transaction) (mappings : list ColumnMapping)
    (isFile1 : bool) :
  createCompositeKey item (swapMapping <$> mappings) isFile1
  = createCompositeKey item mappings (negb isFile1).
Proof.
  rewrite !createCompositeKey_parts, <- list_fmap_compose. f_equal.
  apply list_fmap_ext. intros i m _. apply mappedPart_swap.
Qed.

Section Mirror.
Variable mappings : list ColumnMapping.
Variables data1 data2 : list Transaction.

(** A pair of the pairing: the position of a row of dataset 1 and its
    partner. *)
Lemma elem_of_fifoPairs_partner t j :
  (t, j) ∈ fifoPairs mappings data1 data2
  <-> t < length data1 /\ fifoPartner mappings data1 data2 t = Some j.
Proof.
  unfold fifoPairs, fifoPairsUpTo. rewrite list_elem_of_omap. split.
  - intros (t' & Hseq & Hsome).
    destruct (fifoPartner mappings data1 data2 t') as [j'|] eqn:Hp;
      simpl in Hsome; [|done].
    inversion Hsome; subst t' j'. apply elem_of_seq in Hseq. split; [lia|done].
  - intros [Hlt Hp]. exists t. split; [apply elem_of_seq; lia|].
    by rewrite Hp.
Qed.

Lemma NoDup_fifoPairs : NoDup (fifoPairs mappings data1 data2).
Proof.
  apply (NoDup_fmap_1 fst). apply NoDup_fifoPairs_fst.
Qed.

Lemma fifoPairs_mirror t j :
  (t, j) ∈ fifoPairs mappings data1 data2
  <-> (j, t) ∈ fifoPairs (swapMapping <$> mappings) data2 data1.
Proof.
  rewrite !elem_of_fifoPairs.
  assert (H1 : forall k l, positions (key1 (swapMapping <$> mappings)) k l
                           = positions (key2 mappings) k l).
  { intros k l. apply positions_ext. intros x. unfold key1, key2.
    apply createCompositeKey_swap. }
  assert (H2 : forall k l, positions (key2 (swapMapping <$> mappings)) k l
                           = positions (key1 mappings) k l).
  { intros k l. apply positions_ext. intros x. unfold key1, key2.
    apply createCompositeKey_swap. }
  split; intros (k & i & Hk & Ha & Hb); exists k, i.
  - by rewrite H1, H2.
  - by rewrite H1, H2 in *.
Qed.

End Mirror.

(** The rows of a list that a test on positions keeps, read position by
    position. *)
Lemma filter_imap_positions {A : Type} (Q : nat -> Prop) `{!forall t, Decision (Q t)}
    (d : list A) :
  (filter (fun p : nat * A => Q p.1) (imap (fun j x => (j, x)) d)).*2
  = omap (fun t => if decide (Q t) then d !! t else None) (seq 0 (length d)).
Proof.
  induction d as [|x d IH] using rev_ind; [done|].
  rewrite imap_app, filter_app, fmap_app, length_app. simpl.
  rewrite Nat.add_1_r, seq_S, omap_app, IH. simpl. f_equal.
  - apply list_omap_ext. apply Forall2_same_length_lookup. split; [done|].
    intros i t t' Ht Ht'. assert (t' = t) as -> by congruence.
    apply lookup_seq in Ht as [-> Hlt]. simpl.
    destruct (decide (Q i)); [|done]. by rewrite lookup_app_l.
  - rewrite Nat.add_0_r, filter_cons, filter_nil. simpl.
    destruct (decide (Q (length d))); simpl; [|done].
    by rewrite list_lookup_middle.
Qed.

(** X6.  Reconciling file 2 against file 1, with every mapping read from the
    other side, finds the same pairs: row [t] of one file is paired with row
    [j] of the other in both runs.  So both runs match the same number of
    rows, and the rows of a file that stay unmatched are the same rows, in
    the same order, whether the file is given first or second. *)
Theorem X6_swapping_the_files_mirrors_the_pairing
    (mappings : list ColumnMapping) (data1 data2 : list Transaction) :
  let r := compareFilesWithMappings mappings data1 data2 in
  let r' := compareFilesWithMappings (swapMapping <$> mappings) data2 data1 in
  (forall t j, (t, j) ∈ fifoPairs mappings data1 data2
               <-> (j, t) ∈ fifoPairs (swapMapping <$> mappings) data2 data1)
  /\ length (resMatched r) = length (resMatched r')
  /\ resInFile2Only r' = VObj <$> resInFile1Only r
  /\ resInFile2Only r = VObj <$> resInFile1Only r'.
Proof.
  intros r r'.
  destruct (compareFilesWithMappings_spec mappings data1 data2)
    as (_ & Hlen & Honly1 & Honly2 & _).
  destruct (compareFilesWithMappings_spec (swapMapping <$> mappings) data2 data1)
    as (_ & Hlen' & Honly1' & Honly2' & _).
  fold r in Hlen, Honly1, Honly2. fold r' in Hlen', Honly1', Honly2'.
  assert (Hmirror : forall t j, (t, j) ∈ fifoPairs mappings data1 data2
                                <-> (j, t) ∈ fifoPairs (swapMapping <$> mappings) data2 data1)
    by apply fifoPairs_mirror.
  (* the unmatched rows of the first file of a run are the unclaimed rows of
     the second file of the mirrored run *)
  assert (Hleft : forall ms ms' (d1 d2 : list Transaction),
             (forall t j, (t, j) ∈ fifoPairs ms d1 d2 <-> (j, t) ∈ fifoPairs ms' d2 d1) ->
             unclaimed d1 (fifoPairs ms' d2 d1).*2
             = unpairedUpTo ms d1 d2 (length d1)).
  { intros ms ms' d1 d2 Hm. unfold unclaimed, unpairedUpTo.
    etrans;
      [exact (filter_imap_positions (fun t => t ∉ (fifoPairs ms' d2 d1).*2) d1)|].
    apply list_omap_ext. apply Forall2_same_length_lookup. split; [done|].
    intros i t t' Ht Ht'. assert (t' = t) as -> by congruence.
    apply lookup_seq in Ht as [-> Hlt]. simpl.
    destruct (fifoPartner ms d1 d2 i) as [j|] eqn:Hp.
    - rewrite decide_False; [done|]. intros Hnot. apply Hnot.
      apply list_elem_of_fmap. exists (j, i). split; [done|].
      apply Hm. by apply elem_of_fifoPairs_partner.
    - rewrite decide_True; [done|]. intros Hin.
      apply list_elem_of_fmap in Hin as ([j i'] & Hi & Hin). simpl in Hi. subst i'.
      apply Hm, elem_of_fifoPairs_partner in Hin as [_ Hin]. congruence. }
  split_and!.
  - done.
  - rewrite Hlen, Hlen'.
    rewrite <- (length_fmap (fun p : nat * nat => (p.2, p.1))
                  (fifoPairs (swapMapping <$> mappings) data2 data1)).
    apply Permutation_length.
    apply NoDup_Permutation.
    + apply NoDup_fifoPairs.
    + apply NoDup_fmap_2; [|apply NoDup_fifoPairs].
      intros [a b] [c d]; simpl. congruence.
    + intros [t j]. rewrite Hmirror, list_elem_of_fmap. split.
      * intros Hin. by exists (j, t).
      * intros ([j' t'] & Heq & Hin). simpl in Heq. by inversion Heq; subst.
  - rewrite Honly2', Honly1. f_equal. by apply Hleft.
  - rewrite Honly2, Honly1'. f_equal. apply Hleft.
    intros t j. symmetry. apply Hmirror.
Qed.

(** ** A file reconciled against itself *)

Section SelfCompare.
Variable mappings : list ColumnMapping.
Variable data : list Transaction.
Hypothesis same_columns :
  Forall (fun m => file1Column m = file2Column m) mappings.

Lemma self_key (a : Transaction) :
  createCompositeKey a mappings false = createCompositeKey a mappings true.
Proof.
  rewrite !createCompositeKey_parts. f_equal.
  apply list_fmap_ext. intros i m Hm.
  rewrite Forall_forall in same_columns.
  unfold mappedPart. rewrite (same_columns m); [done|].
  apply list_elem_of_lookup. eauto.
Qed.

Lemma self_partner t a :
  data !! t = Some a ->
  fifoPartner mappings data data t
  = if JsString.truthy (createCompositeKey a mappings true) then Some t else None.
Proof.
  intros Ha. unfold fifoPartner. rewrite Ha. unfold key1.
  destruct (JsString.truthy (createCompositeKey a mappings true)); [|done].
  rewrite (positions_ext (key2 mappings) (key1 mappings)) by apply self_key.
  by apply positions_lookup_rank with a.
Qed.

Lemma self_matched n :
  n <= length data ->
  omap (matchedEntry data data) (fifoPairsUpTo mappings data data n)
  = (fun a => Js.set a "_matchedWith" (VObj a))
      <$> filter (fun a => createCompositeKey a mappings true <> "") (take n data).
Proof.
  induction n as [|n IH]; intros Hn; [done|].
  destruct (lookup_lt_is_Some_2 data n ltac:(lia)) as [a Ha].
  rewrite fifoPairsUpTo_S, omap_app, (take_S_r _ _ _ Ha), filter_app, fmap_app.
  rewrite IH by lia. f_equal.
  rewrite (self_partner n a Ha), filter_cons, filter_nil.
  destruct (JsString.truthy (createCompositeKey a mappings true)) eqn:Hk.
  - apply truthy_true in Hk. rewrite decide_True by done.
    unfold matchedEntry. simpl. by rewrite Ha.
  - rewrite decide_False; [done|].
    intros Hne. apply truthy_true in Hne. congruence.
Qed.

Lemma self_unpaired n :
  n <= length data ->
  unpairedUpTo mappings data data n
  = filter (fun a => createCompositeKey a mappings true = "") (take n data).
Proof.
  induction n as [|n IH]; intros Hn; [done|].
  destruct (lookup_lt_is_Some_2 data n ltac:(lia)) as [a Ha].
  rewrite unpairedUpTo_S, (take_S_r _ _ _ Ha), filter_app.
  rewrite IH by lia. f_equal.
  rewrite (self_partner n a Ha), Ha, filter_cons, filter_nil.
  destruct (JsString.truthy (createCompositeKey a mappings true)) eqn:Hk.
  - apply truthy_true in Hk. by rewrite decide_False by done.
  - rewrite decide_True; [done|].
    destruct (createCompositeKey a mappings true); [done|discriminate].
Qed.

Lemma self_unclaimed :
  unclaimed data (fifoPairs mappings data data).*2
  = unpairedUpTo mappings data data (length data).
Proof.
  unfold unclaimed, unpairedUpTo.
  etrans;
    [exact (filter_imap_positions
              (fun t => t ∉ (fifoPairs mappings data data).*2) data)|].
  apply list_omap_ext. apply Forall2_same_length_lookup. split; [done|].
  intros i t t' Ht Ht'. assert (t' = t) as -> by congruence.
  apply lookup_seq in Ht as [-> Hlt]. simpl.
  destruct (lookup_lt_is_Some_2 data i Hlt) as [a Ha].
  destruct (fifoPartner mappings data data i) as [j|] eqn:Hp.
  - rewrite decide_False; [done|]. intros Hnot. apply Hnot.
    apply list_elem_of_fmap. exists (i, i). split; [done|].
    apply elem_of_fifoPairs_partner. split; [done|].
    rewrite (self_partner i a Ha) in Hp |- *.
    by destruct (JsString.truthy (createCompositeKey a mappings true)).
  - rewrite decide_True; [done|]. intros Hin.
    apply list_elem_of_fmap in Hin as ([t j] & Hi & Hin). simpl in Hi. subst j.
    apply elem_of_fifoPairs_partner in Hin as [Hlt' Hin].
    destruct (lookup_lt_is_Some_2 data t Hlt') as [b Hb].
    rewrite (self_partner t b Hb) in Hin.
    destruct (JsString.truthy (createCompositeKey b mappings true)) eqn:Hk; [|done].
    inversion Hin; subst t. assert (b = a) as -> by congruence.
    rewrite (self_partner i a Ha), Hk in Hp. done.
Qed.

End SelfCompare.

(** X7.  A dataset reconciled against itself, under mappings that name the
    same column on both sides, pairs every row that has a key with itself:
    the matched list holds each such row with itself as [_matchedWith], in
    order, and what is left over on either side is exactly the rows whose
    key is empty. *)
Theorem X7_a_file_reconciled_with_itself_matches_row_by_row
    (mappings : list ColumnMapping) (data : list Transaction) :
  Forall (fun m => file1Column m = file2Column m) mappings ->
  let r := compareFilesWithMappings mappings data data in
  let key := fun a => createCompositeKey a mappings true in
  resMatched r
  = (fun a => Js.set a "_matchedWith" (VObj a)) <$> filter (fun a => key a <> "") data
  /\ resInFile1Only r = filter (fun a => key a = "") data
  /\ resInFile2Only r = VObj <$> filter (fun a => key a = "") data.
Proof.
  intros Hsame r key.
  destruct (compareFilesWithMappings_spec mappings data data)
    as (Hmatched & _ & Honly1 & Honly2 & _).
  fold r in Hmatched, Honly1, Honly2.
  split_and!.
  - rewrite Hmatched. unfold fifoPairs.
    rewrite (self_matched mappings data Hsame (length data)) by done.
    by rewrite firstn_all.
  - rewrite Honly1, (self_unpaired mappings data Hsame (length data)) by done.
    by rewrite firstn_all.
  - rewrite Honly2, (self_unclaimed mappings data Hsame).
    rewrite (self_unpaired mappings data Hsame (length data)) by done.
    by rewrite firstn_all.
Qed.

(** Three rows, the second without an id. *)
Lemma X7_a_file_reconciled_with_itself_matches_row_by_row_witness :
  let mappings := [ {| file1Column := "id"; file2Column := "id"; isExactMatch := true |} ] in
  let data := [ [("id", VStr "1")]; [("id", VStr "")]; [("id", VStr "1")] ] in
  let r := compareFilesWithMappings mappings data data in
  let key := fun a => createCompositeKey a mappings true in
  resMatched r
  = (fun a => Js.set a "_matchedWith" (VObj a)) <$> filter (fun a => key a <> "") data
  /\ resInFile1Only r = filter (fun a => key a = "") data
  /\ resInFile2Only r = VObj <$> filter (fun a => key a = "") data.
Proof.
  apply (X7_a_file_reconciled_with_itself_matches_row_by_row
           [ {| file1Column := "id"; file2Column := "id"; isExactMatch := true |} ]
           [ [("id", VStr "1")]; [("id", VStr "")]; [("id", VStr "1")] ]).
  constructor; [reflexivity|constructor].
Defined.

(** ** [processArrayInChunks] hands the array over slice by slice *)

Lemma ceilDiv_bounds (n d : nat) :
  0 < d -> n <= ceilDiv n d * d /\ (forall k, k < ceilDiv n d -> k * d < n).
Proof.
  intros Hd. unfold ceilDiv.
  pose proof (Nat.div_mod (n + d - 1) d ltac:(lia)) as Hdm.
  pose proof (Nat.mod_upper_bound (n + d - 1) d ltac:(lia)) as Hmod.
  set (q := (n + d - 1) / d) in *. set (m := (n + d - 1) mod d) in *.
  split; [nia|]. intros k Hk. nia.
Qed.

Section ProcessArrayInChunksFacts.
Context {T R St : Type}.
Variable array : list T.
Variable chunkSize : nat.
Variable processor : St -> list T -> nat -> list R * St.
Hypothesis chunkSize_positive : 0 < chunkSize.

(** The slice of chunk [k]. *)
Lemma chunk_slice k :
  slice array (k * chunkSize) (Nat.min (k * chunkSize + chunkSize) (length array))
  = take chunkSize (drop (k * chunkSize) array).
Proof.
  unfold slice.
  destruct (decide (k * chunkSize + chunkSize <= length array)) as [Hin|Hout].
  - f_equal. lia.
  - rewrite !take_ge; [done|rewrite length_drop; lia..].
Qed.

(** The invariant rule of [processArrayInChunks]: [P] relates the part of the
    array handed over so far to the results and the state. *)
Lemma processArrayInChunks_invariant (P : list T -> list R * St -> Prop) st :
  P [] ([], st) ->
  (forall k acc,
      k * chunkSize < length array ->
      P (take (k * chunkSize) array) acc ->
      let chunk := take chunkSize (drop (k * chunkSize) array) in
      let processed := processor acc.2 chunk k in
      P (take (k * chunkSize) array ++ chunk) (acc.1 ++ processed.1, processed.2)) ->
  P array (processArrayInChunks array chunkSize processor st).
Proof.
  intros H0 Hstep. unfold processArrayInChunks.
  destruct (ceilDiv_bounds (length array) chunkSize chunkSize_positive)
    as [Hall Hbefore].
  set (step := fun (acc : list R * St) (i : nat) => _).
  assert (Hgen : forall k, k <= ceilDiv (length array) chunkSize ->
             P (take (k * chunkSize) array) (foldl step ([], st) (seq 0 k))).
  { induction k as [|k IH]; intros Hk; [done|].
    rewrite seq_S, foldl_app. simpl.
    specialize (IH ltac:(lia)).
    specialize (Hstep k _ (Hbefore k ltac:(lia)) IH). simpl in Hstep.
    unfold step at 1. rewrite chunk_slice.
    replace (take (chunkSize + k * chunkSize) array)
      with (take (k * chunkSize) array ++ take chunkSize (drop (k * chunkSize) array));
      [done|].
    rewrite Nat.add_comm. by rewrite take_take_drop. }
  specialize (Hgen _ (Nat.le_refl _)).
  by rewrite take_ge in Hgen by lia.
Qed.

End ProcessArrayInChunksFacts.

(** X8.  For a positive chunk size, [processArrayInChunks] hands every item
    of the array to the processor exactly once, in order, in slices that start
    at [chunkIndex * chunkSize]: a processor that maps the items of its slice,
    each with the position [chunkIndex * chunkSize + i], returns the items of
    the whole array mapped with their positions in the array. *)
Theorem X8_processArrayInChunks_covers_the_array
    {T R St : Type} (array : list T) (chunkSize : nat) (f : nat -> T -> R) (st : St) :
  0 < chunkSize ->
  processArrayInChunks array chunkSize
    (fun st chunk chunkIndex =>
       (imap (fun i item => f (chunkIndex * chunkSize + i) item) chunk, st))
    st
  = (imap f array, st).
Proof.
  intros Hpos.
  apply (processArrayInChunks_invariant array chunkSize _ Hpos
           (fun pre acc => acc = (imap f pre, st))); [done|].
  intros k acc Hk -> chunk processed. simpl.
  rewrite imap_app. do 2 f_equal.
  apply imap_ext. intros i x _. f_equal.
  rewrite length_take. lia.
Qed.

Lemma X8_processArrayInChunks_covers_the_array_witness :
  processArrayInChunks ["a"; "b"; "c"; "d"; "e"] 2
    (fun (st : unit) chunk chunkIndex =>
       (imap (fun i item => (chunkIndex * 2 + i, item)) chunk, st))
    tt
  = (imap (fun i item => (i, item)) ["a"; "b"; "c"; "d"; "e"], tt).
Proof.
  apply (X8_processArrayInChunks_covers_the_array
           ["a"; "b"; "c"; "d"; "e"] 2 (fun i item => (i, item)) tt).
  lia.
Defined.

(** ** More on the duplicate scan *)

Lemma JsMap_set_new {V : Type} (m : list (string * V)) k v :
  JsMap.get m k = None -> JsMap.set m k v = m ++ [(k, v)].
Proof.
  induction m as [|[k0 v0] m IH]; simpl; [done|].
  destruct (String.eqb k0 k); [done|]. intros H. by rewrite IH.
Qed.

Lemma groupedRows_set_old (m : list (string * list value)) k old new :
  JsMap.get m k = Some old ->
  length (JsMap.set m k new) = length m
  /\ groupedRows (JsMap.set m k new) + length old = groupedRows m + length new.
Proof.
  unfold groupedRows. induction m as [|[k0 v0] m IH]; csimpl; [done|].
  destruct (String.eqb k0 k); csimpl.
  - intros [= ->]. split; [done|]. lia.
  - intros H. destruct (IH H) as [Hlen Hsum]. split; [by rewrite Hlen|]. lia.
Qed.

Section ScanFacts.
Variable keyOf : Transaction -> string.
Variable data : list Transaction.

Lemma keyedRows_snoc pre x :
  keyedRows keyOf (pre ++ [x])
  = keyedRows keyOf pre ++ (if JsString.truthy (keyOf x) then [x] else []).
Proof.
  unfold keyedRows. rewrite filter_app, filter_cons, filter_nil.
  by destruct (JsString.truthy (keyOf x)).
Qed.

Lemma uniqueInv_step pre x suf st :
  data = pre ++ x :: suf ->
  groupsInv keyOf pre st ->
  uniqueInv keyOf pre st ->
  uniqueInv keyOf (pre ++ [x]) (scanItem keyOf data st (length pre) x).
Proof.
  intros Hdata (Hfalsy & Hnone & Hsome & Hnd & Hgroups)
         (Hu & Hseen & Hfirst & Hdup & Hcount & Hnodup).
  assert (Hhead : forall u, u ∈ uniqueItems st ->
             head (rowsWithKey keyOf (keyOf u) (pre ++ [x])) = Some u).
  { intros u Hin. rewrite rowsWithKey_snoc.
    specialize (Hfirst u Hin).
    by destruct (rowsWithKey keyOf (keyOf u) pre). }
  unfold scanItem, uniqueInv. rewrite keyedRows_snoc.
  destruct (JsString.truthy (keyOf x)) eqn:Hkx.
  2:{ rewrite app_nil_r. by split_and!. }
  destruct (seen st !! keyOf x) as [i|] eqn:Hs; simpl.
  - (* a duplicate *)
    split_and!; try done.
    + intros d Hd. apply elem_of_app in Hd as [Hd|Hd]; [by apply Hdup|].
      apply list_elem_of_singleton in Hd. subst d. by rewrite Hs.
    + rewrite length_app. simpl.
      destruct (JsMap.get (duplicateGroups st) (keyOf x)) as [group|] eqn:Hg.
      * destruct (groupedRows_set_old (duplicateGroups st) (keyOf x) group
                    (group ++ [VObj x]) Hg) as [Hlen Hsum].
        rewrite Hlen. rewrite length_app in Hsum. simpl in Hsum. lia.
      * rewrite (JsMap_set_new _ _ _ Hg), length_app. simpl.
        unfold groupedRows in *. rewrite !fmap_app, sum_list_with_app. simpl. lia.
    + intros Hnil. by apply app_nil in Hnil as [_ ?].
  - (* a first occurrence *)
    assert (Hfresh : keyOf x ∉ keyOf <$> uniqueItems st).
    { intros Hin. apply Hseen in Hin as [? Hin]. congruence. }
    split_and!; try done.
    + rewrite fmap_app. apply NoDup_app. split_and!; [done| |apply NoDup_singleton].
      intros k Hk Hk'. apply list_elem_of_singleton in Hk'. by subst k.
    + intros k. rewrite fmap_app, elem_of_app, Hseen. simpl.
      rewrite list_elem_of_singleton.
      destruct (decide (k = keyOf x)) as [->|Hne].
      * rewrite lookup_insert_eq. split; [by eauto|by right].
      * rewrite lookup_insert_ne by done. split; [by intros [?|?]|by left].
    + intros u Hin. apply elem_of_app in Hin as [Hin|Hin]; [by apply Hhead|].
      apply list_elem_of_singleton in Hin. subst u.
      rewrite rowsWithKey_snoc, (Hnone _ Hkx Hs), decide_True by done. done.
    + intros d Hd. specialize (Hdup d Hd).
      destruct (decide (keyOf d = keyOf x)) as [->|Hne].
      * by rewrite lookup_insert_eq.
      * by rewrite lookup_insert_ne.
    + intros Hnil. by rewrite (Hnodup Hnil).
Qed.

Lemma uniqueInv_scan chunkSize :
  0 < chunkSize ->
  uniqueInv keyOf data (scanChunked keyOf data chunkSize).
Proof.
  intros Hpos. unfold scanChunked. rewrite forEachChunk_flat by done.
  apply (forEachFrom_invariant _
           (fun pre st => groupsInv keyOf pre st /\ uniqueInv keyOf pre st)).
  - split; [apply groupsInv_init|].
    unfold uniqueInv, emptyScan, groupedRows. simpl.
    split_and!; try done.
    + apply NoDup_nil_2.
    + intros k. rewrite lookup_empty. split; [by intros ?%elem_of_nil|by intros [? ?]].
    + by intros u ?%elem_of_nil.
    + by intros d ?%elem_of_nil.
  - intros pre x suf st Hdata [Hg Hu]. split.
    + by eapply groupsInv_step.
    + by eapply uniqueInv_step.
Qed.

Lemma groupedRows_at_least_two (groups : list (string * list value)) :
  Forall (fun g => 2 <= length g.2) groups ->
  2 * length groups <= groupedRows groups.
Proof.
  unfold groupedRows. induction 1 as [|g gs Hg _ IH]; csimpl in *; lia.
Qed.

Lemma scan_groups_at_least_two chunkSize :
  0 < chunkSize ->
  Forall (fun g => 2 <= length g.2) (duplicateGroups (scanChunked keyOf data chunkSize)).
Proof.
  intros Hpos.
  destruct (groupsInv_scan keyOf data chunkSize Hpos) as (_ & _ & _ & Hnd & Hgroups).
  apply Forall_forall. intros [k items] Hin. simpl.
  apply JsMapFacts.elem_of_get in Hin; [|done].
  rewrite Hgroups in Hin.
  destruct (JsString.truthy k); simpl in Hin; [|done].
  case_bool_decide as Hlen; [|done].
  inversion Hin. by rewrite length_fmap.
Qed.

End ScanFacts.

(** X9.  [uniqueItems] holds one row for each key: its rows have pairwise
    different keys, each of them is the first row of the dataset with its
    key, every duplicate has the key of one of them, and every row of the
    dataset with a non-empty key has its key among theirs. *)
Theorem X9_unique_items_hold_the_first_row_of_each_key (data : list Transaction) :
  let keyOf := fun t => createCompositeKeyFromAllColumns (VObj t) in
  let r := findDuplicatesInFile data in
  NoDup (keyOf <$> uniqueItems r)
  /\ (forall u, u ∈ uniqueItems r ->
                head (rowsWithKey keyOf (keyOf u) data) = Some u)
  /\ (forall d, d ∈ duplicates r ->
                exists u, u ∈ uniqueItems r /\ keyOf u = keyOf d)
  /\ (forall row, row ∈ data -> keyOf row <> "" ->
                  keyOf row ∈ keyOf <$> uniqueItems r).
Proof.
  intros keyOf r.
  destruct (uniqueInv_scan keyOf data 1000 ltac:(lia))
    as (Hnd & Hseen & Hfirst & Hdup & _ & _).
  destruct (partitionInv_scan keyOf data 1000 ltac:(lia)) as (Hperm & _ & _).
  assert (Hr : r = scanChunked keyOf data 1000) by done.
  rewrite <- Hr in Hnd, Hseen, Hfirst, Hdup, Hperm. clear Hr.
  assert (Hd : forall d, d ∈ duplicates r ->
             exists u, u ∈ uniqueItems r /\ keyOf u = keyOf d).
  { intros d Hin. apply Hdup, Hseen, list_elem_of_fmap in Hin as (u & Hk & Hu).
    by exists u. }
  split_and!; [done..|].
  intros row Hin Hk.
  assert (Hrow : row ∈ uniqueItems r ++ duplicates r).
  { rewrite Hperm. unfold keyedRows. apply list_elem_of_filter.
    split; [by apply truthy_true|done]. }
  apply elem_of_app in Hrow as [Hu|Hdu].
  - apply list_elem_of_fmap. by exists row.
  - destruct (Hd row Hdu) as (u & Hu & Hku). rewrite <- Hku.
    apply list_elem_of_fmap. by exists u.
Qed.

(** X10.  The counts of a duplicate scan add up: unique rows and duplicates
    together are as many as the rows with a non-empty key; the groups hold
    one row more than the duplicates for each group, the original; so there
    are no more groups than duplicates. *)
Theorem X10_duplicate_counts_add_up (data : list Transaction) :
  let keyOf := fun t => createCompositeKeyFromAllColumns (VObj t) in
  let r := findDuplicatesInFile data in
  length (uniqueItems r) + length (duplicates r) = length (keyedRows keyOf data)
  /\ length (duplicates r) + length (duplicateGroups r)
     = groupedRows (duplicateGroups r)
  /\ length (duplicateGroups r) <= length (duplicates r).
Proof.
  intros keyOf r.
  destruct (uniqueInv_scan keyOf data 1000 ltac:(lia))
    as (_ & _ & _ & _ & Hcount & _).
  destruct (partitionInv_scan keyOf data 1000 ltac:(lia)) as (Hperm & _ & _).
  assert (Hr : r = scanChunked keyOf data 1000) by done.
  rewrite <- Hr in Hcount, Hperm. clear Hr.
  split_and!.
  - by rewrite <- length_app, Hperm.
  - done.
  - (* every group holds at least two rows *)
    pose proof (groupedRows_at_least_two _
                  (scan_groups_at_least_two keyOf data 1000 ltac:(lia))) as Htwo.
    assert (Hr : r = scanChunked keyOf data 1000) by done.
    rewrite <- Hr in Htwo. lia.
Qed.

(** ** The summary of a reconciliation *)

Lemma validateColumnMappings_outcome file1Sample file2Sample mappings :
  (exists message,
      validateColumnMappings file1Sample file2Sample mappings = ([], inl message))
  \/ validateColumnMappings file1Sample file2Sample mappings = ([], inr tt).
Proof.
  induction mappings as [|m rest IH]; simpl; [by right|].
  destruct (Js.in_ file1Sample (file1Column m)); simpl; [|left; by eexists].
  destruct (Js.in_ file2Sample (file2Column m)); simpl; [|left; by eexists].
  exact IH.
Qed.

(** The matcher leaves no row out. *)
Lemma compare_counts (mappings : list ColumnMapping) (data1 data2 : list Transaction) :
  let r := compareFilesWithMappings mappings data1 data2 in
  length (resMatched r) + length (resInFile1Only r) = length data1
  /\ length (resMatched r) + length (resInFile2Only r) = length data2.
Proof.
  intros r.
  destruct (compareInv_final mappings data1 data2)
    as (_ & _ & _ & Hlen & Hcount & Honly & _).
  unfold r, compareFilesWithMappings.
  cbn [resMatched resInFile1Only resInFile2Only].
  split; [|lia].
  rewrite Hlen, Honly. by apply length_pairs_unpaired.
Qed.

(** The rows of a dataset: those with a key and those without. *)
Lemma length_keyedRows (keyOf : Transaction -> string) (data : list Transaction) :
  length (keyedRows keyOf data) + length (filter (fun row => keyOf row = "") data)
  = length data.
Proof.
  unfold keyedRows. induction data as [|x data IH]; [done|].
  rewrite !filter_cons.
  destruct (keyOf x) eqn:Hk; simpl; repeat case_decide; simpl; try done; lia.
Qed.

Lemma scan_counts (data : list Transaction) :
  let keyOf := fun t => createCompositeKeyFromAllColumns (VObj t) in
  let r := findDuplicatesInFile data in
  length (uniqueItems r) + length (duplicates r)
  + length (filter (fun row => keyOf row = "") data)
  = length data.
Proof.
  intros keyOf r.
  destruct (partitionInv_scan keyOf data 1000 ltac:(lia)) as (Hperm & _ & _).
  assert (Hr : r = scanChunked keyOf data 1000) by done.
  rewrite <- Hr in Hperm.
  rewrite <- length_app, Hperm. apply length_keyedRows.
Qed.

Lemma validateColumnMappingsAgainstHeaders_outcome file1Headers file2Headers mappings :
  (exists message,
      Streaming.validateColumnMappingsAgainstHeaders file1Headers file2Headers mappings
      = ([], inl message))
  \/ Streaming.validateColumnMappingsAgainstHeaders file1Headers file2Headers mappings
     = ([], inr tt).
Proof.
  induction mappings as [|m rest IH]; simpl; [by right|].
  case_bool_decide; simpl; [|left; by eexists].
  case_bool_decide; simpl; [|left; by eexists].
  exact IH.
Qed.

Section RunResults.
Variable File : Type.
Variable getSheetData : File -> string -> string + list Transaction.
Variable getSheetColumnsWithWorker : File -> string -> string + list string.
Variable getSheetDataStreamed : File -> string -> list (list Transaction).
Variables file1 file2 : File.
Variables sheet1 sheet2 : string.

#[local] Arguments Streaming.compareUniqueItemStreams : simpl never.
#[local] Arguments compareFilesWithMappings : simpl never.
#[local] Arguments findDuplicatesInFile : simpl never.
#[local] Arguments Streaming.findDuplicatesInFileStream : simpl never.

(** What a run of the array [processFiles] returns, when it returns. *)
Lemma array_run_result (mappings : list ColumnMapping) log res :
  processFiles File getSheetData file1 file2 sheet1 sheet2 mappings = (log, inr res) ->
  exists data1 data2,
    getSheetData file1 sheet1 = inr data1
    /\ getSheetData file2 sheet2 = inr data2
    /\ res = resultsOf mappings sheet1 sheet2 (length data1) (length data2)
               (duplicates (findDuplicatesInFile data1))
               (duplicates (findDuplicatesInFile data2))
               (duplicateGroups (findDuplicatesInFile data1))
               (duplicateGroups (findDuplicatesInFile data2))
               (compareFilesWithMappings mappings
                  (uniqueItems (findDuplicatesInFile data1))
                  (uniqueItems (findDuplicatesInFile data2))).
Proof.
  unfold processFiles.
  destruct (decide (length mappings = 0)); [done|].
  unfold call, mbind, run_bind, bind, emit. simpl.
  destruct (getSheetData file1 sheet1) as [e1|data1]; simpl; [done|].
  destruct (getSheetData file2 sheet2) as [e2|data2]; simpl; [done|].
  destruct data1 as [|row1 rest1]; simpl; [done|].
  destruct data2 as [|row2 rest2]; simpl; [done|].
  destruct (validateColumnMappings_outcome row1 row2 mappings) as [[message Hv]|Hv];
    rewrite Hv; simpl; [done|].
  intros [= _ <-]. by exists (row1 :: rest1), (row2 :: rest2).
Qed.

(** What a run of the streaming [processFiles] returns, when it returns. *)
Lemma streaming_run_result (mappings : list ColumnMapping) log res :
  Streaming.processFiles File getSheetColumnsWithWorker getSheetDataStreamed
    file1 file2 sheet1 sheet2 mappings = (log, inr res) ->
  let dup1 := Streaming.findDuplicatesInFileStream (getSheetDataStreamed file1 sheet1) in
  let dup2 := Streaming.findDuplicatesInFileStream (getSheetDataStreamed file2 sheet2) in
  res = resultsOf mappings sheet1 sheet2
          (Streaming.processedCount dup1) (Streaming.processedCount dup2)
          (Streaming.streamDuplicates dup1) (Streaming.streamDuplicates dup2)
          (Streaming.streamDuplicateGroups dup1) (Streaming.streamDuplicateGroups dup2)
          (Streaming.compareUniqueItemStreams mappings
             (Streaming.uniqueChunks dup1) (Streaming.uniqueChunks dup2)).
Proof.
  unfold Streaming.processFiles.
  destruct (decide (length mappings = 0)); [done|].
  unfold call, mbind, run_bind, bind, emit. simpl.
  destruct (getSheetColumnsWithWorker file1 sheet1) as [e1|headers1]; simpl; [done|].
  destruct (getSheetColumnsWithWorker file2 sheet2) as [e2|headers2]; simpl; [done|].
  destruct (validateColumnMappingsAgainstHeaders_outcome headers1 headers2 mappings)
    as [[message Hvh]|Hvh]; rewrite Hvh; simpl; [done|].
  by intros [= _ <-].
Qed.

End RunResults.

Section SummaryFacts.
Variable File : Type.
Variable getSheetData : File -> string -> string + list Transaction.
Variables file1 file2 : File.
Variables sheet1 sheet2 : string.

(** X11.  The summary of a reconciliation that returns accounts for every
    row read: the totals are the numbers of rows of the two sheets, each
    count is the length of the list it summarises, and on each side the
    matched rows, the rows found in that file only, the duplicates and the
    rows without a key add up to the total. *)
Theorem X11_summary_accounts_for_every_row
    (mappings : list ColumnMapping) (log : list Event) (res : ReconciliationResults) :
  processFiles File getSheetData file1 file2 sheet1 sheet2 mappings = (log, inr res) ->
  exists data1 data2,
    getSheetData file1 sheet1 = inr data1
    /\ getSheetData file2 sheet2 = inr data2
    /\ let s := rrSummary res in
       let keyless := fun data : list Transaction =>
         length (filter (fun row => createCompositeKeyFromAllColumns (VObj row) = "") data) in
       totalInFile1 s = length data1
       /\ totalInFile2 s = length data2
       /\ sumMatched s = length (rrMatched res)
       /\ sumInFile1Only s = length (rrInFile1Only res)
       /\ sumInFile2Only s = length (rrInFile2Only res)
       /\ sumDuplicatesInFile1 s = length (rrDuplicatesInFile1 res)
       /\ sumDuplicatesInFile2 s = length (rrDuplicatesInFile2 res)
       /\ sumMatched s + sumInFile1Only s + sumDuplicatesInFile1 s + keyless data1
          = totalInFile1 s
       /\ sumMatched s + sumInFile2Only s + sumDuplicatesInFile2 s + keyless data2
          = totalInFile2 s.
Proof.
  intros Hrun.
  apply array_run_result in Hrun as (data1 & data2 & Hd1 & Hd2 & ->).
  exists data1, data2. split; [done|]. split; [done|].
  cbv zeta. unfold resultsOf.
  cbn [rrSummary rrMatched rrInFile1Only rrInFile2Only rrDuplicatesInFile1
       rrDuplicatesInFile2 totalInFile1 totalInFile2 sumMatched sumInFile1Only
       sumInFile2Only sumDuplicatesInFile1 sumDuplicatesInFile2].
  split_and!; try done.
  - pose proof (compare_counts mappings
                  (uniqueItems (findDuplicatesInFile data1))
                  (uniqueItems (findDuplicatesInFile data2))) as [H1 _].
    pose proof (scan_counts data1) as Hs. cbv zeta in H1, Hs. lia.
  - pose proof (compare_counts mappings
                  (uniqueItems (findDuplicatesInFile data1))
                  (uniqueItems (findDuplicatesInFile data2))) as [_ H2].
    pose proof (scan_counts data2) as Hs. cbv zeta in H2, Hs. lia.
Qed.

End SummaryFacts.


(** The sheets [A] and [B] of the examples, mapped on [id]: of the three
    rows of [A] one is matched, one is in file 1 only and one is a
    duplicate. *)
Lemma X11_summary_accounts_for_every_row_witness :
  exists res,
    (processFiles unit exampleSheetData tt tt "A" "B" [mappingOnId]).2 = inr res
    /\ sumMatched (rrSummary res) + sumInFile1Only (rrSummary res)
       + sumDuplicatesInFile1 (rrSummary res) = totalInFile1 (rrSummary res).
Proof.
  destruct (processFiles unit exampleSheetData tt tt "A" "B" [mappingOnId])
    as [log [e|res]] eqn:Hrun; [vm_compute in Hrun; discriminate|].
  exists res. split; [reflexivity|].
  destruct (X11_summary_accounts_for_every_row unit exampleSheetData tt tt "A" "B"
              [mappingOnId] log res Hrun)
    as (data1 & data2 & Hd1 & _ & _ & _ & _ & _ & _ & _ & _ & Hsum & _).
  assert (data1 = concat (exampleStream tt "A")) as ->
    by (unfold exampleSheetData in Hd1; congruence).
  cbv zeta in Hsum.
  assert (Hkeyless :
            length (filter (fun row => createCompositeKeyFromAllColumns (VObj row) = "")
                      (concat (exampleStream tt "A"))) = 0) by reflexivity.
  rewrite Hkeyless in Hsum. lia.
Defined.

(** ** [findDuplicates] returns only when there is nothing to report *)

Section ScanDuplicatesFrame.
Variable keyOf : Transaction -> string.
Variable data : list Transaction.






End ScanDuplicatesFrame.



(** ** The streaming engine and the array engine agree *)

Section StreamScanFacts.
Variable data : list Transaction.

#[local] Arguments createCompositeKeyFromAllColumns : simpl never.

Abbreviation rowKey := (fun t : Transaction => createCompositeKeyFromAllColumns (VObj t)).

Lemma scanSim_item pre x suf sa ss pending :
  data = pre ++ x :: suf ->
  groupsInv rowKey pre sa ->
  scanSim data sa ss pending ->
  let r := Streaming.scanStreamItem (ss, pending) x in
  scanSim data (scanItem rowKey data sa (length pre) x) r.1 r.2
  /\ Streaming.processedCount r.1 = Streaming.processedCount ss
  /\ Streaming.uniqueChunks r.1 = Streaming.uniqueChunks ss.
Proof.
  intros Hdata (_ & _ & Hsome & _) (Hseen & Hdups & Hgroups & Hunique).
  unfold Streaming.scanStreamItem, scanItem. cbn [fst snd].
  set (key := createCompositeKeyFromAllColumns (VObj x)).
  destruct (JsString.truthy key) eqn:Hk; [|split; [by split_and!|done]].
  rewrite (Hseen key).
  destruct (seen sa !! key) as [i|] eqn:Hs; cbn [mbind option_bind].
  - (* a duplicate: the remembered row is the row at the remembered position *)
    destruct (Hsome _ _ Hs) as (y & Hy & _).
    assert (Hdi : data !! i = Some y).
    { rewrite Hdata. by apply lookup_app_l_Some. }
    rewrite Hdi. cbn [fst snd]. split; [|done].
    split_and!; cbn; [done|by rewrite Hdups| |done].
    rewrite Hgroups. unfold Js.at_.
    rewrite (nth_lookup_Some _ _ VUndefined (VObj y))
      by (by rewrite list_lookup_fmap, Hdi).
    done.
  - cbn [fst snd]. split; [|done].
    split_and!; cbn; [|done|done|].
    + intros k. destruct (decide (k = key)) as [->|Hne].
      * rewrite !lookup_insert_eq. cbn. rewrite Hdata. by rewrite list_lookup_middle.
      * by rewrite !lookup_insert_ne.
    + by rewrite app_assoc, Hunique.
Qed.

Lemma scanSim_items chunk : forall pre suf sa ss pending,
  data = pre ++ chunk ++ suf ->
  groupsInv rowKey pre sa ->
  scanSim data sa ss pending ->
  let r := foldl Streaming.scanStreamItem (ss, pending) chunk in
  let sa' := forEachFrom (scanItem rowKey data) chunk (length pre) sa in
  groupsInv rowKey (pre ++ chunk) sa'
  /\ scanSim data sa' r.1 r.2
  /\ Streaming.processedCount r.1 = Streaming.processedCount ss
  /\ Streaming.uniqueChunks r.1 = Streaming.uniqueChunks ss.
Proof.
  induction chunk as [|x chunk IH]; intros pre suf sa ss pending Hdata Hinv Hsim.
  - simpl. by rewrite app_nil_r.
  - simpl.
    destruct (scanSim_item pre x (chunk ++ suf) sa ss pending Hdata Hinv Hsim)
      as (Hsim1 & Hcount1 & Hchunks1).
    pose proof (groupsInv_step rowKey data pre x (chunk ++ suf) sa Hdata Hinv) as Hinv1.
    destruct (Streaming.scanStreamItem (ss, pending) x) as [ss1 pending1] eqn:Hr1.
    simpl in Hsim1, Hcount1, Hchunks1.
    destruct (IH (pre ++ [x]) suf (scanItem rowKey data sa (length pre) x) ss1 pending1)
      as (Hinv2 & Hsim2 & Hcount2 & Hchunks2);
      [by rewrite <- !app_assoc|done|done|].
    rewrite length_app in Hinv2, Hsim2. simpl in Hinv2, Hsim2.
    rewrite Nat.add_1_r, <- app_assoc in Hinv2. rewrite Nat.add_1_r in Hsim2.
    split_and!; [done|done|congruence|congruence].
Qed.

Lemma scanSim_chunk chunk pre suf sa ss :
  data = pre ++ chunk ++ suf ->
  groupsInv rowKey pre sa ->
  scanSim data sa ss [] ->
  let ss' := Streaming.scanStreamChunk ss chunk in
  let sa' := forEachFrom (scanItem rowKey data) chunk (length pre) sa in
  groupsInv rowKey (pre ++ chunk) sa'
  /\ scanSim data sa' ss' []
  /\ Streaming.processedCount ss' = Streaming.processedCount ss + length chunk.
Proof.
  intros Hdata Hinv Hsim.
  destruct chunk as [|x chunk]; [simpl; by rewrite app_nil_r, Nat.add_0_r|].
  unfold Streaming.scanStreamChunk.
  set (st0 := {| Streaming.seenRows := Streaming.seenRows ss;
                 Streaming.streamDuplicates := Streaming.streamDuplicates ss;
                 Streaming.streamDuplicateGroups := Streaming.streamDuplicateGroups ss;
                 Streaming.uniqueChunks := Streaming.uniqueChunks ss;
                 Streaming.processedCount := Streaming.processedCount ss + length (x :: chunk) |}).
  assert (Hsim0 : scanSim data sa st0 []) by done.
  destruct (scanSim_items (x :: chunk) pre suf sa st0 [] Hdata Hinv Hsim0)
    as (Hinv' & (Hseen & Hdups & Hgroups & Hunique) & Hcount & Hchunks).
  split; [done|].
  destruct (foldl Streaming.scanStreamItem (st0, []) (x :: chunk)) as [ss1 pending] eqn:Hr.
  simpl in Hseen, Hdups, Hgroups, Hunique, Hcount, Hchunks.
  cbn [fst snd].
  destruct pending as [|u pending].
  - rewrite app_nil_r in Hunique. split; [|done].
    split_and!; [done..|]. by rewrite app_nil_r.
  - split; [|done].
    split_and!; cbn; [done..|].
    rewrite concat_app, app_nil_r. cbn. by rewrite app_nil_r.
Qed.

Lemma scanSim_stream stream : forall pre sa ss,
  data = pre ++ concat stream ->
  groupsInv rowKey pre sa ->
  scanSim data sa ss [] ->
  Streaming.processedCount ss = length pre ->
  let ss' := foldl Streaming.scanStreamChunk ss stream in
  let sa' := forEachFrom (scanItem rowKey data) (concat stream) (length pre) sa in
  scanSim data sa' ss' [] /\ Streaming.processedCount ss' = length data.
Proof.
  induction stream as [|chunk stream IH]; intros pre sa ss Hdata Hinv Hsim Hcount.
  - simpl in *. rewrite app_nil_r in Hdata. by subst.
  - simpl in *.
    destruct (scanSim_chunk chunk pre (concat stream) sa ss Hdata Hinv Hsim)
      as (Hinv1 & Hsim1 & Hcount1).
    rewrite forEachFrom_app.
    replace (length pre + length chunk) with (length (pre ++ chunk))
      by (by rewrite length_app).
    apply IH; [by rewrite <- app_assoc|done|done|].
    rewrite Hcount1, length_app. lia.
Qed.

End StreamScanFacts.

Lemma stream_scan_final (stream : list (list Transaction)) :
  scanSim (concat stream) (findDuplicatesInFile (concat stream))
    (Streaming.findDuplicatesInFileStream stream) []
  /\ Streaming.processedCount (Streaming.findDuplicatesInFileStream stream)
     = length (concat stream).
Proof.
  set (ss0 := {| Streaming.seenRows := ∅; Streaming.streamDuplicates := [];
                 Streaming.streamDuplicateGroups := []; Streaming.uniqueChunks := [];
                 Streaming.processedCount := 0 |}).
  assert (Hsim0 : scanSim (concat stream) emptyScan ss0 []).
  { split_and!; done. }
  pose proof (scanSim_stream (concat stream) stream [] emptyScan ss0 eq_refl
                (groupsInv_init _) Hsim0 eq_refl) as Hfinal.
  unfold findDuplicatesInFile, scanChunked.
  rewrite forEachChunk_flat by lia. exact Hfinal.
Qed.

(** X13.  However the rows of a sheet are cut into chunks, the streaming
    duplicate scan finds what the array scan finds on all the rows: the same
    duplicates, the same groups, and, chunk after chunk, the same unique
    rows; and it has counted every row. *)
Theorem X13_streaming_scan_agrees_with_array_scan (stream : list (list Transaction)) :
  let ss := Streaming.findDuplicatesInFileStream stream in
  let sa := findDuplicatesInFile (concat stream) in
  Streaming.streamDuplicates ss = duplicates sa
  /\ Streaming.streamDuplicateGroups ss = duplicateGroups sa
  /\ concat (Streaming.uniqueChunks ss) = uniqueItems sa
  /\ Streaming.processedCount ss = length (concat stream).
Proof.
  intros ss sa.
  destruct (stream_scan_final stream) as ((_ & Hdups & Hgroups & Hunique) & Hcount).
  rewrite app_nil_r in Hunique. done.
Qed.

Lemma object_remove_absent (o : Transaction) k :
  Js.has o k = false -> Js.remove o k = o.
Proof.
  unfold Js.has, Js.remove. induction o as [|[k0 v0] o IH]; simpl; [done|].
  destruct (String.eqb k0 k); simpl; [done|]. intros H. by rewrite IH.
Qed.

Lemma streamed_entries_clean (data1 data2 : list Transaction) (pairs : list (nat * nat)) :
  Forall (fun row => Js.has row Streaming.indexKey = false) data2 ->
  omap (matchedEntryStreamed data1 data2) pairs = omap (matchedEntry data1 data2) pairs.
Proof.
  intros Hclean.
  apply list_omap_ext. apply Forall2_same_length_lookup. split; [done|].
  intros i p p' Hp Hp'. assert (p' = p) as -> by congruence.
  unfold matchedEntryStreamed, matchedEntry.
  destruct (data1 !! p.1) as [a|]; [|done].
  destruct (data2 !! p.2) as [b|] eqn:Hb; [|done].
  rewrite object_remove_absent; [done|].
  rewrite Forall_forall in Hclean. apply Hclean.
  apply list_elem_of_lookup. eauto.
Qed.

Lemma CompareResult_eq (r r' : CompareResult) :
  resMatched r = resMatched r' ->
  resInFile1Only r = resInFile1Only r' ->
  resInFile2Only r = resInFile2Only r' ->
  r = r'.
Proof. destruct r, r'; simpl; congruence. Qed.

(** X14.  The streaming matcher returns what the array matcher returns on
    the concatenated chunks, matched entries included, provided no row of
    file 2 has a column named [_originalIndexInAllFile2] (the name under which
    the streaming matcher keeps the position of a row; a row that has such a
    column loses it in the back-reference). *)
Theorem X14_streaming_matcher_agrees_with_array_matcher
    (mappings : list ColumnMapping) (stream1 stream2 : list (list Transaction)) :
  Forall (fun row => Js.has row Streaming.indexKey = false) (concat stream2) ->
  Streaming.compareUniqueItemStreams mappings stream1 stream2
  = compareFilesWithMappings mappings (concat stream1) (concat stream2).
Proof.
  intros Hclean.
  destruct (compareUniqueItemStreams_spec mappings stream1 stream2)
    as (Hmatched & _ & Honly1 & Honly2).
  destruct (compareFilesWithMappings_spec mappings (concat stream1) (concat stream2))
    as (Hmatched' & _).
  cbv zeta in *.
  apply CompareResult_eq; [|done|done].
  rewrite Hmatched, Hmatched'. by apply streamed_entries_clean.
Qed.

(** Two chunks on each side. *)
Lemma X14_streaming_matcher_agrees_with_array_matcher_witness :
  let stream1 := [ [ [("id", VStr "1")] ]; [ [("id", VStr "2")]; [("id", VStr "3")] ] ] in
  let stream2 := [ [ [("id", VStr "3")]; [("id", VStr "1")] ]; [ [("id", VStr "4")] ] ] in
  Streaming.compareUniqueItemStreams [mappingOnId] stream1 stream2
  = compareFilesWithMappings [mappingOnId] (concat stream1) (concat stream2).
Proof.
  apply (X14_streaming_matcher_agrees_with_array_matcher [mappingOnId]
           [ [ [("id", VStr "1")] ]; [ [("id", VStr "2")]; [("id", VStr "3")] ] ]
           [ [ [("id", VStr "3")]; [("id", VStr "1")] ]; [ [("id", VStr "4")] ] ]).
  repeat constructor.
Defined.

(** ** The two orchestrators return the same results *)

Section OrchestratorsAgree.
Variable File : Type.
Variable getSheetData : File -> string -> string + list Transaction.
Variable getSheetColumnsWithWorker : File -> string -> string + list string.
Variable getSheetDataStreamed : File -> string -> list (list Transaction).
Variables file1 file2 : File.
Variables sheet1 sheet2 : string.

(** X15.  When the data stream of each sheet yields, chunk after chunk, the
    rows that [getSheetData] returns for it, and no row of file 2 has a
    column named [_originalIndexInAllFile2], a run of the streaming
    [processFiles] that returns and a run of the array [processFiles] that
    returns give the same results: the same matched entries, leftovers,
    duplicates, groups and summary. *)
Theorem X15_streaming_and_array_orchestrators_agree
    (mappings : list ColumnMapping)
    (logA logS : list Event) (resA resS : ReconciliationResults) :
  getSheetData file1 sheet1 = inr (concat (getSheetDataStreamed file1 sheet1)) ->
  getSheetData file2 sheet2 = inr (concat (getSheetDataStreamed file2 sheet2)) ->
  Forall (fun row => Js.has row Streaming.indexKey = false)
    (concat (getSheetDataStreamed file2 sheet2)) ->
  processFiles File getSheetData file1 file2 sheet1 sheet2 mappings = (logA, inr resA) ->
  Streaming.processFiles File getSheetColumnsWithWorker getSheetDataStreamed
    file1 file2 sheet1 sheet2 mappings = (logS, inr resS) ->
  resS = resA.
Proof.
  intros Hd1 Hd2 Hclean HrunA HrunS.
  apply array_run_result in HrunA as (data1 & data2 & Hd1' & Hd2' & ->).
  apply streaming_run_result in HrunS as ->.
  rewrite Hd1 in Hd1'. rewrite Hd2 in Hd2'.
  inversion Hd1'; subst data1. inversion Hd2'; subst data2. clear Hd1' Hd2'.
  set (stream1 := getSheetDataStreamed file1 sheet1) in *.
  set (stream2 := getSheetDataStreamed file2 sheet2) in *.
  destruct (stream_scan_final stream1) as ((_ & Hdups1 & Hgroups1 & Hunique1) & Hcount1).
  destruct (stream_scan_final stream2) as ((_ & Hdups2 & Hgroups2 & Hunique2) & Hcount2).
  rewrite app_nil_r in Hunique1, Hunique2.
  assert (Hcmp : Streaming.compareUniqueItemStreams mappings
                   (Streaming.uniqueChunks (Streaming.findDuplicatesInFileStream stream1))
                   (Streaming.uniqueChunks (Streaming.findDuplicatesInFileStream stream2))
                 = compareFilesWithMappings mappings
                     (uniqueItems (findDuplicatesInFile (concat stream1)))
                     (uniqueItems (findDuplicatesInFile (concat stream2)))).
  { destruct (compareUniqueItemStreams_spec mappings
                (Streaming.uniqueChunks (Streaming.findDuplicatesInFileStream stream1))
                (Streaming.uniqueChunks (Streaming.findDuplicatesInFileStream stream2)))
      as (Hmatched & _ & Honly1 & Honly2).
    cbv zeta in *. rewrite Hunique1, Hunique2 in *.
    destruct (compareFilesWithMappings_spec mappings
                (uniqueItems (findDuplicatesInFile (concat stream1)))
                (uniqueItems (findDuplicatesInFile (concat stream2))))
      as (Hmatched' & _).
    cbv zeta in *.
    apply CompareResult_eq; [|done|done].
    rewrite Hmatched, Hmatched'. apply streamed_entries_clean.
    destruct (partitionInv_scan
                (fun t => createCompositeKeyFromAllColumns (VObj t))
                (concat stream2) 1000 ltac:(lia)) as (_ & Hsub & _).
    rewrite Forall_forall in Hclean |- *. intros row Hrow.
    apply Hclean. by eapply elem_of_sublist. }
  cbv zeta.
  by rewrite Hcmp, Hdups1, Hdups2, Hgroups1, Hgroups2, Hcount1, Hcount2.
Qed.

End OrchestratorsAgree.

(** The sheets [A] and [B] of the examples, mapped on [id]. *)
Lemma X15_streaming_and_array_orchestrators_agree_witness :
  (Streaming.processFiles unit exampleSheetColumns exampleStream tt tt "A" "B"
     [mappingOnId]).2
  = (processFiles unit exampleSheetData tt tt "A" "B" [mappingOnId]).2.
Proof.
  destruct (processFiles unit exampleSheetData tt tt "A" "B" [mappingOnId])
    as [logA [eA|resA]] eqn:HA; [vm_compute in HA; discriminate|].
  destruct (Streaming.processFiles unit exampleSheetColumns exampleStream tt tt "A" "B"
              [mappingOnId])
    as [logS [eS|resS]] eqn:HS; [vm_compute in HS; discriminate|].
  simpl. f_equal.
  apply (X15_streaming_and_array_orchestrators_agree unit exampleSheetData
           exampleSheetColumns exampleStream tt tt "A" "B" [mappingOnId]
           logA logS resA resS);
    [reflexivity|reflexivity|repeat constructor|exact HA|exact HS].
Defined.

(** ** More on the exporter *)

Lemma object_has_set (o : Transaction) k k' v :
  Js.has (Js.set o k v) k' = Js.has o k' || String.eqb k k'.
Proof.
  unfold Js.has. induction o as [|[k0 v0] o IH]; simpl.
  - by rewrite orb_false_r.
  - destruct (String.eqb k0 k) eqn:E; simpl.
    + apply String.eqb_eq in E. subst k0.
      destruct (String.eqb k k'); simpl; [done|]. by rewrite orb_false_r.
    + rewrite IH. by rewrite orb_assoc.
Qed.

Lemma object_has_remove (o : Transaction) k k' :
  Js.has (Js.remove o k) k' = Js.has o k' && negb (String.eqb k k').
Proof.
  unfold Js.has, Js.remove. induction o as [|[k0 v0] o IH]; simpl; [done|].
  destruct (String.eqb k0 k) eqn:E; simpl.
  - apply String.eqb_eq in E. subst k0. rewrite IH.
    destruct (String.eqb k k'); simpl; [by rewrite andb_false_r|done].
  - rewrite IH. destruct (String.eqb k0 k') eqn:E'; simpl; [|done].
    apply String.eqb_eq in E'. subst k0. by rewrite String.eqb_sym, E.
Qed.

Lemma object_get_remove_ne (o : Transaction) k k' :
  k <> k' -> Js.get (Js.remove o k) k' = Js.get o k'.
Proof.
  intros Hne. unfold Js.remove. induction o as [|[k0 v0] o IH]; simpl; [done|].
  destruct (String.eqb k0 k) eqn:E; simpl.
  - apply String.eqb_eq in E. subst k0.
    destruct (String.eqb k k') eqn:E'; [by apply String.eqb_eq in E'|done].
  - by rewrite IH.
Qed.

Lemma startsWith_app (p s : string) : JsString.startsWith p (p +:+ s) = true.
Proof.
  unfold JsString.startsWith. induction p as [|a p IH]; [by destruct s|].
  change (String a p +:+ s) with (String a (p +:+ s)). simpl.
  by destruct (ascii_dec a a).
Qed.

(** The columns added for the back-reference leave the other columns
    alone. *)
Lemma flatten_entries (entries : Transaction) : forall mainItem k,
  JsString.startsWith "File2_" k = false ->
  let out :=
    foldl (fun (mainItem : Transaction) (kv : string * value) =>
             if negb (Js.has mainItem kv.1)
             then Js.set mainItem ("File2_" +:+ kv.1) kv.2
             else mainItem)
          mainItem entries in
  Js.get out k = Js.get mainItem k /\ Js.has out k = Js.has mainItem k.
Proof.
  induction entries as [|[k0 v0] entries IH]; intros mainItem k Hk; simpl; [done|].
  destruct (Js.has mainItem k0); simpl; [by apply IH|].
  destruct (IH (Js.set mainItem ("File2_" +:+ k0) v0) k Hk) as [Hget Hhas].
  assert (Hne : "File2_" +:+ k0 <> k).
  { intros <-. by rewrite startsWith_app in Hk. }
  rewrite Hget, Hhas, object_get_set_ne, object_has_set by done.
  apply String.eqb_neq in Hne. by rewrite Hne, orb_false_r.
Qed.

(** X16.  [processMatchedItem], on a row whose [_matchedWith] is an object,
    returns a row without [_matchedWith] in which every other column whose
    name does not start with [File2_] is as it was: present exactly when it
    was present, with the value it had. *)
Theorem X16_flattening_keeps_the_columns_of_file_1
    (props entries : Transaction) :
  Js.get props "_matchedWith" = VObj entries ->
  exists out,
    processMatchedItem (VObj props) = VObj out
    /\ Js.has out "_matchedWith" = false
    /\ (forall k, k <> "_matchedWith" ->
                  JsString.startsWith "File2_" k = false ->
                  Js.get out k = Js.get props k /\ Js.has out k = Js.has props k).
Proof.
  intros Hmw. unfold processMatchedItem. simpl. rewrite Hmw. simpl.
  eexists. split; [reflexivity|].
  split.
  - destruct (flatten_entries entries (Js.remove props "_matchedWith") "_matchedWith"
                eq_refl) as [_ Hhas].
    rewrite Hhas, object_has_remove. simpl. by rewrite andb_false_r.
  - intros k Hne Hk.
    destruct (flatten_entries entries (Js.remove props "_matchedWith") k Hk)
      as [Hget Hhas].
    rewrite Hget, Hhas, object_get_remove_ne, object_has_remove by done.
    apply not_eq_sym, String.eqb_neq in Hne. by rewrite Hne, andb_true_r.
Qed.

Lemma X16_flattening_keeps_the_columns_of_file_1_witness :
  exists out,
    processMatchedItem
      (VObj [("id", VStr "1"); ("amt", VStr "10");
             ("_matchedWith", VObj [("id", VStr "1"); ("ref", VStr "A")])])
    = VObj out
    /\ Js.has out "_matchedWith" = false.
Proof.
  destruct (X16_flattening_keeps_the_columns_of_file_1
              [("id", VStr "1"); ("amt", VStr "10");
               ("_matchedWith", VObj [("id", VStr "1"); ("ref", VStr "A")])]
              [("id", VStr "1"); ("ref", VStr "A")] eq_refl)
    as (out & Hout & Hhas & _).
  by exists out.
Defined.

(** ** Sheets of up to 50,000 rows *)

Lemma headerOf_row_keeps hdr (keys : list string) k :
  k ∈ hdr ->
  k ∈ foldl (fun hdr k => if bool_decide (k ∈ hdr) then hdr else hdr ++ [k]) hdr keys.
Proof.
  revert hdr. induction keys as [|k0 keys IH]; intros hdr Hin; simpl; [done|].
  apply IH. case_bool_decide; [done|]. apply elem_of_app. by left.
Qed.

Lemma headerOf_row_adds hdr (keys : list string) k :
  k ∈ keys ->
  k ∈ foldl (fun hdr k => if bool_decide (k ∈ hdr) then hdr else hdr ++ [k]) hdr keys.
Proof.
  revert hdr. induction keys as [|k0 keys IH]; intros hdr Hin; simpl.
  - by apply elem_of_nil in Hin.
  - apply elem_of_cons in Hin as [->|Hin]; [|by apply IH].
    apply headerOf_row_keeps. case_bool_decide; [done|].
    apply elem_of_app. right. left.
Qed.

(** The header of a JSON sheet has every column of every row. *)
Lemma headerOf_complete (js : list value) v k :
  v ∈ js -> k ∈ Js.keys (XLSX.ownProps v) -> k ∈ XLSX.headerOf js.
Proof.
  unfold XLSX.headerOf.
  assert (Hgen : forall hdr,
             (k ∈ hdr \/ (v ∈ js /\ k ∈ Js.keys (XLSX.ownProps v))) ->
             k ∈ foldl (fun hdr v =>
                          foldl (fun hdr k => if bool_decide (k ∈ hdr) then hdr
                                              else hdr ++ [k])
                                hdr (Js.keys (XLSX.ownProps v)))
                       hdr js).
  { induction js as [|v0 js IH]; intros hdr H; simpl.
    - destruct H as [H|[H _]]; [done|by apply elem_of_nil in H].
    - apply IH. destruct H as [H|[Hv Hk]].
      + left. by apply headerOf_row_keeps.
      + apply elem_of_cons in Hv as [->|Hv]; [|by right].
        left. by apply headerOf_row_adds. }
  intros Hv Hk. apply Hgen. by right.
Qed.

Section SheetFacts.
Variable jsonLength : value -> N.
Variable toLocaleString : N -> string.

Lemma validData_objects (data : list value) :
  Forall (fun v => Js.isObject v = true) data ->
  List.filter (fun item => negb (Js.nullish item)) data = data.
Proof.
  intros Hobj. apply filter_all. eapply Forall_impl; [exact Hobj|].
  intros v Hv. simpl. by rewrite (isObject_not_nullish v Hv).
Qed.

(** X17.  A category of at most 2,000 object rows that fits one chunk, whose
    first row has no back-reference, becomes one sheet: a header row with
    every column that some row has, each at its first occurrence, and under
    it one row per item, in order, each value under its own column. *)
Theorem X17_small_category_is_written_under_a_common_header
    (workbook : XLSX.WorkBook) (sheetName : string)
    (firstProps : Transaction) (rest : list value) :
  let data := VObj firstProps :: rest in
  Forall (fun v => Js.isObject v = true) data ->
  Js.has firstProps "_matchedWith" = false ->
  (N.of_nat (length data) <= MAX_CHUNK_SIZE)%N ->
  (N.of_nat (length data) * jsonLength (VObj firstProps) <= 5000000)%N ->
  XLSX.validSheetName sheetName = true ->
  sheetName ∉ workbook.*1 ->
  processSheetData jsonLength toLocaleString workbook sheetName data
  = inr (workbook ++
           [(sheetName,
             (VStr <$> XLSX.headerOf data)
             :: (XLSX.rowUnder (XLSX.headerOf data) <$> data))])
  /\ (forall v k, v ∈ data -> k ∈ Js.keys (XLSX.ownProps v) ->
                  k ∈ XLSX.headerOf data).
Proof.
  intros data Hobj Hplain Hsmall Hfit Hvalid Hfresh.
  split; [|intros v k; apply headerOf_complete].
  unfold processSheetData.
  rewrite decide_False by done.
  rewrite (validData_objects data Hobj). unfold data at 1.
  rewrite Hplain.
  set (total := N.of_nat (length data)) in *.
  set (rowSize := jsonLength (VObj firstProps)) in *.
  set (chunkSize := if (rowSize =? 0)%N then MAX_CHUNK_SIZE
                    else N.max 1 (N.min MAX_CHUNK_SIZE (5000000 / rowSize))).
  assert (Hpos : (0 < total)%N) by (unfold total, data; simpl; lia).
  assert (Hchunk : (total <= chunkSize)%N).
  { unfold chunkSize. destruct (rowSize =? 0)%N eqn:Hz; [done|].
    apply N.eqb_neq in Hz.
    assert (total <= 5000000 / rowSize)%N.
    { apply N.div_le_lower_bound; [done|]. lia. }
    lia. }
  assert (Hnottrunc : (MAX_SAFE_ROWS <? total)%N = false).
  { apply N.ltb_ge. unfold MAX_SAFE_ROWS, MAX_CHUNK_SIZE in *. lia. }
  rewrite Hnottrunc.
  assert (Hone : (((total + chunkSize - 1) / chunkSize <=? 1)
                  && (total <=? MAX_CHUNK_SIZE))%N = true).
  { apply andb_true_intro. split; [|by apply N.leb_le].
    apply N.leb_le.
    assert ((total + chunkSize - 1) / chunkSize < 2)%N; [|lia].
    apply N.Div0.div_lt_upper_bound; lia. }
  rewrite Hone.
  unfold XLSX.book_append_sheet, XLSX.json_to_sheet, XLSX.jsonRows.
  rewrite Hvalid. simpl negb. cbv iota.
  by rewrite bool_decide_eq_false_2 by done.
Qed.




End SheetFacts.

(** Two rows, the second without an id: its amount stays under
    [amount]. *)
Lemma X17_small_category_is_written_under_a_common_header_witness :
  processSheetData (fun _ => 30%N) pretty [] "File 1 Only"
    [ VObj [("id", VStr "1"); ("amount", VStr "5")]; VObj [("amount", VStr "7")] ]
  = inr [("File 1 Only",
          [ [VStr "id"; VStr "amount"];
            [VStr "1"; VStr "5"];
            [VUndefined; VStr "7"] ])].
Proof.
  apply (X17_small_category_is_written_under_a_common_header
           (fun _ => 30%N) pretty [] "File 1 Only"
           [("id", VStr "1"); ("amount", VStr "5")] [VObj [("amount", VStr "7")]]).
  - repeat constructor.
  - reflexivity.
  - vm_compute. discriminate.
  - vm_compute. discriminate.
  - reflexivity.
  - apply not_elem_of_nil.
Defined.


(** * Reading the sheets *)

(** ** The header row *)

Lemma length_headerRow (worksheet : ReadSheet) (range : CellRange) :
  length (headerRow worksheet range) = Z.to_nat (e_c range - s_c range + 1).
Proof. unfold headerRow. by rewrite length_fmap, length_seqZ. Qed.

Lemma maxColsOf_no_columns (worksheet : ReadSheet) (range : CellRange) :
  (e_c range < s_c range)%Z -> maxColsOf worksheet range = 0%Z.
Proof.
  intros Hempty. unfold maxColsOf.
  replace (seqZ (s_c range) (e_c range - s_c range + 1)) with (@nil Z)
    by (symmetry; apply seqZ_nil; lia).
  cbn [foldl].
  generalize (seqZ (s_r range) (Z.min (s_r range + 5) (e_r range) - s_r range + 1)).
  intros rows. induction rows as [|R rows IH]; [done|]. cbn [foldl]. exact IH.
Qed.

Lemma defaultHeaders_dead (worksheet : ReadSheet) (range : CellRange) :
  length (headerRow worksheet range) = 0 ->
  defaultHeadersOf (maxColsOf worksheet range) = [].
Proof.
  rewrite length_headerRow. intros Hlen.
  rewrite maxColsOf_no_columns by lia. done.
Qed.

(** X22.  What [getSheetColumns] returns is the header row of the sheet's
    range, one name for each column of the range: the text of the cell in
    the first row, or [Column_N] where the cell is missing.  The range then
    has at least one column, and the five progress reports were made.  The
    fall-back that numbers the columns by the widest of the first rows is
    never returned: it is reached only for a range without columns, where it
    finds no column either and the call is rejected. *)
Theorem X22_getSheetColumns_returns_the_header_row_of_the_range
    (read : ReadOutcome) (sheetName : string) (log : list Event) (columns : list string) :
  getSheetColumns read sheetName = (log, inr columns) ->
  exists workbook worksheet,
    read = Parsed workbook
    /\ sheetName ∈ SheetNames workbook
    /\ Sheets workbook !! sheetName = Some worksheet
    /\ let range := default rangeA1 (sheetRef worksheet) in
       columns = headerRow worksheet range
       /\ (s_c range <= e_c range)%Z
       /\ Z.of_nat (length columns) = (e_c range - s_c range + 1)%Z
       /\ log = [ Progress "Reading file..." 10; Progress "Processing workbook..." 30;
                  Progress "Locating sheet..." 50; Progress "Extracting columns..." 70;
                  Progress "Complete" 100 ].
Proof.
  unfold getSheetColumns. intros Hrun.
  destruct read as [message| |message| |workbook]; try discriminate Hrun.
  destruct (bool_decide (sheetName ∈ SheetNames workbook)) eqn:Hin;
    [|discriminate Hrun].
  apply bool_decide_eq_true in Hin.
  destruct (Sheets workbook !! sheetName) as [worksheet|] eqn:Hws; [|discriminate Hrun].
  exists workbook, worksheet. cbn [negb] in Hrun.
  set (range := default rangeA1 (sheetRef worksheet)) in *.
  destruct (e_r range <? 0)%Z; [discriminate Hrun|].
  destruct (decide (length (headerRow worksheet range) = 0)) as [Hnone|Hsome].
  - rewrite (defaultHeaders_dead _ _ Hnone) in Hrun. discriminate Hrun.
  - injection Hrun as <- <-.
    rewrite length_headerRow in *. split_and!; try done; lia.
Qed.

Lemma X22_getSheetColumns_returns_the_header_row_of_the_range_witness :
  exists workbook worksheet,
    Parsed {| SheetNames := ["Sheet1"];
              Sheets := {[ "Sheet1" :=
                {| sheetRef := Some {| s_r := 0; s_c := 1; e_r := 3; e_c := 2 |};
                   sheetCells := {[ (0, 1)%Z := VStr "id" ]} |} ]} |}
    = Parsed workbook
    /\ "Sheet1" ∈ SheetNames workbook
    /\ Sheets workbook !! "Sheet1" = Some worksheet
    /\ let range := default rangeA1 (sheetRef worksheet) in
       ["id"; "Column_3"] = headerRow worksheet range
       /\ (s_c range <= e_c range)%Z
       /\ Z.of_nat (length ["id"; "Column_3"]) = (e_c range - s_c range + 1)%Z
       /\ [ Progress "Reading file..." 10; Progress "Processing workbook..." 30;
            Progress "Locating sheet..." 50; Progress "Extracting columns..." 70;
            Progress "Complete" 100 ]
          = [ Progress "Reading file..." 10; Progress "Processing workbook..." 30;
              Progress "Locating sheet..." 50; Progress "Extracting columns..." 70;
              Progress "Complete" 100 ].
Proof.
  apply (X22_getSheetColumns_returns_the_header_row_of_the_range
           (Parsed {| SheetNames := ["Sheet1"];
              Sheets := {[ "Sheet1" :=
                {| sheetRef := Some {| s_r := 0; s_c := 1; e_r := 3; e_c := 2 |};
                   sheetCells := {[ (0, 1)%Z := VStr "id" ]} |} ]} |})
           "Sheet1").
  vm_compute. reflexivity.
Defined.

(** X23.  The worker that answers with whole results and the main thread
    read the columns alike: for a parsed workbook and a sheet name that is
    not empty, the worker's last message to a [loadColumns] request carries
    the columns that [getSheetColumns] returns, or else, with [status:
    "error"], the message with which [getSheetColumns] is rejected. *)
Theorem X23_worker_columns_agree_with_getSheetColumns
    (workbook : ReadBook) (sheetName : string) :
  JsString.truthy sheetName = true ->
  last (workerLoadColumns (inr workbook) sheetName)
  = Some match (getSheetColumns (Parsed workbook) sheetName).2 with
         | inr columns => RespColumns columns
         | inl message => RespColumnsError message
         end.
Proof.
  intros Hname. unfold workerLoadColumns, getSheetColumns. rewrite Hname. cbn [negb].
  destruct (bool_decide (sheetName ∈ SheetNames workbook)); cbn [negb]; [|done].
  destruct (Sheets workbook !! sheetName) as [worksheet|]; [|done].
  set (range := default rangeA1 (sheetRef worksheet)).
  destruct (e_r range <? 0)%Z; [done|].
  destruct (decide (length (headerRow worksheet range) = 0)) as [Hnone|Hsome]; [|done].
  rewrite (defaultHeaders_dead _ _ Hnone). apply nil_length_inv in Hnone. rewrite Hnone.
  done.
Qed.

Lemma X23_worker_columns_agree_with_getSheetColumns_witness :
  last (workerLoadColumns
          (inr {| SheetNames := ["Sheet1"];
                  Sheets := {[ "Sheet1" :=
                    {| sheetRef := Some {| s_r := 0; s_c := 1; e_r := 3; e_c := 2 |};
                       sheetCells := {[ (0, 1)%Z := VStr "id" ]} |} ]} |})
          "Sheet1")
  = Some (RespColumns ["id"; "Column_3"]).
Proof.
  etrans.
  - apply (X23_worker_columns_agree_with_getSheetColumns
             {| SheetNames := ["Sheet1"];
                Sheets := {[ "Sheet1" :=
                  {| sheetRef := Some {| s_r := 0; s_c := 1; e_r := 3; e_c := 2 |};
                     sheetCells := {[ (0, 1)%Z := VStr "id" ]} |} ]} |}
             "Sheet1").
    reflexivity.
  - vm_compute. reflexivity.
Defined.

(** ** The columns through the worker *)

(** X28.  [getSheetColumnsWithWorker] never resolves.  Its listener passes
    over every message that is neither a progress report nor an error unless
    the message has [originalType: "loadColumns"], and the worker posts the
    columns without [originalType].  So whatever the worker posts, the
    promise is rejected, at the first error of a [loadColumns] request and
    with its message, or it is never settled; the columns the worker found
    do not arrive. *)
Theorem X28_getSheetColumnsWithWorker_never_resolves (messages : list WorkerMessage) :
  match getSheetColumnsWithWorker (messageData <$> messages) with
  | Resolved _ => False
  | Rejected message =>
      exists error,
        MsgError error (Some LoadColumns) ∈ messages
        /\ message = orElse (Some error) "Generic error from worker while loading columns"
  | Unsettled => forall error, MsgError error (Some LoadColumns) ∉ messages
  end.
Proof.
  induction messages as [|message messages IH]; cbn [fmap list_fmap getSheetColumnsWithWorker].
  - intros error. apply not_elem_of_nil.
  - change (list_fmap _ _ messageData messages) with (messageData <$> messages).
    assert (Hrest : columnsMessageListener (messageData message) = Unsettled ->
              (forall error, message <> MsgError error (Some LoadColumns)) ->
              match getSheetColumnsWithWorker (messageData <$> messages) with
              | Resolved _ => False
              | Rejected text =>
                  exists error,
                    MsgError error (Some LoadColumns) ∈ message :: messages
                    /\ text = orElse (Some error)
                                "Generic error from worker while loading columns"
              | Unsettled =>
                  forall error, MsgError error (Some LoadColumns) ∉ message :: messages
              end).
    { intros _ Hother.
      destruct (getSheetColumnsWithWorker (messageData <$> messages)) as [|columns|text].
      - intros error Hin. apply elem_of_cons in Hin as [Heq|Hin].
        + by apply (Hother error).
        + by apply (IH error).
      - done.
      - destruct IH as (error & Hin & ->). exists error. split; [|done].
        by apply list_elem_of_further. }
    destruct message as [stage percent|sheets|columns|data| |error originalType];
      try (cbn; apply Hrest; [done|by intros error]).
    destruct originalType as [[| |]|];
      try (cbn; apply Hrest; [done|by intros error']).
    change (columnsMessageListener (messageData (MsgError error (Some LoadColumns))))
      with (@Rejected (option (list string))
              (orElse (Some error) "Generic error from worker while loading columns")).
    exists error. split; [apply list_elem_of_here|done].
Qed.

(** * Splitting a large export *)

Lemma list_ascii_of_string_app (a b : string) :
  list_ascii_of_string (a +:+ b) = list_ascii_of_string a ++ list_ascii_of_string b.
Proof.
  induction a as [|c a IH]; [done|].
  change (String c a +:+ b) with (String c (a +:+ b)).
  cbn [list_ascii_of_string app]. by rewrite IH.
Qed.

Lemma chunkSheetName_invalid (sheetName : string) (i chunks : nat) :
  XLSX.validSheetName (chunkSheetName sheetName i chunks) = false.
Proof.
  unfold XLSX.validSheetName, chunkSheetName.
  apply andb_false_intro2.
  rewrite !list_ascii_of_string_app, !forallb_app.
  change (forallb _ (list_ascii_of_string "/")) with false.
  by rewrite !andb_false_r, ?andb_false_l.
Qed.

Lemma addSheet_invalid (fileName : string) (st : SplitState) (sheetData : list value)
    (name : string) :
  XLSX.validSheetName name = false ->
  exists e, addSheet fileName st sheetData name = inl e.
Proof.
  intros Hbad. unfold addSheet, XLSX.book_append_sheet. rewrite Hbad.
  destruct (existsb Js.nullish sheetData); by eexists.
Qed.

Lemma foldl_failed {A : Type} (f : SplitState -> A -> SplitError + SplitState)
    (l : list A) (e : SplitError) :
  foldl (fun (acc : SplitError + SplitState) x =>
           match acc with inl e => inl e | inr st => f st x end) (inl e) l
  = inl e.
Proof. induction l as [|x l IH]; [done|]. exact IH. Qed.

Lemma splitSheet_large (fileName : string) (st : SplitState) (sheetName : string)
    (sheetData : list value) :
  N.to_nat MAX_ROWS_PER_SHEET < length sheetData ->
  exists e, splitSheet fileName st (sheetName, sheetData) = inl e.
Proof.
  intros Hlarge. unfold splitSheet.
  destruct (decide (length sheetData = 0)) as [Hnil|_]; [lia|].
  destruct (decide (N.to_nat MAX_ROWS_PER_SHEET < length sheetData)); [|lia].
  destruct (ceilDiv_bounds (length sheetData) (N.to_nat MAX_ROWS_PER_SHEET))
    as [Hlow _]; [unfold MAX_ROWS_PER_SHEET; lia|].
  destruct (ceilDiv (length sheetData) (N.to_nat MAX_ROWS_PER_SHEET)) as [|chunks] eqn:Hchunks.
  { unfold MAX_ROWS_PER_SHEET in *. lia. }
  cbn [seq foldl].
  destruct (addSheet_invalid fileName st
              (slice sheetData (0 * N.to_nat MAX_ROWS_PER_SHEET)
                 (Nat.min (0 * N.to_nat MAX_ROWS_PER_SHEET + N.to_nat MAX_ROWS_PER_SHEET)
                    (length sheetData)))
              (chunkSheetName sheetName 0 (S chunks))
              (chunkSheetName_invalid sheetName 0 (S chunks))) as [e ->].
  exists e. apply (foldl_failed
    (fun st i => addSheet fileName st
                   (slice sheetData (i * N.to_nat MAX_ROWS_PER_SHEET)
                      (Nat.min (i * N.to_nat MAX_ROWS_PER_SHEET + N.to_nat MAX_ROWS_PER_SHEET)
                         (length sheetData)))
                   (chunkSheetName sheetName i (S chunks)))).
Qed.

Lemma totalRowsOf_from (data : list (string * list value)) (n : nat) :
  foldl (fun sum (entry : string * list value) => sum + length entry.2) n data
  = n + totalRowsOf data.
Proof.
  unfold totalRowsOf. revert n. induction data as [|entry data IH]; intros n; cbn [foldl].
  - lia.
  - rewrite IH, (IH (0 + _)). lia.
Qed.

Lemma totalRowsOf_ge (data : list (string * list value)) (name : string)
    (rows : list value) :
  (name, rows) ∈ data -> length rows <= totalRowsOf data.
Proof.
  induction data as [|entry data IH]; intros Hin; [by apply elem_of_nil in Hin|].
  unfold totalRowsOf. cbn [foldl]. rewrite totalRowsOf_from.
  apply elem_of_cons in Hin as [<-|Hin]; cbn [snd]; [lia|].
  specialize (IH Hin). lia.
Qed.

(** X24.  A sheet of more than 100,000 rows cannot be split: its parts are
    named [name (i/n)], the spreadsheet library refuses a sheet name with a
    [/], and nothing catches what it throws.  So whenever [data] has such a
    sheet, [splitLargeExport] is rejected and returns no file. *)
Theorem X24_a_sheet_over_the_row_limit_makes_the_split_fail
    (data : list (string * list value)) (fileName name : string) (rows : list value) :
  (name, rows) ∈ data ->
  N.to_nat MAX_ROWS_PER_SHEET < length rows ->
  exists e, splitLargeExport data fileName = inl e.
Proof.
  intros Hin Hlarge. unfold splitLargeExport.
  pose proof (totalRowsOf_ge _ _ _ Hin) as Htotal.
  destruct (decide _) as [[Hsmall _]|_]; [lia|].
  generalize {| splitResults := []; currentFileIndex := 1;
                currentWorkbook := XLSX.book_new; currentSheetCount := 0 |}.
  clear Htotal.
  induction data as [|entry data IH]; intros st; [by apply elem_of_nil in Hin|].
  cbn [foldl]. apply elem_of_cons in Hin as [<-|Hin].
  - destruct (splitSheet_large fileName st name rows Hlarge) as [e ->].
    exists e. by rewrite foldl_failed.
  - destruct (splitSheet fileName st entry) as [e|st'].
    + exists e. by rewrite foldl_failed.
    + by apply IH.
Qed.

Lemma X24_a_sheet_over_the_row_limit_makes_the_split_fail_witness :
  exists e,
    splitLargeExport [("Matched", replicate (N.to_nat 100001) (VObj [("id", VStr "1")]))] "export"
    = inl e.
Proof.
  apply (X24_a_sheet_over_the_row_limit_makes_the_split_fail
           [("Matched", replicate (N.to_nat 100001) (VObj [("id", VStr "1")]))] "export"
           "Matched" (replicate (N.to_nat 100001) (VObj [("id", VStr "1")]))).
  - apply list_elem_of_here.
  - rewrite length_replicate. unfold MAX_ROWS_PER_SHEET. lia.
Defined.

Section SplitFacts.
Variable fileName : string.

Lemma object_rows_not_nullish (rows : list value) :
  Forall (fun row => Js.isObject row = true) rows -> existsb Js.nullish rows = false.
Proof.
  induction 1 as [|row rows Hrow _ IH]; [done|].
  cbn [existsb]. rewrite IH. by destruct row.
Qed.

Lemma addSheet_inv (st : SplitState) (done : list (string * list (list value)))
    (sheetData : list value) (name : string) :
  splitInv fileName st done ->
  Forall (fun row => Js.isObject row = true) sheetData ->
  XLSX.validSheetName name = true ->
  name ∉ done.*1 ->
  exists st', addSheet fileName st sheetData name = inr st'
              /\ splitInv fileName st' (done ++ [(name, XLSX.json_to_sheet sheetData)])
              /\ 0 < currentSheetCount st'.
Proof.
  intros (Hdone & Hcount & Hmax & Hfirst & Hfull & Hindex & Hnames) Hrows Hvalid Hfresh.
  unfold addSheet, XLSX.book_append_sheet.
  rewrite (object_rows_not_nullish _ Hrows), Hvalid. cbn [negb].
  assert (Hcur : name ∉ (currentWorkbook st).*1).
  { intros Hin. apply Hfresh. rewrite <- Hdone, fmap_app. apply elem_of_app. by right. }
  destruct (decide (MAX_SHEETS_PER_WORKBOOK <= currentSheetCount st)) as [Hfullnow|Hroom];
    cbn [currentWorkbook splitResults currentFileIndex currentSheetCount].
  - rewrite bool_decide_false by (by apply not_elem_of_nil).
    eexists. split; [done|]. split; [|cbn; lia].
    unfold splitInv; cbn [currentWorkbook splitResults currentFileIndex currentSheetCount].
    split_and!.
    + rewrite fmap_app, concat_app. cbn [fmap list_fmap concat fst].
      rewrite app_nil_r, <- Hdone. unfold XLSX.book_new.
      by rewrite <- !app_assoc.
    + done.
    + unfold MAX_SHEETS_PER_WORKBOOK. lia.
    + done.
    + apply Forall_app. split; [done|]. constructor; [|constructor]. cbn [fst]. lia.
    + rewrite length_app. cbn [length]. lia.
    + rewrite fmap_app, length_app, Hnames. cbn [length fmap list_fmap snd].
      rewrite Nat.add_1_r, seq_S, fmap_app, Hindex. done.
  - rewrite bool_decide_false by done.
    eexists. split; [done|]. split; [|cbn; lia].
    unfold splitInv; cbn [currentWorkbook splitResults currentFileIndex currentSheetCount].
    split_and!; try done.
    + by rewrite app_assoc, Hdone.
    + rewrite length_app. cbn [length]. lia.
    + lia.
Qed.

Lemma splitLoop_inv (data : list (string * list value)) (st : SplitState)
    (done : list (string * list (list value))) :
  splitInv fileName st done ->
  Forall (fun entry : string * list value =>
            Forall (fun row => Js.isObject row = true) entry.2) data ->
  Forall (fun entry : string * list value =>
            XLSX.validSheetName entry.1 = true
            /\ length entry.2 <= N.to_nat MAX_ROWS_PER_SHEET) data ->
  NoDup (done.*1 ++ data.*1) ->
  exists st',
    foldl (fun (acc : SplitError + SplitState) entry =>
             match acc with
             | inl e => inl e
             | inr st => splitSheet fileName st entry
             end) (inr st) data = inr st'
    /\ splitInv fileName st' (done ++ sheetsWithRows data).
Proof.
  revert st done. induction data as [|[sheetName sheetData] data IH];
    intros st done Hinv Hobj Hall Hnodup.
  - exists st. split; [done|]. unfold sheetsWithRows. cbn. by rewrite app_nil_r.
  - apply Forall_cons in Hall as [[Hvalid Hrows] Hall]. cbn [fst snd] in Hvalid, Hrows.
    apply Forall_cons in Hobj as [Hobjects Hobj]. cbn [snd] in Hobjects.
    cbn [foldl]. unfold splitSheet at 2.
    assert (Hfresh : sheetName ∉ done.*1).
    { apply NoDup_app in Hnodup as (_ & Hdisj & _). intros Hin.
      apply (Hdisj _ Hin). cbn. apply list_elem_of_here. }
    destruct (decide (length sheetData = 0)) as [Hnil|Hsome].
    + apply nil_length_inv in Hnil. subst sheetData.
      destruct (IH st done Hinv Hobj Hall) as (st' & Hrun & Hinv').
      { apply NoDup_app in Hnodup as (Hd1 & Hdisj & Hd2). apply NoDup_app.
        split_and!; [done| |by apply NoDup_cons in Hd2 as [_ ?]].
        intros x Hx Hx'. apply (Hdisj x Hx). cbn. by apply list_elem_of_further. }
      exists st'. split; [done|].
      unfold sheetsWithRows in *. cbn [List.filter snd negb]. by rewrite bool_decide_true.
    + destruct (decide (N.to_nat MAX_ROWS_PER_SHEET < length sheetData)); [lia|].
      destruct (addSheet_inv st done sheetData sheetName Hinv Hobjects Hvalid Hfresh)
        as (st1 & -> & Hinv1 & _).
      destruct (IH st1 (done ++ [(sheetName, XLSX.json_to_sheet sheetData)]) Hinv1 Hobj Hall)
        as (st' & Hrun & Hinv').
      { rewrite fmap_app. cbn [fmap list_fmap fst]. rewrite <- app_assoc. exact Hnodup. }
      exists st'. split; [done|].
      unfold sheetsWithRows in *. cbn [List.filter snd negb].
      rewrite bool_decide_false by (intros ->; by apply Hsome).
      cbn [negb fmap list_fmap fst snd]. by rewrite <- app_assoc in Hinv'.
Qed.

End SplitFacts.

(** X25.  When every row is an object, no sheet is over the row limit and
    the sheet names are accepted, a split that is needed succeeds: the sheets
    that have rows go into the files in the order of [data], ten to a file
    and the rest in the last one, and the files are named
    [<fileName>_part1.xlsx], [<fileName>_part2.xlsx] and so on.  Sheets
    without rows are left out.  (The rows go to [json_to_sheet] as they are,
    and the library throws on a row that is [null] or [undefined].) *)
Theorem X25_a_split_puts_the_sheets_ten_to_a_file_in_order
    (data : list (string * list value)) (fileName : string) :
  ~ (totalRowsOf data <= N.to_nat MAX_ROWS_PER_SHEET
     /\ length data <= MAX_SHEETS_PER_WORKBOOK) ->
  Forall (fun entry : string * list value =>
            Forall (fun row => Js.isObject row = true) entry.2) data ->
  Forall (fun entry : string * list value =>
            XLSX.validSheetName entry.1 = true
            /\ length entry.2 <= N.to_nat MAX_ROWS_PER_SHEET) data ->
  NoDup data.*1 ->
  exists parts,
    splitLargeExport data fileName = inr parts
    /\ concat parts.*1 = sheetsWithRows data
    /\ Forall (fun part : XLSX.WorkBook * string => 1 <= length part.1 <= 10) parts
    /\ Forall (fun part : XLSX.WorkBook * string => length part.1 = 10)
              (take (length parts - 1) parts)
    /\ parts.*2 = partFileName fileName <$> seq 1 (length parts).
Proof.
  intros Hsplit Hobj Hall Hnodup. unfold splitLargeExport.
  destruct (decide _) as [Hsmall|_]; [done|].
  destruct (splitLoop_inv fileName data
              {| splitResults := []; currentFileIndex := 1;
                 currentWorkbook := XLSX.book_new; currentSheetCount := 0 |} [])
    as (st & -> & Hdone & Hcount & Hmax & Hfirst & Hfull & Hindex & Hnames);
    [by repeat split; try constructor; cbn; unfold MAX_SHEETS_PER_WORKBOOK; lia
    |done|done|done|].
  cbn [app] in Hdone. unfold MAX_SHEETS_PER_WORKBOOK in *.
  destruct (decide (0 < currentSheetCount st)) as [Hpos|Hzero].
  - eexists. split; [done|]. split_and!.
    + rewrite fmap_app, concat_app. cbn [fmap list_fmap concat fst].
      by rewrite app_nil_r.
    + apply Forall_app. split.
      * eapply Forall_impl; [exact Hfull|]. cbn. intros part ->. lia.
      * constructor; [|constructor]. cbn [fst]. lia.
    + rewrite length_app. cbn [length].
      replace (length (splitResults st) + 1 - 1) with (length (splitResults st)) by lia.
      by rewrite take_app_length.
    + rewrite fmap_app, length_app, Hnames. cbn [length fmap list_fmap snd].
      rewrite Nat.add_1_r, seq_S, fmap_app, Hindex. done.
  - assert (splitResults st = []) as Hnone by (apply Hfirst; lia).
    assert (currentWorkbook st = []) as Hcur by (apply nil_length_inv; lia).
    rewrite Hnone, Hcur in *. exists []. split; [done|].
    split_and!; try done; constructor.
Qed.

Lemma X25_a_split_puts_the_sheets_ten_to_a_file_in_order_witness :
  exists parts,
    splitLargeExport exampleSheets "export" = inr parts
    /\ concat parts.*1 = sheetsWithRows exampleSheets
    /\ Forall (fun part : XLSX.WorkBook * string => 1 <= length part.1 <= 10) parts
    /\ Forall (fun part : XLSX.WorkBook * string => length part.1 = 10)
              (take (length parts - 1) parts)
    /\ parts.*2 = partFileName "export" <$> seq 1 (length parts).
Proof.
  apply (X25_a_split_puts_the_sheets_ten_to_a_file_in_order exampleSheets "export").
  - intros [_ Hsheets]. vm_compute in Hsheets. lia.
  - unfold exampleSheets. cbn [fmap list_fmap]. repeat constructor.
  - unfold exampleSheets. cbn [fmap list_fmap].
    repeat (constructor;
            [split; [reflexivity|cbn [snd length]; unfold MAX_ROWS_PER_SHEET; lia]|]).
    constructor.
  - apply (bool_decide_unpack (NoDup exampleSheets.*1)). vm_compute. exact I.
Defined.

(** * The column mapper *)

Section ColumnMapperFacts.
Variables file1Columns file2Columns : list string.

Abbreviation offered := (offeredMapping file1Columns file2Columns).

Lemma mapperStep_offered (mappings mappings' : list ColumnMapping) :
  mapperStep file1Columns file2Columns mappings mappings' ->
  Forall offered mappings /\ mappings <> [] ->
  Forall offered mappings' /\ mappings' <> [].
Proof.
  intros Hstep [Hall Hsome].
  destruct Hstep as [|index Hindex Hone|index column Hindex Hcolumn
                     |index column Hindex Hcolumn|index checked Hindex].
  - split.
    + apply Forall_app. split; [done|]. constructor; [|constructor].
      split; by left.
    + unfold addMapping. by destruct mappings.
  - split.
    + by apply Forall_delete.
    + unfold removeMapping. intros Hnil.
      assert (length (delete index mappings) = 0) as Hlen by (by rewrite Hnil).
      rewrite length_delete in Hlen by (by apply lookup_lt_is_Some).
      lia.
  - split.
    + apply Forall_alter; [done|]. intros m _ [_ H2]. split; [by right|done].
    + unfold updateMapping. intros Hnil.
      assert (length (alter (fun m => updated m (SetFile1Column column)) index mappings) = 0)
        as Hlen by (by rewrite Hnil).
      rewrite length_alter in Hlen. by destruct mappings.
  - split.
    + apply Forall_alter; [done|]. intros m _ [H1 _]. split; [done|by right].
    + unfold updateMapping. intros Hnil.
      assert (length (alter (fun m => updated m (SetFile2Column column)) index mappings) = 0)
        as Hlen by (by rewrite Hnil).
      rewrite length_alter in Hlen. by destruct mappings.
  - split.
    + apply Forall_alter; [done|]. by intros m _ [H1 H2].
    + unfold updateMapping. intros Hnil.
      assert (length (alter (fun m => updated m (SetIsExactMatch checked)) index mappings) = 0)
        as Hlen by (by rewrite Hnil).
      rewrite length_alter in Hlen. by destruct mappings.
Qed.

Lemma mapperState_offered (mappings : list ColumnMapping) :
  mapperState file1Columns file2Columns mappings ->
  Forall offered mappings /\ mappings <> [].
Proof.
  induction 1 as [|mappings mappings' _ IH Hstep].
  - unfold initialMappings.
    destruct file1Columns as [|column1 ?], file2Columns as [|column2 ?];
      (split; [|done]); (constructor; [|constructor]); split; cbn;
      first [by left | right; apply list_elem_of_here].
  - by apply (mapperStep_offered mappings).
Qed.

Lemma truthy_nonempty (s : string) : JsString.truthy s = true -> s <> "".
Proof. by intros Htruthy ->. Qed.

Lemma validate_offered (mappings : list ColumnMapping) :
  Forall offered mappings ->
  Streaming.validateColumnMappingsAgainstHeaders file1Columns file2Columns
    (handleSave mappings) = ret tt.
Proof.
  induction 1 as [|m mappings [H1 H2] _ IH]; [done|].
  unfold handleSave in *. cbn [List.filter].
  destruct (complete m) eqn:Hcomplete; [|done].
  apply andb_true_iff in Hcomplete as [Ht1 Ht2].
  apply truthy_nonempty in Ht1, Ht2.
  destruct H1 as [?|H1]; [done|]. destruct H2 as [?|H2]; [done|].
  cbn [Streaming.validateColumnMappingsAgainstHeaders].
  by rewrite !bool_decide_true.
Qed.

End ColumnMapperFacts.

(** X26.  What the column mapper saves passes the check of the mappings
    against the headers.  However the user has added, removed and set rows,
    the mapper shows at least one row; and when [Save & Continue] is enabled,
    [handleSave] hands over at least one mapping, each with a column of
    file 1 and a column of file 2 from the lists the mapper was given, so
    that [validateColumnMappingsAgainstHeaders] accepts them for these
    lists. *)
Theorem X26_saved_mappings_pass_the_header_check
    (file1Columns file2Columns : list string) (mappings : list ColumnMapping) :
  mapperState file1Columns file2Columns mappings ->
  isValid mappings = true ->
  mappings <> []
  /\ handleSave mappings <> []
  /\ Forall (fun m => file1Column m ∈ file1Columns /\ file2Column m ∈ file2Columns)
            (handleSave mappings)
  /\ Streaming.validateColumnMappingsAgainstHeaders file1Columns file2Columns
       (handleSave mappings) = ret tt.
Proof.
  intros Hstate Hvalid.
  destruct (mapperState_offered _ _ _ Hstate) as [Hall Hsome].
  split_and!; [done| | |by apply validate_offered].
  - unfold isValid, handleSave in *. apply existsb_exists in Hvalid as (m & Hin & Hm).
    intros Hnil. assert (In m (List.filter complete mappings)) as Hin'
      by (by apply filter_In).
    by rewrite Hnil in Hin'.
  - unfold handleSave. apply Forall_forall. intros m Hin.
    apply list_elem_of_In, filter_In in Hin as [Hin Hm].
    apply list_elem_of_In in Hin.
    rewrite Forall_forall in Hall. destruct (Hall m Hin) as [H1 H2].
    apply andb_true_iff in Hm as [Ht1 Ht2].
    apply truthy_nonempty in Ht1, Ht2.
    by destruct H1, H2.
Qed.

Lemma X26_saved_mappings_pass_the_header_check_witness :
  let mappings :=
    updateMapping 1 (SetFile2Column "total")
      (updateMapping 1 (SetFile1Column "amount")
         (addMapping (initialMappings ["id"; "amount"] ["ref"; "total"]))) in
  mappings <> []
  /\ handleSave mappings <> []
  /\ Forall (fun m => file1Column m ∈ ["id"; "amount"] /\ file2Column m ∈ ["ref"; "total"])
            (handleSave mappings)
  /\ Streaming.validateColumnMappingsAgainstHeaders ["id"; "amount"] ["ref"; "total"]
       (handleSave mappings) = ret tt.
Proof.
  apply (X26_saved_mappings_pass_the_header_check ["id"; "amount"] ["ref"; "total"]).
  - eapply MapperStep; [eapply MapperStep; [eapply MapperStep; [apply MapperInitial|]|]|].
    + apply ClickAdd.
    + refine (SelectFile1Column _ _ _ 1 "amount" _ _); [vm_compute; lia|].
      apply list_elem_of_further, list_elem_of_here.
    + refine (SelectFile2Column _ _ _ 1 "total" _ _); [vm_compute; lia|].
      apply list_elem_of_further, list_elem_of_here.
  - reflexivity.
Defined.

(** * The results view *)

Lemma elem_of_object_set (o : Transaction) (k : string) (v : value) :
  (k, v) ∈ Js.set o k v.
Proof.
  induction o as [|[k0 v0] o IH]; cbn [Js.set]; [apply list_elem_of_here|].
  destruct (String.eqb k0 k) eqn:E.
  - apply String.eqb_eq in E. subst k0. apply list_elem_of_here.
  - by apply list_elem_of_further.
Qed.

Lemma stringOf_cell (v : value) : Js.isObject v = false -> stringOf v = Some (Js.toString v).
Proof. by destruct v. Qed.

(** A row one of whose values is an object without a column [toString],
    and whose other values are no objects, is kept by a search for a piece of
    [[object object]]. *)
Lemma someValueHolds_object (searchTerm : string) (values : list value)
    (entries : Transaction) :
  includes "[object object]" (JsString.toLowerCase searchTerm) = true ->
  Js.has entries "toString" = false ->
  VObj entries ∈ values ->
  Forall (fun v => Js.isObject v = false \/ v = VObj entries) values ->
  someValueHolds searchTerm values = inr true.
Proof.
  intros Hpart Hplain Hin Hall.
  induction Hall as [|v values Hv _ IH]; [by apply elem_of_nil in Hin|].
  cbn [someValueHolds].
  assert (Hobject : v = VObj entries -> 
            (if Js.nullish v then someValueHolds searchTerm values
             else match stringOf v with
                  | None => inl CannotConvertObject
                  | Some text =>
                      if includes (JsString.toLowerCase text)
                           (JsString.toLowerCase searchTerm)
                      then inr true else someValueHolds searchTerm values
                  end) = inr true).
  { intros ->. cbn [Js.nullish stringOf]. rewrite Hplain.
    cbn [Js.toString].
    assert (JsString.toLowerCase "[object Object]" = "[object object]") as ->
      by reflexivity.
    by rewrite Hpart. }
  destruct Hv as [Hcell|Hv]; [|by apply Hobject].
  apply elem_of_cons in Hin as [Heq|Hin]; [by apply Hobject|].
  destruct (Js.nullish v); [by apply IH|].
  rewrite (stringOf_cell v Hcell).
  destruct (includes (JsString.toLowerCase (Js.toString v)) _); [done|by apply IH].
Qed.

Lemma object_set_values (o : Transaction) (k : string) (v : value) (P : value -> Prop) :
  Forall P o.*2 -> P v -> Forall P (Js.set o k v).*2.
Proof.
  intros Hall Hv. induction o as [|[k0 v0] o IH]; cbn [Js.set].
  - by repeat constructor.
  - cbn in Hall. apply Forall_cons in Hall as [H0 Hall].
    destruct (String.eqb k0 k); cbn; constructor; try done. by apply IH.
Qed.

Lemma filterRows_all (searchTerm : string) (data : list value) :
  Forall (fun item =>
            Js.truthy item = true
            /\ someValueHolds searchTerm (XLSX.ownProps item).*2 = inr true) data ->
  filterRows searchTerm data = inr data.
Proof.
  induction 1 as [|item data [Htruthy Hkeep] _ IH]; [done|].
  cbn [filterRows]. by rewrite Htruthy, Hkeep, IH.
Qed.

(** X27.  A search on the matched rows for a piece of [[object Object]]
    filters nothing: a matched row holds the row of file 2 as an object,
    whose text is [[object Object]], and [filterData] searches the texts of
    all values of a row.  So for every search term that, in lower case, is
    part of [[object object]] (such as [object] or [ect]), [filterData]
    returns every matched row, whatever its columns hold.  This is for cells
    of file 1 that are no objects and for rows of file 2 without a column
    named [toString], on which [String] would throw. *)
Theorem X27_search_for_object_shows_every_matched_row
    (mappings : list ColumnMapping) (data1 data2 : list Transaction)
    (searchTerm : string) :
  JsString.truthy searchTerm = true ->
  includes "[object object]" (JsString.toLowerCase searchTerm) = true ->
  Forall (fun row : Transaction => Forall (fun v => Js.isObject v = false) row.*2) data1 ->
  Forall (fun row : Transaction => Js.has row "toString" = false) data2 ->
  let matched := VObj <$> resMatched (compareFilesWithMappings mappings data1 data2) in
  filterData searchTerm matched = inr matched.
Proof.
  intros Hterm Hpart Hcells Hrows matched. unfold filterData. rewrite Hterm. cbn [negb].
  apply filterRows_all. apply Forall_forall. intros item Hin.
  apply list_elem_of_fmap in Hin as (row & -> & Hrow).
  split; [done|]. cbn [XLSX.ownProps].
  destruct (compareFilesWithMappings_spec mappings data1 data2) as (Hmatched & _).
  rewrite Hmatched in Hrow.
  apply list_elem_of_omap in Hrow as (p & _ & Hentry).
  unfold matchedEntry in Hentry.
  destruct (data1 !! p.1) as [item1|] eqn:H1; [|done].
  destruct (data2 !! p.2) as [item2|] eqn:H2; [|done].
  injection Hentry as <-.
  rewrite Forall_forall in Hcells, Hrows.
  apply (someValueHolds_object searchTerm _ item2 Hpart).
  - apply Hrows. by eapply list_elem_of_lookup_2.
  - apply list_elem_of_fmap. exists ("_matchedWith", VObj item2).
    split; [done|]. apply elem_of_object_set.
  - apply object_set_values; [|by right].
    eapply Forall_impl; [apply Hcells; by eapply list_elem_of_lookup_2|].
    intros v Hv. by left.
Qed.

Lemma X27_search_for_object_shows_every_matched_row_witness :
  let matched :=
    VObj <$> resMatched (compareFilesWithMappings
                           [{| file1Column := "id"; file2Column := "id";
                               isExactMatch := true |}]
                           [[("id", VStr "7"); ("name", VStr "Ann")]]
                           [[("id", VStr "7"); ("name", VStr "Bob")]]) in
  filterData "Object" matched = inr matched.
Proof.
  apply (X27_search_for_object_shows_every_matched_row
           [{| file1Column := "id"; file2Column := "id"; isExactMatch := true |}]
           [[("id", VStr "7"); ("name", VStr "Ann")]]
           [[("id", VStr "7"); ("name", VStr "Bob")]] "Object").
  - reflexivity.
  - reflexivity.
  - repeat constructor.
  - repeat constructor.
Defined.

Lemma paginated_from (filteredData : list value) (pages : nat) :
  concat ((fun currentPage => paginatedDataOf filteredData currentPage) <$> seq 1 pages)
  = take (pages * PAGE_SIZE) filteredData.
Proof.
  induction pages as [|pages IH]; [done|].
  rewrite seq_S, fmap_app, concat_app, IH. cbn [fmap list_fmap concat].
  rewrite app_nil_r. change (1 + pages) with (S pages). unfold paginatedDataOf, slice.
  replace (pages * PAGE_SIZE + PAGE_SIZE - pages * PAGE_SIZE) with PAGE_SIZE by lia.
  replace (S pages * PAGE_SIZE) with (pages * PAGE_SIZE + PAGE_SIZE) by lia.
  by rewrite <- take_take_drop.
Qed.

(** The pages hold every row once: the pages from 1 to the number of
    pages, put end to end, are the filtered rows in their order; every page
    has at most 50 rows, and a page after the last one is empty. *)
Lemma pages_hold_every_row_once (filteredData : list value) :
  concat ((fun currentPage => paginatedDataOf filteredData currentPage)
            <$> seq 1 (totalPagesOf filteredData))
  = filteredData
  /\ (forall currentPage, length (paginatedDataOf filteredData currentPage) <= 50)
  /\ (forall currentPage, totalPagesOf filteredData < currentPage ->
        paginatedDataOf filteredData currentPage = []).
Proof.
  assert (Hpages : length filteredData <= totalPagesOf filteredData * PAGE_SIZE).
  { unfold totalPagesOf.
    destruct (ceilDiv_bounds (length filteredData) PAGE_SIZE) as [Hlow _];
      [unfold PAGE_SIZE; lia|]. unfold PAGE_SIZE in *. lia. }
  split_and!.
  - rewrite paginated_from. by apply take_ge.
  - intros [|before]; unfold paginatedDataOf, slice; [cbn; lia|].
    rewrite length_take. unfold PAGE_SIZE. lia.
  - intros [|before] Hafter; [done|]. unfold paginatedDataOf, slice.
    rewrite drop_ge; [by rewrite take_nil|]. unfold PAGE_SIZE in *. nia.
Qed.

(** * What [processSheetData] does to the workbook *)

Lemma book_append_sheet_fresh (wb : XLSX.WorkBook) (ws : XLSX.WorkSheet) (name : string) :
  XLSX.validSheetName name = true -> name ∉ wb.*1 ->
  XLSX.book_append_sheet wb ws name = inr (wb ++ [(name, ws)]).
Proof.
  intros Hvalid Hfresh. unfold XLSX.book_append_sheet. rewrite Hvalid. cbn [negb].
  by rewrite bool_decide_false.
Qed.

Lemma processSheetData_outcome
    (jsonLength : value -> N) (toLocaleString : N -> string)
    (workbook : XLSX.WorkBook) (sheetName : string) (data : list value) :
  XLSX.validSheetName sheetName = true ->
  sheetName ∉ workbook.*1 ->
  match head (List.filter (fun item => negb (Js.nullish item)) data) with
  | None | Some (VObj _) =>
      exists ws, processSheetData jsonLength toLocaleString workbook sheetName data
                 = inr (workbook ++ [(sheetName, ws)])
  | Some _ =>
      processSheetData jsonLength toLocaleString workbook sheetName data
      = inl InOperatorOnPrimitive
  end.
Proof.
  intros Hvalid Hfresh. unfold processSheetData.
  destruct (decide (length data = 0)) as [Hnil|Hsome].
  { apply nil_length_inv in Hnil. subst data. cbn [List.filter head].
    rewrite book_append_sheet_fresh by done. by eexists. }
  destruct (List.filter (fun item => negb (Js.nullish item)) data) as [|first validData];
    cbn [head].
  { rewrite book_append_sheet_fresh by done. by eexists. }
  destruct first as [| |z|s|firstProps]; try done.
  destruct (MAX_SAFE_ROWS <? _)%N.
  { rewrite book_append_sheet_fresh by done. by eexists. }
  destruct (_ && _).
  { destruct (if Js.has firstProps "_matchedWith" then _ else _);
      rewrite book_append_sheet_fresh by done; by eexists. }
  rewrite book_append_sheet_fresh by done. by eexists.
Qed.

(** * The sheets of an export *)

Lemma processSheetData_object_rows
    (jsonLength : value -> N) (toLocaleString : N -> string)
    (workbook : XLSX.WorkBook) (sheetName : string) (rows : list value) :
  XLSX.validSheetName sheetName = true ->
  sheetName ∉ workbook.*1 ->
  Forall (fun row => Js.isObject row = true) rows ->
  exists ws, processSheetData jsonLength toLocaleString workbook sheetName rows
             = inr (workbook ++ [(sheetName, ws)]).
Proof.
  intros Hvalid Hfresh Hrows.
  pose proof (processSheetData_outcome jsonLength toLocaleString workbook sheetName rows
                Hvalid Hfresh) as Hout.
  destruct (List.filter (fun item => negb (Js.nullish item)) rows) as [|first rest] eqn:Hf;
    [done|].
  assert (Hin : In first (List.filter (fun item => negb (Js.nullish item)) rows))
    by (rewrite Hf; by left).
  apply filter_In in Hin as [Hin _]. apply list_elem_of_In in Hin.
  rewrite Forall_forall in Hrows. specialize (Hrows first Hin).
  by destruct first.
Qed.

Lemma filter_truthy_object_rows (rows : list value) :
  Forall (fun row => Js.isObject row = true) rows -> List.filter Js.truthy rows = rows.
Proof.
  intros Hrows. apply filter_all. eapply Forall_impl; [exact Hrows|].
  intros row. apply isObject_truthy.
Qed.

Lemma namesWithRows_app (a b : list (string * list value)) :
  namesWithRows (a ++ b) = namesWithRows a ++ namesWithRows b.
Proof. unfold namesWithRows. by rewrite List.filter_app, fmap_app. Qed.

Lemma namesWithRows_names (sheets : list (string * list value)) (name : string) :
  name ∈ namesWithRows sheets -> name ∈ sheets.*1.
Proof.
  unfold namesWithRows. intros Hin.
  apply list_elem_of_fmap in Hin as (sheet & -> & Hin).
  apply list_elem_of_In, filter_In in Hin as [Hin _].
  apply list_elem_of_fmap. exists sheet. split; [done|]. by apply list_elem_of_In.
Qed.

Lemma namesWithRows_one (name : string) (rows : list value) :
  namesWithRows [(name, rows)] = if decide (0 < length rows) then [name] else [].
Proof. unfold namesWithRows. by destruct rows. Qed.

Section ExportFacts.
Import ExcelExport.
Variable jsonLength : value -> N.
Variable toLocaleString : N -> string.

Lemma categorySheet_names (wb : XLSX.WorkBook) (sheetName error : string)
    (rows : list value) (before : list (string * list value)) (first : string * XLSX.WorkSheet) :
  XLSX.validSheetName sheetName = true ->
  sheetName ∉ "Summary" :: before.*1 ->
  Forall (fun row => Js.isObject row = true) rows ->
  head wb = Some first ->
  wb.*1 = "Summary" :: namesWithRows before ->
  exists wb',
    categorySheet jsonLength toLocaleString wb sheetName error rows = inr wb'
    /\ head wb' = Some first
    /\ wb'.*1 = "Summary" :: namesWithRows (before ++ [(sheetName, rows)]).
Proof.
  intros Hvalid Hfresh Hrows Hhead Hnames. unfold categorySheet.
  rewrite namesWithRows_app, namesWithRows_one.
  destruct (decide (0 < length rows)) as [Hsome|Hnone].
  - destruct (processSheetData_object_rows jsonLength toLocaleString wb sheetName rows)
      as [ws ->]; [done| |done|].
    + rewrite Hnames. intros Hin. apply Hfresh.
      apply elem_of_cons in Hin as [->|Hin]; [apply list_elem_of_here|].
      apply list_elem_of_further. by apply namesWithRows_names.
    + eexists. split; [done|]. split.
      * destruct wb; [done|]. exact Hhead.
      * rewrite fmap_app, Hnames. done.
  - exists wb. rewrite app_nil_r. by split_and!.
Qed.

Lemma groupsSheet_names (wb : XLSX.WorkBook) (sheetName : string)
    (groups : list (list value)) (before : list (string * list value))
    (first : string * XLSX.WorkSheet) :
  XLSX.validSheetName sheetName = true ->
  sheetName ∉ "Summary" :: before.*1 ->
  Forall (fun row => Js.isObject row = true) (concat groups) ->
  head wb = Some first ->
  wb.*1 = "Summary" :: namesWithRows before ->
  let wb' := groupsSheet jsonLength toLocaleString wb sheetName groups in
  head wb' = Some first
  /\ wb'.*1 = "Summary" :: namesWithRows (before ++ [(sheetName, concat groups)]).
Proof.
  intros Hvalid Hfresh Hrows Hhead Hnames. cbv zeta. unfold groupsSheet.
  rewrite namesWithRows_app, namesWithRows_one.
  rewrite (filter_truthy_object_rows _ Hrows).
  destruct (decide (0 < length groups)) as [Hgroups|Hnone].
  - destruct (decide (0 < length (concat groups))) as [Hsome|Hnone].
    + destruct (processSheetData_object_rows jsonLength toLocaleString wb sheetName
                  (concat groups)) as [ws ->]; [done| |done|].
      * rewrite Hnames. intros Hin. apply Hfresh.
        apply elem_of_cons in Hin as [->|Hin]; [apply list_elem_of_here|].
        apply list_elem_of_further. by apply namesWithRows_names.
      * split; [destruct wb; [done|exact Hhead]|]. by rewrite fmap_app, Hnames.
    + rewrite app_nil_r. by split.
  - assert (groups = []) as -> by (destruct groups; [done|cbn in Hnone; lia]).
    cbn [concat length]. rewrite decide_False by lia. rewrite app_nil_r. by split.
Qed.

End ExportFacts.

Section ExportTheorems.
Import ExcelExport.
Variable jsonLength : value -> N.
Variable toLocaleString : N -> string.
Variable estimateDataSize : Data -> N.
Variable createSummarySheet : Data -> list (list value).
Variable createCategorySummarySheet : Data -> ExportCategory -> list (list value).
Variable safelyWriteWorkbook : XLSX.WorkBook -> string + N.
Variable formattedNow : string.

Ltac fresh_sheet_name := cbn; apply (bool_decide_unpack _); vm_compute; exact I.

(** X29.  A full export of object rows that is not estimated too large
    always gets as far as writing the file, and the workbook it writes has
    the summary sheet first and then one sheet for each category and each
    list of duplicate groups that has rows, in the fixed order [Matched],
    [In File 1 Only], [In File 2 Only], [Duplicates in File 1], [Duplicates
    in File 2], [Duplicate Groups File 1], [Duplicate Groups File 2]; a
    category without rows has no sheet. *)
Theorem X29_full_export_has_a_sheet_for_each_category_with_rows
    (data : Data) (fileName : string) :
  objectRows data ->
  (estimateDataSize data <= MAX_BLOB_SIZE)%N ->
  exists wb,
    exportToExcel jsonLength toLocaleString estimateDataSize createSummarySheet
      safelyWriteWorkbook formattedNow data fileName
    = generateFile safelyWriteWorkbook wb
        (fileName +:+ "_" +:+ formattedNow +:+ ".xlsx") "Failed to generate Excel file"
    /\ head wb = Some ("Summary", XLSX.aoa_to_sheet (createSummarySheet data))
    /\ wb.*1 = "Summary" :: namesWithRows (fullReportSheets data).
Proof.
  intros Hrows Hsize. unfold exportToExcel.
  replace (MAX_BLOB_SIZE <? estimateDataSize data)%N with false
    by (symmetry; apply N.ltb_ge; exact Hsize).
  unfold fullReport. rewrite book_append_sheet_fresh; [|done|apply not_elem_of_nil].
  unfold objectRows, fullReportSheets in Hrows.
  repeat (apply Forall_cons in Hrows as [? Hrows]). cbn [snd] in *.
  set (summary := ("Summary", XLSX.aoa_to_sheet (createSummarySheet data))).
  destruct (categorySheet_names jsonLength toLocaleString (XLSX.book_new ++ [summary])
              "Matched" "Failed to process matched data" (matched data) [] summary)
    as (wb1 & -> & Hhead1 & Hnames1); [done|fresh_sheet_name|done|done|done|].
  set (before1 := [] ++ [("Matched", matched data)]) in *.
  destruct (categorySheet_names jsonLength toLocaleString wb1
              "In File 1 Only" "Failed to process File 1 data" (inFile1Only data)
              before1 summary
              eq_refl ltac:(fresh_sheet_name) ltac:(done) Hhead1 Hnames1)
    as (wb2 & -> & Hhead2 & Hnames2).
  set (before2 := before1 ++ [("In File 1 Only", inFile1Only data)]) in *.
  destruct (categorySheet_names jsonLength toLocaleString wb2
              "In File 2 Only" "Failed to process File 2 data" (inFile2Only data)
              before2 summary
              eq_refl ltac:(fresh_sheet_name) ltac:(done) Hhead2 Hnames2)
    as (wb3 & -> & Hhead3 & Hnames3).
  set (before3 := before2 ++ [("In File 2 Only", inFile2Only data)]) in *.
  destruct (categorySheet_names jsonLength toLocaleString wb3
              "Duplicates in File 1" "Failed to process duplicates in File 1"
              (duplicatesInFile1 data) before3 summary
              eq_refl ltac:(fresh_sheet_name) ltac:(done) Hhead3 Hnames3)
    as (wb4 & -> & Hhead4 & Hnames4).
  set (before4 := before3 ++ [("Duplicates in File 1", duplicatesInFile1 data)]) in *.
  destruct (categorySheet_names jsonLength toLocaleString wb4
              "Duplicates in File 2" "Failed to process duplicates in File 2"
              (duplicatesInFile2 data) before4 summary
              eq_refl ltac:(fresh_sheet_name) ltac:(done) Hhead4 Hnames4)
    as (wb5 & -> & Hhead5 & Hnames5).
  set (before5 := before4 ++ [("Duplicates in File 2", duplicatesInFile2 data)]) in *.
  destruct (groupsSheet_names jsonLength toLocaleString wb5
              "Duplicate Groups File 1" (duplicateGroupsInFile1 data) before5 summary
              eq_refl ltac:(fresh_sheet_name) ltac:(done) Hhead5 Hnames5)
    as (Hhead6 & Hnames6).
  set (before6 := before5 ++ [("Duplicate Groups File 1",
                               concat (duplicateGroupsInFile1 data))]) in *.
  destruct (groupsSheet_names jsonLength toLocaleString _
              "Duplicate Groups File 2" (duplicateGroupsInFile2 data) before6 summary
              eq_refl ltac:(fresh_sheet_name) ltac:(done) Hhead6 Hnames6)
    as (Hhead7 & Hnames7).
  eexists. split; [reflexivity|]. split; [exact Hhead7|exact Hnames7].
Qed.

(** X30.  The export of one category of object rows always gets as far as
    writing the file.  The workbook it writes has the summary sheet first
    and the sheet of the category last, also when the category has no rows:
    the sheet then holds the one cell [No data available for this
    category].  For the two categories of duplicates a sheet [Duplicate
    Groups] stands between them when the groups have rows. *)
Theorem X30_category_export_always_has_the_sheet_of_the_category
    (data : Data) (category : ExportCategory) (fileName : string) :
  category <> CatFull ->
  objectRows data ->
  exists wb,
    exportCategoryToExcel jsonLength toLocaleString estimateDataSize createSummarySheet
      createCategorySummarySheet safelyWriteWorkbook formattedNow data category fileName
    = generateFile safelyWriteWorkbook wb
        (fileName +:+ "_" +:+ CATEGORY_NAMES category +:+ "_" +:+ formattedNow +:+ ".xlsx")
        "Failed to generate Excel file: "
    /\ head wb
       = Some ("Summary", XLSX.aoa_to_sheet (createCategorySummarySheet data category))
    /\ wb.*1 = "Summary"
               :: namesWithRows [("Duplicate Groups", concat (categoryGroups data category))]
               ++ [categorySheetName category]
    /\ (categoryRows data category = [] ->
        last wb = Some (categorySheetName category,
                        [[VStr "No data available for this category"]])).
Proof.
  intros Hcategory Hrows. unfold exportCategoryToExcel.
  rewrite book_append_sheet_fresh; [|done|apply not_elem_of_nil].
  unfold objectRows, fullReportSheets in Hrows.
  repeat (apply Forall_cons in Hrows as [? Hrows]). cbn [snd] in *.
  set (summary := ("Summary", XLSX.aoa_to_sheet (createCategorySummarySheet data category))).
  assert (Hgroups : Forall (fun row => Js.isObject row = true)
                      (concat (categoryGroups data category)))
    by (destruct category; done).
  assert (Hcat : Forall (fun row => Js.isObject row = true) (categoryRows data category))
    by (destruct category; done).
  destruct (groupsSheet_names jsonLength toLocaleString (XLSX.book_new ++ [summary])
              "Duplicate Groups" (categoryGroups data category) [] summary
              eq_refl ltac:(fresh_sheet_name) Hgroups eq_refl eq_refl)
    as (Hhead & Hnames).
  set (wb0 := groupsSheet jsonLength toLocaleString (XLSX.book_new ++ [summary])
                "Duplicate Groups" (categoryGroups data category)) in *.
  assert (Hdata : categoryData jsonLength toLocaleString data category
                    (XLSX.book_new ++ [summary])
                  = (categoryRows data category, categorySheetName category, wb0)
                  \/ category = CatFull).
  { destruct category; try (by right); left; cbn [categoryData categoryRows];
      rewrite filter_truthy_object_rows by done; try done.
    all: unfold wb0; cbn [categoryGroups]; unfold groupsSheet;
      by rewrite decide_False by (cbn; lia). }
  destruct Hdata as [Hdata|?]; [|done].
  assert (Hfresh : categorySheetName category ∉ wb0.*1).
  { rewrite Hnames. cbn [app]. intros Hin.
    apply elem_of_cons in Hin as [Heq|Hin]; [by destruct category|].
    apply namesWithRows_names in Hin. cbn in Hin.
    apply list_elem_of_singleton in Hin. by destruct category. }
  assert (Hvalid : XLSX.validSheetName (categorySheetName category) = true)
    by (by destruct category).
  assert (Hstep : exists ws,
             categorySheets jsonLength toLocaleString data category
               (XLSX.book_new ++ [summary])
             = inr (wb0 ++ [(categorySheetName category, ws)])
             /\ (categoryRows data category = [] ->
                 ws = [[VStr "No data available for this category"]])).
  { unfold categorySheets. rewrite Hdata.
    destruct (decide (0 < length (categoryRows data category))) as [Hsome|Hnone].
    - destruct (processSheetData_object_rows jsonLength toLocaleString wb0
                  (categorySheetName category) (categoryRows data category))
        as [ws ->]; [done..|].
      exists ws. split; [done|]. intros Hnil. rewrite Hnil in Hsome. cbn in Hsome. lia.
    - rewrite book_append_sheet_fresh by done. eexists. by split. }
  destruct Hstep as (ws & Hsheets & Hnote).
  assert (Hgoal : forall result,
    result = andThen (categorySheets jsonLength toLocaleString data category
                        (XLSX.book_new ++ [summary]))
               (fun wb => generateFile safelyWriteWorkbook wb
                  (fileName +:+ "_" +:+ CATEGORY_NAMES category +:+ "_" +:+ formattedNow
                   +:+ ".xlsx") "Failed to generate Excel file: ") ->
    exists wb,
      result = generateFile safelyWriteWorkbook wb
        (fileName +:+ "_" +:+ CATEGORY_NAMES category +:+ "_" +:+ formattedNow +:+ ".xlsx")
        "Failed to generate Excel file: "
      /\ head wb = Some summary
      /\ wb.*1 = "Summary"
                 :: namesWithRows [("Duplicate Groups", concat (categoryGroups data category))]
                 ++ [categorySheetName category]
      /\ (categoryRows data category = [] ->
          last wb = Some (categorySheetName category,
                          [[VStr "No data available for this category"]]))).
  { intros result ->. rewrite Hsheets. cbn [andThen].
    eexists. split; [reflexivity|]. split_and!.
    - destruct wb0; [done|exact Hhead].
    - rewrite fmap_app, Hnames. done.
    - intros Hnil. rewrite last_snoc, (Hnote Hnil). done. }
  destruct category; try done; by apply Hgoal.
Qed.

End ExportTheorems.

Lemma X29_full_export_has_a_sheet_for_each_category_with_rows_witness :
  exists wb,
    ExcelExport.exportToExcel (fun _ => 20%N) (fun _ => "") (fun _ => 100%N)
      (fun _ => [[VStr "Reconciliation Summary"]]) (fun _ => inr 5000%N)
      "2025-01-01_10-00" exampleExportData "report"
    = ExcelExport.generateFile (fun _ => inr 5000%N) wb
        ("report" +:+ "_" +:+ "2025-01-01_10-00" +:+ ".xlsx")
        "Failed to generate Excel file"
    /\ head wb = Some ("Summary", XLSX.aoa_to_sheet [[VStr "Reconciliation Summary"]])
    /\ wb.*1 = "Summary" :: namesWithRows (ExcelExport.fullReportSheets exampleExportData).
Proof.
  apply (X29_full_export_has_a_sheet_for_each_category_with_rows
           (fun _ => 20%N) (fun _ => "") (fun _ => 100%N)
           (fun _ => [[VStr "Reconciliation Summary"]]) (fun _ => inr 5000%N)
           "2025-01-01_10-00" exampleExportData "report").
  - repeat constructor.
  - unfold ExcelExport.MAX_BLOB_SIZE. lia.
Defined.

Lemma X30_category_export_always_has_the_sheet_of_the_category_witness :
  exists wb,
    ExcelExport.exportCategoryToExcel (fun _ => 20%N) (fun _ => "") (fun _ => 100%N)
      (fun _ => [[VStr "Reconciliation Summary"]])
      (fun _ _ => [[VStr "Reconciliation Report"]]) (fun _ => inr 5000%N)
      "2025-01-01_10-00" exampleExportData ExcelExport.CatInFile1Only "report"
    = ExcelExport.generateFile (fun _ => inr 5000%N) wb
        ("report" +:+ "_" +:+ ExcelExport.CATEGORY_NAMES ExcelExport.CatInFile1Only
         +:+ "_" +:+ "2025-01-01_10-00" +:+ ".xlsx")
        "Failed to generate Excel file: "
    /\ head wb = Some ("Summary", XLSX.aoa_to_sheet [[VStr "Reconciliation Report"]])
    /\ wb.*1 = "Summary"
               :: namesWithRows
                    [("Duplicate Groups",
                      concat (ExcelExport.categoryGroups exampleExportData
                                ExcelExport.CatInFile1Only))]
               ++ [ExcelExport.categorySheetName ExcelExport.CatInFile1Only]
    /\ (ExcelExport.categoryRows exampleExportData ExcelExport.CatInFile1Only = [] ->
        last wb = Some (ExcelExport.categorySheetName ExcelExport.CatInFile1Only,
                        [[VStr "No data available for this category"]])).
Proof.
  apply (X30_category_export_always_has_the_sheet_of_the_category
           (fun _ => 20%N) (fun _ => "") (fun _ => 100%N)
           (fun _ => [[VStr "Reconciliation Summary"]])
           (fun _ _ => [[VStr "Reconciliation Report"]]) (fun _ => inr 5000%N)
           "2025-01-01_10-00" exampleExportData ExcelExport.CatInFile1Only "report").
  - discriminate.
  - repeat constructor.
Defined.
